(** * balooProxy firewall core: reputation, connection limits, multi-window
    counters, adaptive rate limits, challenge difficulty, geo/ASN filter
    and per-address metrics.

    Shallow embedding of package [firewall] (and of the part of the
    configuration loader that assigns its package-level variables).

    Conventions.
    - A Go [int] is a [Z] kept in the signed 64-bit range by [wrap64].
    - A [float64] is a [spec_float] with precision 53 and maximal exponent
      1024: the IEEE-754 binary64 operations of the standard library.
      Floating-point expressions are evaluated operation by operation,
      each rounded to nearest-even (no fused multiply-add, as on amd64).
    - A [time.Time] is a [Z] counting nanoseconds; a [time.Duration] is a
      64-bit nanosecond count and [Time.Sub] saturates as in package time.
      A function that reads the clock takes the reading as argument [now];
      several readings inside one call are taken as one instant.
    - Go maps are [gmap]s; reading an absent key yields the zero value.
    - [sync.RWMutex] is modelled for the reputation store, where a function
      acquires the mutex on a call path that already holds it. The other
      mutexes bracket straight-line sections and are never taken twice on
      one call path; they are left out.
    - What a function obtains from outside the process (the answer of the
      geo lookup service) is an argument of the function.
    - A [range] over a map visits the entries in an order that the
      language leaves open; where a result depends on it, the order is an
      argument.
    - A function that can panic returns an [option]; [None] is the panic. *)

From Stdlib Require Import ZArith Lia Bool List.
From Stdlib Require Import Floats.SpecFloat.
From stdpp Require Import gmap strings pretty.

Local Open Scope Z_scope.

(** * Part I: the program *)

(** ** Go integers *)

Module GoInt.

Definition min_int : Z := - 2 ^ 63.
Definition max_int : Z := 2 ^ 63 - 1.

(** Two's-complement reduction to the signed 64-bit range. *)
Definition wrap64 (z : Z) : Z := (z + 2 ^ 63) mod 2 ^ 64 - 2 ^ 63.

Definition in_range (z : Z) : Prop := min_int <= z <= max_int.

Definition add (a b : Z) : Z := wrap64 (a + b).
Definition sub (a b : Z) : Z := wrap64 (a - b).
Definition mul (a b : Z) : Z := wrap64 (a * b).

(** Go's [/] truncates toward zero. It panics on a zero divisor; the model
    divides by window sizes only, which the loader keeps positive. *)
Definition quo (a b : Z) : Z := wrap64 (Z.quot a b).

End GoInt.

Import GoInt.

(** ** Time *)

Module GoTime.

Definition Time := Z.
Definition Duration := Z.

Definition Second : Duration := 1000000000.
Definition Hour : Duration := 3600 * Second.

(** [t.Sub(u)]: the difference, saturated to the Duration range. *)
Definition Sub (t u : Time) : Duration :=
  Z.max min_int (Z.min max_int (t - u)).

(** [time.Since(u)] read at instant [now]. *)
Definition Since (now u : Time) : Duration := Sub now u.

(** [t.Unix()]: whole seconds since the epoch. *)
Definition Unix (t : Time) : Z := t / Second.

End GoTime.

Import GoTime.

(** ** float64 *)

Module F64.

Definition prec : Z := 53.
Definition emax : Z := 1024.

Definition f64 := spec_float.

Definition add : f64 -> f64 -> f64 := SFadd prec emax.
Definition sub : f64 -> f64 -> f64 := SFsub prec emax.
Definition mul : f64 -> f64 -> f64 := SFmul prec emax.
Definition div : f64 -> f64 -> f64 := SFdiv prec emax.

Definition ltb : f64 -> f64 -> bool := SFltb.
Definition leb : f64 -> f64 -> bool := SFleb.
Definition gtb (x y : f64) : bool := SFltb y x.
Definition geb (x y : f64) : bool := SFleb y x.

Definition is_nan (x : f64) : bool :=
  match x with S754_nan => true | _ => false end.

(** [float64(n)] for an integer [n]: the nearest binary64 number. *)
Definition of_int (n : Z) : f64 := binary_normalize prec emax n 0 false.

(** A decimal constant [n/d] of the source text, rounded once to binary64
    the way the compiler converts an untyped constant. *)
Definition lit (n d : Z) : f64 := div (of_int n) (of_int d).

(** [int(x)]: the fraction is discarded. The language leaves the result open
    when the value does not fit; the amd64 conversion instruction then
    yields the least integer, which is what is modelled. *)
Definition to_int (x : f64) : Z :=
  match x with
  | S754_zero _ => 0
  | S754_finite s m e =>
      let mag := match e with
                 | Zneg p => Z.shiftr (Zpos m) (Zpos p)
                 | _ => Z.shiftl (Zpos m) e
                 end in
      let v := if s then - mag else mag in
      if (min_int <=? v) && (v <=? max_int) then v else min_int
  | _ => min_int
  end.

End F64.


Import F64.

(** ** Domain telemetry and configuration file *)

Module Domains.

(** Modelled from the spec: package [domains] is not among the sources. The
    record holds the fields of [domains.DomainsData[name]] that package
    firewall reads (the projection Stage, RawAttack, BypassAttack,
    Stage2Difficulty of the design notes). *)
Record DomainData := {
  Stage : Z;
  RawAttack : bool;
  BypassAttack : bool;
  Stage2Difficulty : Z
}.

(** Modelled from the spec: the fields of [domains.Config.Proxy] that the
    loader copies into package firewall, grouped as in the configuration
    file (ConnectionLimits, Reputation, AdaptiveRateLimit, Challenge,
    RatelimitWindows). A field left out of the file decodes to its zero
    value. *)
Record ProxyConfig := {
  cl_MaxConcurrentPerIP : Z;
  cl_MaxConnectionRatePerIP : Z;
  cl_MaxHalfOpenPerIP : Z;
  cl_EnableSynFloodProtection : bool;
  rep_Enabled : bool;
  rep_MinScore : Z;
  rep_PersistToDB : bool;
  rep_DecayInterval : Z;
  arl_Enabled : bool;
  arl_BaseMultiplier : f64;
  arl_AttackMultiplier : f64;
  arl_DecayRate : f64;
  arl_LearningEnabled : bool;
  ch_DynamicDifficulty : bool;
  ch_MinDifficulty : Z;
  ch_MaxDifficulty : Z;
  rw_Burst : Z;
  rw_Short : Z;
  rw_Medium : Z;
  rw_Long : Z
}.

(** The configuration file with every field absent. *)
Definition empty_config : ProxyConfig := {|
  cl_MaxConcurrentPerIP := 0;
  cl_MaxConnectionRatePerIP := 0;
  cl_MaxHalfOpenPerIP := 0;
  cl_EnableSynFloodProtection := false;
  rep_Enabled := false;
  rep_MinScore := 0;
  rep_PersistToDB := false;
  rep_DecayInterval := 0;
  arl_Enabled := false;
  arl_BaseMultiplier := S754_zero false;
  arl_AttackMultiplier := S754_zero false;
  arl_DecayRate := S754_zero false;
  arl_LearningEnabled := false;
  ch_DynamicDifficulty := false;
  ch_MinDifficulty := 0;
  ch_MaxDifficulty := 0;
  rw_Burst := 0;
  rw_Short := 0;
  rw_Medium := 0;
  rw_Long := 0
|}.

End Domains.

Import Domains.

(** ** Package-level variables of package firewall *)

Module Vars.

(** The variables that the loader assigns or that the functions below
    branch on. Variables that nothing assigns ([BaseDifficulty],
    [DefaultReputationScore], [ConnectionRateWindow], ...) are constants of
    their modules. *)
Record t := {
  ReputationEnabled : bool;
  ReputationMinScore : Z;
  ReputationPersistToDB : bool;
  ReputationDecayInterval : Z;
  MaxConcurrentConnPerIP : Z;
  MaxConnRatePerIP : Z;
  MaxHalfOpenPerIP : Z;
  EnableSynFloodProtection : bool;
  AdaptiveRateLimitEnabled : bool;
  AdaptiveBaseMultiplier : f64;
  AdaptiveAttackMultiplier : f64;
  AdaptiveDecayRate : f64;
  AdaptiveLearningEnabled : bool;
  DynamicDifficultyEnabled : bool;
  MinDifficulty : Z;
  MaxDifficulty : Z;
  MultiWindowEnabled : bool;
  BurstWindow : Z;
  ShortWindow : Z;
  MediumWindow : Z;
  LongWindow : Z
}.

(** The initialisers of the [var] blocks. *)
Definition initial : t := {|
  ReputationEnabled := true;
  ReputationMinScore := 20;
  ReputationPersistToDB := true;
  ReputationDecayInterval := 3600;
  MaxConcurrentConnPerIP := 100;
  MaxConnRatePerIP := 10;
  MaxHalfOpenPerIP := 20;
  EnableSynFloodProtection := true;
  AdaptiveRateLimitEnabled := true;
  AdaptiveBaseMultiplier := of_int 1;
  AdaptiveAttackMultiplier := lit 3 10;
  AdaptiveDecayRate := lit 1 10;
  AdaptiveLearningEnabled := true;
  DynamicDifficultyEnabled := true;
  MinDifficulty := 1;
  MaxDifficulty := 10;
  MultiWindowEnabled := true;
  BurstWindow := 10;
  ShortWindow := 60;
  MediumWindow := 300;
  LongWindow := 3600
|}.

Definition pick (c v : Z) : Z := if 0 <? c then c else v.
Definition pickf (c v : f64) : f64 := if gtb c (of_int 0) then c else v.

(** [config.Load], the assignments to package firewall: a positive number
    of the file replaces the initial value, a feature switch of the file
    can only turn the feature on, except for the SYN-flood, persistence and
    learning switches, which are copied (the latter two only inside an
    enabled block). *)
Definition Load (c : ProxyConfig) (v : t) : t := {|
  MaxConcurrentConnPerIP := pick (cl_MaxConcurrentPerIP c) (MaxConcurrentConnPerIP v);
  MaxConnRatePerIP := pick (cl_MaxConnectionRatePerIP c) (MaxConnRatePerIP v);
  MaxHalfOpenPerIP := pick (cl_MaxHalfOpenPerIP c) (MaxHalfOpenPerIP v);
  EnableSynFloodProtection := cl_EnableSynFloodProtection c;
  ReputationEnabled := if rep_Enabled c then true else ReputationEnabled v;
  ReputationMinScore :=
    if rep_Enabled c then pick (rep_MinScore c) (ReputationMinScore v)
    else ReputationMinScore v;
  ReputationPersistToDB :=
    if rep_Enabled c then rep_PersistToDB c else ReputationPersistToDB v;
  ReputationDecayInterval :=
    if rep_Enabled c then pick (rep_DecayInterval c) (ReputationDecayInterval v)
    else ReputationDecayInterval v;
  AdaptiveRateLimitEnabled :=
    if arl_Enabled c then true else AdaptiveRateLimitEnabled v;
  AdaptiveBaseMultiplier :=
    if arl_Enabled c then pickf (arl_BaseMultiplier c) (AdaptiveBaseMultiplier v)
    else AdaptiveBaseMultiplier v;
  AdaptiveAttackMultiplier :=
    if arl_Enabled c then pickf (arl_AttackMultiplier c) (AdaptiveAttackMultiplier v)
    else AdaptiveAttackMultiplier v;
  AdaptiveDecayRate :=
    if arl_Enabled c then pickf (arl_DecayRate c) (AdaptiveDecayRate v)
    else AdaptiveDecayRate v;
  AdaptiveLearningEnabled :=
    if arl_Enabled c then arl_LearningEnabled c else AdaptiveLearningEnabled v;
  DynamicDifficultyEnabled :=
    if ch_DynamicDifficulty c then true else DynamicDifficultyEnabled v;
  MinDifficulty := pick (ch_MinDifficulty c) (MinDifficulty v);
  MaxDifficulty := pick (ch_MaxDifficulty c) (MaxDifficulty v);
  BurstWindow := pick (rw_Burst c) (BurstWindow v);
  ShortWindow := pick (rw_Short c) (ShortWindow v);
  MediumWindow := pick (rw_Medium c) (MediumWindow v);
  LongWindow := pick (rw_Long c) (LongWindow v);
  MultiWindowEnabled := true
|}.

End Vars.

(** ** Reputation store *)

Module Reputation.

Definition ScoreChallengeFailure : Z := -5.
Definition ScoreRateLimitHit : Z := -3.
Definition ScoreFingerprintMismatch : Z := -10.
Definition ScoreSuccessfulAccess : Z := 1.
Definition ScoreClean24hPeriod : Z := 10.

Definition DefaultReputationScore : Z := 50.
Definition MaxReputationScore : Z := 100.
Definition MinReputationScore : Z := 0.

Record ReputationData := {
  IP : string;
  Score : Z;
  LastUpdated : Time;
  LastDecay : Time;
  TotalRequests : Z;
  FailedChallenges : Z;
  RateLimitHits : Z
}.

(** [sync.RWMutex]: free, held by some readers, or held by the writer. *)
Inductive rwmutex := Unlocked | RLocked (readers : positive) | WLocked.

(** The store: the map of records, its mutex and the database bucket
    ([None] while [ReputationDB] is nil). The bucket keeps, per address,
    the record as it was last written. *)
Record Store := {
  ReputationScores : gmap string ReputationData;
  ReputationMutex : rwmutex;
  ReputationDB : option (gmap string ReputationData)
}.

Definition set_mutex (m : rwmutex) (s : Store) : Store :=
  {| ReputationScores := ReputationScores s;
     ReputationMutex := m;
     ReputationDB := ReputationDB s |}.

Definition set_scores (f : gmap string ReputationData) (s : Store) : Store :=
  {| ReputationScores := f;
     ReputationMutex := ReputationMutex s;
     ReputationDB := ReputationDB s |}.

Definition set_db (d : option (gmap string ReputationData)) (s : Store) : Store :=
  {| ReputationScores := ReputationScores s;
     ReputationMutex := ReputationMutex s;
     ReputationDB := d |}.

(** What a call does: it returns a value and leaves a store, or it waits
    for the mutex for ever (no step of the call itself can release it), or
    the runtime aborts (unlocking a mutex that is not locked). *)
Inductive outcome (A : Type) :=
| Returns (a : A) (s : Store)
| Blocks
| Fatal.

Arguments Returns {A} a s.
Arguments Blocks {A}.
Arguments Fatal {A}.

Definition M (A : Type) : Type := Store -> outcome A.

Definition ret {A} (a : A) : M A := fun s => Returns a s.

Definition bind {A B} (m : M A) (k : A -> M B) : M B :=
  fun s => match m s with
           | Returns a s' => k a s'
           | Blocks => Blocks
           | Fatal => Fatal
           end.

Definition gets {A} (f : Store -> A) : M A := fun s => Returns (f s) s.
Definition modify (f : Store -> Store) : M unit := fun s => Returns tt (f s).

Declare Scope go_scope.
Delimit Scope go_scope with go.
Notation "x <- m ;; k" := (bind m (fun x => k))
  (at level 100, m at next level, right associativity) : go_scope.
Notation "m ;; k" := (bind m (fun _ => k))
  (at level 100, right associativity) : go_scope.
Local Open Scope go_scope.

Definition Lock : M unit := fun s =>
  match ReputationMutex s with
  | Unlocked => Returns tt (set_mutex WLocked s)
  | _ => Blocks
  end.

Definition Unlock : M unit := fun s =>
  match ReputationMutex s with
  | WLocked => Returns tt (set_mutex Unlocked s)
  | _ => Fatal
  end.

Definition RLock : M unit := fun s =>
  match ReputationMutex s with
  | Unlocked => Returns tt (set_mutex (RLocked 1) s)
  | RLocked n => Returns tt (set_mutex (RLocked (Pos.succ n)) s)
  | WLocked => Blocks
  end.

Definition RUnlock : M unit := fun s =>
  match ReputationMutex s with
  | RLocked 1 => Returns tt (set_mutex Unlocked s)
  | RLocked n => Returns tt (set_mutex (RLocked (Pos.pred n)) s)
  | _ => Fatal
  end.

(** [SaveReputationToDB]: the record is written under its address when
    persistence is on and the database is open. *)
Definition SaveReputationToDB (v : Vars.t) (ip : string) (data : ReputationData)
  : M unit :=
  fun s =>
    if negb (Vars.ReputationPersistToDB v) then Returns tt s
    else match ReputationDB s with
         | None => Returns tt s
         | Some db => Returns tt (set_db (Some (<[ip := data]> db)) s)
         end.

Definition new_record (now : Time) (ip : string) : ReputationData :=
  {| IP := ip;
     Score := DefaultReputationScore;
     LastUpdated := now;
     LastDecay := now;
     TotalRequests := 0;
     FailedChallenges := 0;
     RateLimitHits := 0 |}.

(** [GetReputation]: the record of [ip], created at the default score when
    absent. *)
Definition GetReputation (v : Vars.t) (now : Time) (ip : string)
  : M ReputationData :=
  RLock ;;
  found <- gets (fun s => ReputationScores s !! ip) ;;
  RUnlock ;;
  match found with
  | Some data => ret data
  | None =>
      Lock ;;
      again <- gets (fun s => ReputationScores s !! ip) ;;
      match again with
      | Some data => Unlock ;; ret data
      | None =>
          let data := new_record now ip in
          modify (fun s => set_scores (<[ip := data]> (ReputationScores s)) s) ;;
          Unlock ;;
          (if Vars.ReputationPersistToDB v
           then SaveReputationToDB v ip data else ret tt) ;;
          ret data
      end
  end.

(** The assignments of [UpdateReputation] to the record it obtained. *)
Definition apply_change (now : Time) (scoreChange : Z) (reason : string)
  (data : ReputationData) : ReputationData :=
  let s0 := GoInt.add (Score data) scoreChange in
  let s1 := if MaxReputationScore <? s0 then MaxReputationScore else s0 in
  let s2 := if s1 <? MinReputationScore then MinReputationScore else s1 in
  {| IP := IP data;
     Score := s2;
     LastUpdated := now;
     LastDecay := LastDecay data;
     TotalRequests := GoInt.add (TotalRequests data) 1;
     FailedChallenges :=
       if String.eqb reason "challenge_failure"
       then GoInt.add (FailedChallenges data) 1 else FailedChallenges data;
     RateLimitHits :=
       if String.eqb reason "rate_limit_hit"
       then GoInt.add (RateLimitHits data) 1 else RateLimitHits data |}.

(** [UpdateReputation]. The write lock is taken first and released by the
    deferred [Unlock] when the function returns; [GetReputation] is called
    while the lock is held. *)
Definition UpdateReputation (v : Vars.t) (now : Time) (ip : string)
  (scoreChange : Z) (reason : string) : M unit :=
  if negb (Vars.ReputationEnabled v) then ret tt
  else
    Lock ;;
    data <- GetReputation v now ip ;;
    let data' := apply_change now scoreChange reason data in
    modify (fun s => set_scores (<[ip := data']> (ReputationScores s)) s) ;;
    (if Vars.ReputationPersistToDB v
     then SaveReputationToDB v ip data' else ret tt) ;;
    Unlock.

(** [GetReputationScore]. *)
Definition GetReputationScore (v : Vars.t) (ip : string) : M Z :=
  if negb (Vars.ReputationEnabled v) then ret DefaultReputationScore
  else
    RLock ;;
    found <- gets (fun s => ReputationScores s !! ip) ;;
    RUnlock ;;
    match found with
    | None => ret DefaultReputationScore
    | Some data => ret (Score data)
    end.

(** [IsIPBlocked]. *)
Definition IsIPBlocked (v : Vars.t) (ip : string) : M bool :=
  if negb (Vars.ReputationEnabled v) then ret false
  else
    score <- GetReputationScore v ip ;;
    ret (score <? Vars.ReputationMinScore v).

(** The interval of the decay routine as a Duration. *)
Definition decay_interval (v : Vars.t) : Duration :=
  GoInt.mul (Vars.ReputationDecayInterval v) Second.

Definition stale (v : Vars.t) (now : Time) (data : ReputationData) : bool :=
  decay_interval v <=? Sub now (LastDecay data).

Definition decayed_score (score : Z) : Z :=
  if score <? DefaultReputationScore then
    let s := GoInt.add score 1 in
    if DefaultReputationScore <? s then DefaultReputationScore else s
  else if DefaultReputationScore <? score then
    let s := GoInt.sub score 1 in
    if s <? DefaultReputationScore then DefaultReputationScore else s
  else score.

(** The body of the loop over the records, for a stale record. *)
Definition decay_record (now : Time) (data : ReputationData) : ReputationData :=
  {| IP := IP data;
     Score := decayed_score (Score data);
     LastUpdated := LastUpdated data;
     LastDecay := now;
     TotalRequests := TotalRequests data;
     FailedChallenges := FailedChallenges data;
     RateLimitHits := RateLimitHits data |}.

Definition decay_entry (v : Vars.t) (now : Time) (data : ReputationData)
  : ReputationData :=
  if stale v now data then decay_record now data else data.

(** One tick of [ReputationDecayRoutine]: every record is visited once,
    under the write lock; the stale ones are changed and saved. *)
Definition ReputationDecayTick (v : Vars.t) (now : Time) : M unit :=
  Lock ;;
  modify (fun s =>
    let scores := ReputationScores s in
    let saved := decay_record now <$>
                   filter (fun kv => stale v now (snd kv) = true) scores in
    {| ReputationScores := decay_entry v now <$> scores;
       ReputationMutex := ReputationMutex s;
       ReputationDB :=
         if Vars.ReputationPersistToDB v
         then (fun db => saved ∪ db) <$> ReputationDB s
         else ReputationDB s |}) ;;
  Unlock.

(** The store before any call: no record, free mutex. *)
Definition empty (db : option (gmap string ReputationData)) : Store :=
  {| ReputationScores := ∅; ReputationMutex := Unlocked; ReputationDB := db |}.

(** The test of [CleanupOldReputation] on one record. *)
Definition old_default (cutoff : Time) (data : ReputationData) : Prop :=
  LastUpdated data < cutoff /\ Score data = DefaultReputationScore.

(** [CleanupOldReputation]. [cutoff] is the value of
    [time.Now().AddDate(0, 0, -daysOld)], a calendar computation in the
    local time zone. Every record that passes the test is deleted from the
    map and from the bucket. *)
Definition CleanupOldReputation (v : Vars.t) (cutoff : Time) : M unit :=
  fun s =>
    if negb (Vars.ReputationPersistToDB v) then Returns tt s
    else match ReputationDB s with
         | None => Returns tt s
         | Some _ =>
             (Lock ;;
              modify (fun s' =>
                let gone :=
                  filter (fun kv => old_default cutoff (snd kv))
                         (ReputationScores s') in
                {| ReputationScores := ReputationScores s' ∖ gone;
                   ReputationMutex := ReputationMutex s';
                   ReputationDB := (fun db => db ∖ gone) <$> ReputationDB s' |}) ;;
              Unlock) s
         end.

(** [byte(x)]: the low eight bits. *)
Definition byte_of (x : Z) : Z := Z.land x 255.

(** [itob]: the eight bytes of [uint64(v)], most significant first
    ([binary.BigEndian.PutUint64]). *)
Definition itob (v : Z) : list Z :=
  let u := v mod 2 ^ 64 in
  [byte_of (Z.shiftr u 56); byte_of (Z.shiftr u 48);
   byte_of (Z.shiftr u 40); byte_of (Z.shiftr u 32);
   byte_of (Z.shiftr u 24); byte_of (Z.shiftr u 16);
   byte_of (Z.shiftr u 8); byte_of u].

(** [btoi]: [int(binary.BigEndian.Uint64(b))]; a slice of fewer than eight
    bytes makes the index expression panic ([None]). *)
Definition btoi (b : list Z) : option Z :=
  match b with
  | b0 :: b1 :: b2 :: b3 :: b4 :: b5 :: b6 :: b7 :: _ =>
      Some (wrap64
              (Z.lor b7 (Z.lor (Z.shiftl b6 8) (Z.lor (Z.shiftl b5 16)
               (Z.lor (Z.shiftl b4 24) (Z.lor (Z.shiftl b3 32)
               (Z.lor (Z.shiftl b2 40) (Z.lor (Z.shiftl b1 48)
                                              (Z.shiftl b0 56)))))))))
  | _ => None
  end.

End Reputation.

(** ** Connection limiter *)

Module ConnLimit.

Definition ConnectionRateWindow : Duration := 1 * Second.
Definition ConnectionCleanupInterval : Duration := 30 * Second.

Record ConnectionLimiter := {
  ActiveConnections : gmap string Z;
  ConnectionRate : gmap string (list Time);
  HalfOpenConnections : gmap string Z;
  LastCleanup : Time
}.

(** [m[ip]] for a map of counters, and for the map of timestamp slices. *)
Definition count_of (m : gmap string Z) (ip : string) : Z := default 0 (m !! ip).
Definition stamps_of (m : gmap string (list Time)) (ip : string) : list Time :=
  default [] (m !! ip).

(** The loop that keeps the timestamps inside the window, in order. *)
Definition in_window (now : Time) (ts : Time) : bool :=
  Sub now ts <? ConnectionRateWindow.

Definition prune (now : Time) (l : list Time) : list Time :=
  List.filter (in_window now) l.

Definition set_rate (r : gmap string (list Time)) (cl : ConnectionLimiter)
  : ConnectionLimiter :=
  {| ActiveConnections := ActiveConnections cl;
     ConnectionRate := r;
     HalfOpenConnections := HalfOpenConnections cl;
     LastCleanup := LastCleanup cl |}.

Definition set_active (a : gmap string Z) (cl : ConnectionLimiter)
  : ConnectionLimiter :=
  {| ActiveConnections := a;
     ConnectionRate := ConnectionRate cl;
     HalfOpenConnections := HalfOpenConnections cl;
     LastCleanup := LastCleanup cl |}.

Definition set_half_open (h : gmap string Z) (cl : ConnectionLimiter)
  : ConnectionLimiter :=
  {| ActiveConnections := ActiveConnections cl;
     ConnectionRate := ConnectionRate cl;
     HalfOpenConnections := h;
     LastCleanup := LastCleanup cl |}.

(** [CheckConnectionLimit]: the answer and the limiter it leaves. *)
Definition CheckConnectionLimit (v : Vars.t) (now : Time) (ip : string)
  (cl : ConnectionLimiter) : bool * ConnectionLimiter :=
  if Vars.MaxConcurrentConnPerIP v <=? count_of (ActiveConnections cl) ip
  then (false, cl)
  else
    let validTimestamps := prune now (stamps_of (ConnectionRate cl) ip) in
    let cl' := set_rate (<[ip := validTimestamps]> (ConnectionRate cl)) cl in
    if Vars.MaxConnRatePerIP v <=? Z.of_nat (length validTimestamps)
    then (false, cl')
    else if Vars.EnableSynFloodProtection v
              && (Vars.MaxHalfOpenPerIP v <=? count_of (HalfOpenConnections cl') ip)
    then (false, cl')
    else (true, cl').

(** [IncrementConnection]. *)
Definition IncrementConnection (now : Time) (ip : string)
  (cl : ConnectionLimiter) : ConnectionLimiter :=
  let cl1 :=
    set_active (<[ip := GoInt.add (count_of (ActiveConnections cl) ip) 1]>
                  (ActiveConnections cl)) cl in
  set_rate (<[ip := stamps_of (ConnectionRate cl1) ip ++ [now]]>
              (ConnectionRate cl1)) cl1.

(** [DecrementConnection]. *)
Definition DecrementConnection (ip : string) (cl : ConnectionLimiter)
  : ConnectionLimiter :=
  let a1 :=
    if 0 <? count_of (ActiveConnections cl) ip
    then <[ip := GoInt.sub (count_of (ActiveConnections cl) ip) 1]>
           (ActiveConnections cl)
    else ActiveConnections cl in
  let a2 := if count_of a1 ip =? 0 then delete ip a1 else a1 in
  set_active a2 cl.

(** [IncrementHalfOpen]. *)
Definition IncrementHalfOpen (v : Vars.t) (ip : string)
  (cl : ConnectionLimiter) : ConnectionLimiter :=
  if negb (Vars.EnableSynFloodProtection v) then cl
  else set_half_open
         (<[ip := GoInt.add (count_of (HalfOpenConnections cl) ip) 1]>
            (HalfOpenConnections cl)) cl.

(** [DecrementHalfOpen]. *)
Definition DecrementHalfOpen (v : Vars.t) (ip : string)
  (cl : ConnectionLimiter) : ConnectionLimiter :=
  if negb (Vars.EnableSynFloodProtection v) then cl
  else
    let h1 :=
      if 0 <? count_of (HalfOpenConnections cl) ip
      then <[ip := GoInt.sub (count_of (HalfOpenConnections cl) ip) 1]>
             (HalfOpenConnections cl)
      else HalfOpenConnections cl in
    let h2 := if count_of h1 ip =? 0 then delete ip h1 else h1 in
    set_half_open h2 cl.

(** [GetConnectionCount]. *)
Definition GetConnectionCount (ip : string) (cl : ConnectionLimiter) : Z :=
  count_of (ActiveConnections cl) ip.

(** [CleanupOldEntries]: every slice is pruned; an address whose slice
    empties is dropped. *)
Definition CleanupOldEntries (now : Time) (cl : ConnectionLimiter)
  : ConnectionLimiter :=
  set_rate
    (omap (fun l => match prune now l with [] => None | l' => Some l' end)
          (ConnectionRate cl)) cl.

(** [ConnectionTracker] as declared. *)
Definition ConnectionTracker (start : Time) : ConnectionLimiter :=
  {| ActiveConnections := ∅;
     ConnectionRate := ∅;
     HalfOpenConnections := ∅;
     LastCleanup := start |}.

(** A call on the tracker, with the clock reading where one is taken. *)
Inductive call :=
| CheckCall (now : Time) (ip : string)
| Increment (now : Time) (ip : string)
| Decrement (ip : string)
| IncHalfOpen (ip : string)
| DecHalfOpen (ip : string)
| Cleanup (now : Time).

Definition step (v : Vars.t) (cl : ConnectionLimiter) (c : call)
  : ConnectionLimiter :=
  match c with
  | CheckCall now ip => snd (CheckConnectionLimit v now ip cl)
  | Increment now ip => IncrementConnection now ip cl
  | Decrement ip => DecrementConnection ip cl
  | IncHalfOpen ip => IncrementHalfOpen v ip cl
  | DecHalfOpen ip => DecrementHalfOpen v ip cl
  | Cleanup now => CleanupOldEntries now cl
  end.

(** The calls are serialised by the tracker's mutex: a run is a list. *)
Definition run (v : Vars.t) (cl : ConnectionLimiter) (cs : list call)
  : ConnectionLimiter :=
  fold_left (step v) cs cl.

(** The clock reading of a call (the ones that take none lie between their
    neighbours and do not constrain the run). *)
Definition call_time (c : call) : option Time :=
  match c with
  | CheckCall now _ | Increment now _ | Cleanup now => Some now
  | _ => None
  end.

End ConnLimit.

(** ** Multi-window counters *)

Module MultiWindow.

Record Windows := {
  BurstWindowIps : gmap Z (gmap string Z);
  ShortWindowIps : gmap Z (gmap string Z);
  MediumWindowIps : gmap Z (gmap string Z);
  LongWindowIps : gmap Z (gmap string Z)
}.

Definition empty : Windows :=
  {| BurstWindowIps := ∅; ShortWindowIps := ∅;
     MediumWindowIps := ∅; LongWindowIps := ∅ |}.

(** [int(now.Unix()) / W * W]. *)
Definition bucket (now : Time) (w : Z) : Z :=
  GoInt.mul (GoInt.quo (Unix now) w) w.

(** [if m[ts] == nil { m[ts] = make(...) }; m[ts][ip]++]. *)
Definition bump (ts : Z) (ip : string) (m : gmap Z (gmap string Z))
  : gmap Z (gmap string Z) :=
  let inner := default ∅ (m !! ts) in
  <[ts := <[ip := GoInt.add (default 0 (inner !! ip)) 1]> inner]> m.

(** [RecordRequest]. *)
Definition RecordRequest (v : Vars.t) (now : Time) (ip : string)
  (w : Windows) : Windows :=
  if negb (Vars.MultiWindowEnabled v) then w
  else
    {| BurstWindowIps := bump (bucket now (Vars.BurstWindow v)) ip (BurstWindowIps w);
       ShortWindowIps := bump (bucket now (Vars.ShortWindow v)) ip (ShortWindowIps w);
       MediumWindowIps := bump (bucket now (Vars.MediumWindow v)) ip (MediumWindowIps w);
       LongWindowIps := bump (bucket now (Vars.LongWindow v)) ip (LongWindowIps w) |}.

(** [windowMap[ts][ip]], zero when the bucket or the address is absent. *)
Definition read (ts : Z) (ip : string) (m : gmap Z (gmap string Z)) : Z :=
  match m !! ts with
  | None => 0
  | Some inner => default 0 (inner !! ip)
  end.

(** The window named by a string: its size and its map. *)
Definition select (v : Vars.t) (window : string) (w : Windows)
  : option (Z * gmap Z (gmap string Z)) :=
  if String.eqb window "burst" then Some (Vars.BurstWindow v, BurstWindowIps w)
  else if String.eqb window "short" then Some (Vars.ShortWindow v, ShortWindowIps w)
  else if String.eqb window "medium" then Some (Vars.MediumWindow v, MediumWindowIps w)
  else if String.eqb window "long" then Some (Vars.LongWindow v, LongWindowIps w)
  else None.

(** [GetRequestCount]. *)
Definition GetRequestCount (v : Vars.t) (now : Time) (ip : string)
  (window : string) (w : Windows) : Z :=
  if negb (Vars.MultiWindowEnabled v) then 0
  else match select v window w with
       | None => 0
       | Some (size, windowMap) => read (bucket now size) ip windowMap
       end.

(** [CheckBurstLimit] and its three siblings. *)
Definition CheckLimit (window : string) (v : Vars.t) (now : Time) (ip : string)
  (limit : Z) (w : Windows) : bool :=
  if negb (Vars.MultiWindowEnabled v) then false
  else limit <=? GetRequestCount v now ip window w.

Definition CheckBurstLimit := CheckLimit "burst".
Definition CheckShortTermLimit := CheckLimit "short".
Definition CheckMediumTermLimit := CheckLimit "medium".
Definition CheckLongTermLimit := CheckLimit "long".

(** The buckets of one map that survive a cleanup. *)
Definition sweep (now : Time) (size : Z) (m : gmap Z (gmap string Z))
  : gmap Z (gmap string Z) :=
  let cutoff := GoInt.sub (bucket now size) (GoInt.mul size 2) in
  filter (fun kv => ¬ (fst kv < cutoff)) m.

(** [CleanupOldWindows]. *)
Definition CleanupOldWindows (v : Vars.t) (now : Time) (w : Windows) : Windows :=
  {| BurstWindowIps := sweep now (Vars.BurstWindow v) (BurstWindowIps w);
     ShortWindowIps := sweep now (Vars.ShortWindow v) (ShortWindowIps w);
     MediumWindowIps := sweep now (Vars.MediumWindow v) (MediumWindowIps w);
     LongWindowIps := sweep now (Vars.LongWindow v) (LongWindowIps w) |}.

(** A call on the counters with its clock reading. *)
Inductive call :=
| RecordCall (now : Time) (ip : string)
| CleanupCall (now : Time).

Definition call_time (c : call) : Time :=
  match c with RecordCall now _ | CleanupCall now => now end.

Definition step (v : Vars.t) (w : Windows) (c : call) : Windows :=
  match c with
  | RecordCall now ip => RecordRequest v now ip w
  | CleanupCall now => CleanupOldWindows v now w
  end.

Definition run (v : Vars.t) (cs : list call) : Windows :=
  fold_left (step v) cs empty.

End MultiWindow.

(** ** Adaptive rate limits and whitelist learning *)

Module Adaptive.

Record WhitelistEntry := {
  IP : string;
  AddedAt : Time;
  RequestCount : Z;
  SuccessRate : f64;
  LastSeen : Time
}.

(** [GetAdaptiveMultiplier]. *)
Definition GetAdaptiveMultiplier (v : Vars.t) (domainName : string)
  (ms : gmap string f64) : f64 :=
  if negb (Vars.AdaptiveRateLimitEnabled v) then Vars.AdaptiveBaseMultiplier v
  else match ms !! domainName with
       | None => Vars.AdaptiveBaseMultiplier v
       | Some multiplier => multiplier
       end.

(** [UpdateAdaptiveMultiplier]. *)
Definition UpdateAdaptiveMultiplier (v : Vars.t) (domainName : string)
  (isUnderAttack bypassAttack : bool) (ms : gmap string f64) : gmap string f64 :=
  if negb (Vars.AdaptiveRateLimitEnabled v) then ms
  else
    let currentMultiplier :=
      match ms !! domainName with
      | None => Vars.AdaptiveBaseMultiplier v
      | Some m => m
      end in
    if isUnderAttack then
      if bypassAttack then
        let newMultiplier := mul currentMultiplier (Vars.AdaptiveAttackMultiplier v) in
        let newMultiplier :=
          if ltb newMultiplier (Vars.AdaptiveAttackMultiplier v)
          then Vars.AdaptiveAttackMultiplier v else newMultiplier in
        <[domainName := newMultiplier]> ms
      else
        let newMultiplier := mul currentMultiplier (lit 7 10) in
        let newMultiplier :=
          if ltb newMultiplier (mul (Vars.AdaptiveAttackMultiplier v) (lit 15 10))
          then mul (Vars.AdaptiveAttackMultiplier v) (lit 15 10)
          else newMultiplier in
        <[domainName := newMultiplier]> ms
    else
      if ltb currentMultiplier (Vars.AdaptiveBaseMultiplier v) then
        let decayAmount :=
          mul (sub (Vars.AdaptiveBaseMultiplier v) currentMultiplier)
              (Vars.AdaptiveDecayRate v) in
        let newMultiplier := add currentMultiplier decayAmount in
        let newMultiplier :=
          if gtb newMultiplier (Vars.AdaptiveBaseMultiplier v)
          then Vars.AdaptiveBaseMultiplier v else newMultiplier in
        <[domainName := newMultiplier]> ms
      else ms.

(** [GetAdaptiveRateLimit]. *)
Definition GetAdaptiveRateLimit (v : Vars.t) (baseLimit : Z)
  (domainName : string) (ms : gmap string f64) : Z :=
  if negb (Vars.AdaptiveRateLimitEnabled v) then baseLimit
  else
    let multiplier := GetAdaptiveMultiplier v domainName ms in
    let adaptiveLimit := mul (of_int baseLimit) multiplier in
    let adaptiveLimit :=
      if ltb adaptiveLimit (mul (of_int baseLimit) (Vars.AdaptiveAttackMultiplier v))
      then mul (of_int baseLimit) (Vars.AdaptiveAttackMultiplier v)
      else adaptiveLimit in
    to_int adaptiveLimit.

(** [CheckWhitelist]. *)
Definition CheckWhitelist (v : Vars.t) (now : Time) (ip : string)
  (wl : gmap string WhitelistEntry) : bool :=
  if negb (Vars.AdaptiveLearningEnabled v) then false
  else match wl !! ip with
       | None => false
       | Some entry =>
           if 24 * Hour <? Since now (LastSeen entry) then false else true
       end.

(** The entry after the counters of one outcome are applied to it. *)
Definition observe (now : Time) (success : bool) (entry : WhitelistEntry)
  : WhitelistEntry :=
  let n := GoInt.add (RequestCount entry) 1 in
  let scaled :=
    mul (div (of_int (GoInt.sub n 1)) (of_int n)) (SuccessRate entry) in
  {| IP := IP entry;
     AddedAt := AddedAt entry;
     RequestCount := n;
     SuccessRate :=
       if success then add scaled (div (of_int 1) (of_int n)) else scaled;
     LastSeen := now |}.

(** [UpdateWhitelistLearning]. The entry is a pointer held by the map, so
    the counters change in the map at once; the three branches then store
    the same pointer again, or delete the key, or do nothing. *)
Definition UpdateWhitelistLearning (v : Vars.t) (now : Time) (ip : string)
  (success : bool) (wl : gmap string WhitelistEntry)
  : gmap string WhitelistEntry :=
  if negb (Vars.AdaptiveLearningEnabled v) then wl
  else
    let entry0 :=
      match wl !! ip with
      | Some e => e
      | None => {| IP := ip; AddedAt := now; RequestCount := 0;
                   SuccessRate := of_int 0; LastSeen := now |}
      end in
    let entry := observe now success entry0 in
    let wl' := <[ip := entry]> wl in
    if (100 <=? RequestCount entry) && geb (SuccessRate entry) (lit 95 100)
    then <[ip := entry]> wl'
    else if RequestCount entry <? 10 then <[ip := entry]> wl'
    else if ltb (SuccessRate entry) (lit 5 10) then delete ip wl'
    else wl'.

(** [CleanupWhitelist]. *)
Definition CleanupWhitelist (now : Time) (wl : gmap string WhitelistEntry)
  : gmap string WhitelistEntry :=
  filter (fun kv => ¬ (7 * 24 * Hour < Sub now (LastSeen (snd kv)))) wl.

(** The body of the routine's loop over the domains, for one domain. *)
Definition tick_domain (v : Vars.t) (domainName : string) (d : DomainData)
  (ms : gmap string f64) : gmap string f64 :=
  UpdateAdaptiveMultiplier v domainName
    (RawAttack d || BypassAttack d) (BypassAttack d) ms.

(** One tick of [StartAdaptiveRateLimitRoutine]: the multipliers after the
    loop over the domains and the whitelist after its cleanup. *)
Definition tick (v : Vars.t) (now : Time) (doms : gmap string DomainData)
  (st : gmap string f64 * gmap string WhitelistEntry)
  : gmap string f64 * gmap string WhitelistEntry :=
  (map_fold (tick_domain v) (fst st) doms, CleanupWhitelist now (snd st)).

(** A call on the whitelist with its clock reading. *)
Inductive call :=
| Learn (now : Time) (ip : string) (success : bool)
| CleanupCall (now : Time).

Definition step (v : Vars.t) (wl : gmap string WhitelistEntry) (c : call)
  : gmap string WhitelistEntry :=
  match c with
  | Learn now ip success => UpdateWhitelistLearning v now ip success wl
  | CleanupCall now => CleanupWhitelist now wl
  end.

End Adaptive.

(** ** Challenge difficulty *)

Module Challenge.

Import Reputation.
Local Open Scope go_scope.

Definition BaseDifficulty : Z := 5.

(** [CalculateDynamicDifficulty]. *)
Definition CalculateDynamicDifficulty (v : Vars.t)
  (doms : gmap string DomainData) (ip domainName : string)
  (baseDifficulty : Z) : M Z :=
  if negb (Vars.DynamicDifficultyEnabled v) then ret baseDifficulty
  else
    reputationScore <- GetReputationScore v ip ;;
    match doms !! domainName with
    | None => ret baseDifficulty
    | Some domainData =>
        let reputationAdjustment :=
          if reputationScore <? 30 then 3
          else if reputationScore <? 50 then 2
          else if reputationScore <? 70 then 1
          else if 90 <=? reputationScore then -1
          else 0 in
        let attackAdjustment :=
          if BypassAttack domainData then 2
          else if RawAttack domainData then 1
          else 0 in
        let stageAdjustment :=
          if Stage domainData =? 3 then 1
          else if Stage domainData =? 2 then 0
          else -1 in
        let finalDifficulty :=
          GoInt.add (GoInt.add (GoInt.add baseDifficulty reputationAdjustment)
                               attackAdjustment) stageAdjustment in
        let finalDifficulty :=
          if finalDifficulty <? Vars.MinDifficulty v
          then Vars.MinDifficulty v else finalDifficulty in
        let finalDifficulty :=
          if Vars.MaxDifficulty v <? finalDifficulty
          then Vars.MaxDifficulty v else finalDifficulty in
        ret finalDifficulty
    end.

(** [GetEffectiveDifficulty]. *)
Definition GetEffectiveDifficulty (v : Vars.t)
  (doms : gmap string DomainData) (ip domainName : string) : M Z :=
  match doms !! domainName with
  | None => ret BaseDifficulty
  | Some domainData =>
      let baseDiff := Stage2Difficulty domainData in
      let baseDiff := if baseDiff =? 0 then BaseDifficulty else baseDiff in
      CalculateDynamicDifficulty v doms ip domainName baseDiff
  end.

End Challenge.

(** ** Geo/ASN filter *)

Module Geo.

Record GeoData := {
  ASN : Z;
  City : string;
  Continent : string;
  ContinentCode : string;
  Country : string;
  CountryCode : string;
  IP : string;
  Latitude : f64;
  Longitude : f64;
  OrgCountry : string;
  OrgCountryCode : string;
  OrgName : string;
  Postal : string;
  Region : string;
  Status : string;
  Timezone : string;
  CachedAt : Time
}.

(** The package-level variables of the filter. *)
Record Settings := {
  GeoFilteringEnabled : bool;
  GeoFilterMode : string;
  AllowedCountries : list string;
  BlockedCountries : list string;
  BlockedASN : list Z;
  ChallengeUnknown : bool;
  GeoCacheTTL : Duration
}.

(** Their initialisers. *)
Definition initial : Settings := {|
  GeoFilteringEnabled := false;
  GeoFilterMode := "blacklist";
  AllowedCountries := [];
  BlockedCountries := [];
  BlockedASN := [];
  ChallengeUnknown := false;
  GeoCacheTTL := 24 * Hour
|}.

(** What the request to the lookup service brought back: [http.Get] failed,
    or it answered with a status code and a body that could not be read, or
    could not be decoded, or decoded to a record. *)
Inductive body :=
| ReadFailed
| Unparsable
| Document (d : GeoData).

Inductive response :=
| GetFailed
| Answer (statusCode : Z) (b : body).

(** The errors of [GetGeoData], by the statement that makes them. *)
Inductive error :=
| FetchError
| StatusError (statusCode : Z)
| ReadError
| ParseError
| ApiError.

Definition set_cached_at (t : Time) (d : GeoData) : GeoData :=
  {| ASN := ASN d; City := City d; Continent := Continent d;
     ContinentCode := ContinentCode d; Country := Country d;
     CountryCode := CountryCode d; IP := IP d; Latitude := Latitude d;
     Longitude := Longitude d; OrgCountry := OrgCountry d;
     OrgCountryCode := OrgCountryCode d; OrgName := OrgName d;
     Postal := Postal d; Region := Region d; Status := Status d;
     Timezone := Timezone d; CachedAt := t |}.

(** [GetGeoData]: the pair it returns and the cache it leaves. [now] is the
    clock reading of the cache test, [fetched] the one taken after the
    answer of the service has been decoded. *)
Definition GetGeoData (g : Settings) (now fetched : Time) (ip : string)
  (resp : response) (cache : gmap string GeoData)
  : (option GeoData * option error) * gmap string GeoData :=
  if negb (GeoFilteringEnabled g) then ((None, None), cache)
  else
    let hit :=
      match cache !! ip with
      | Some cached =>
          if Since now (CachedAt cached) <? GeoCacheTTL g then Some cached else None
      | None => None
      end in
    match hit with
    | Some cached => ((Some cached, None), cache)
    | None =>
        match resp with
        | GetFailed => ((None, Some FetchError), cache)
        | Answer statusCode b =>
            if negb (statusCode =? 200)
            then ((None, Some (StatusError statusCode)), cache)
            else match b with
                 | ReadFailed => ((None, Some ReadError), cache)
                 | Unparsable => ((None, Some ParseError), cache)
                 | Document d =>
                     if negb (String.eqb (Status d) "ok")
                     then ((None, Some ApiError), cache)
                     else
                       let geoData := set_cached_at fetched d in
                       ((Some geoData, None), <[ip := geoData]> cache)
                 end
        end
    end.

Section Filter.

(** [strings.EqualFold]: equality under Unicode simple case folding. *)
Variable EqualFold : string -> string -> bool.

(** The loop over [BlockedASN]: the first element equal to the ASN of the
    record. Reading a field of a nil record panics ([None]). *)
Fixpoint asn_loop (geoData : option GeoData) (l : list Z) : option (option Z) :=
  match l with
  | [] => Some None
  | blockedASN :: rest =>
      match geoData with
      | None => None
      | Some d =>
          if ASN d =? blockedASN then Some (Some blockedASN)
          else asn_loop geoData rest
      end
  end.

(** The loops over the country lists: whether some element folds to the
    country code of the record. *)
Fixpoint country_loop (geoData : option GeoData) (l : list string)
  : option bool :=
  match l with
  | [] => Some false
  | country :: rest =>
      match geoData with
      | None => None
      | Some d =>
          if EqualFold (CountryCode d) country then Some true
          else country_loop geoData rest
      end
  end.

(** [fmt.Sprintf("Country %s (%s) " + what, Country, CountryCode)]. *)
Definition country_reason (geoData : option GeoData) (what : string)
  : option string :=
  match geoData with
  | None => None
  | Some d =>
      Some ("Country " +:+ Country d +:+ " (" +:+ CountryCode d +:+ ") " +:+ what)
  end.

(** [CheckGeoFilter]: the decision with its reason ([None] when the call
    panics) and the cache it leaves. *)
Definition CheckGeoFilter (g : Settings) (now fetched : Time) (ip : string)
  (resp : response) (cache : gmap string GeoData)
  : option (bool * string) * gmap string GeoData :=
  if negb (GeoFilteringEnabled g) then (Some (false, ""), cache)
  else
    let '((geoData, err), cache') := GetGeoData g now fetched ip resp cache in
    match err with
    | Some _ =>
        if ChallengeUnknown g then (Some (true, "challenge"), cache')
        else (Some (false, ""), cache')
    | None =>
        let decision :=
          match asn_loop geoData (BlockedASN g) with
          | None => None
          | Some (Some blockedASN) =>
              Some (true, "ASN " +:+ pretty blockedASN +:+ " is blocked")
          | Some None =>
              if String.eqb (GeoFilterMode g) "whitelist" then
                match country_loop geoData (AllowedCountries g) with
                | None => None
                | Some true => Some (false, "")
                | Some false =>
                    match country_reason geoData "is not whitelisted" with
                    | None => None
                    | Some reason => Some (true, reason)
                    end
                end
              else
                match country_loop geoData (BlockedCountries g) with
                | None => None
                | Some true =>
                    match country_reason geoData "is blocked" with
                    | None => None
                    | Some reason => Some (true, reason)
                    end
                | Some false => Some (false, "")
                end
          end in
        (decision, cache')
    end.

End Filter.

(** [CleanupGeoCache]. *)
Definition CleanupGeoCache (g : Settings) (now : Time)
  (cache : gmap string GeoData) : gmap string GeoData :=
  filter (fun kv => ¬ (GoInt.mul (GeoCacheTTL g) 2 < Sub now (CachedAt (snd kv))))
         cache.

End Geo.

(** ** Per-address metrics *)

Module Metrics.

Record IPMetrics := {
  IP : string;
  TotalRequests : Z;
  BypassedRequests : Z;
  BlockedRequests : Z;
  ChallengeFailures : Z;
  RateLimitHits : Z;
  ReputationScore : Z;
  LastSeen : Time;
  RequestsPerSecond : f64;
  AverageResponseTime : f64
}.

(** [&IPMetrics{IP: ip, LastSeen: time.Now()}]. *)
Definition new_metrics (now : Time) (ip : string) : IPMetrics :=
  {| IP := ip; TotalRequests := 0; BypassedRequests := 0;
     BlockedRequests := 0; ChallengeFailures := 0; RateLimitHits := 0;
     ReputationScore := 0; LastSeen := now;
     RequestsPerSecond := S754_zero false;
     AverageResponseTime := S754_zero false |}.

(** The record of [ip], created when absent (the first lines of the four
    recording functions). *)
Definition metrics_of (now : Time) (ip : string) (m : gmap string IPMetrics)
  : IPMetrics :=
  match m !! ip with
  | Some metrics => metrics
  | None => new_metrics now ip
  end.

(** [RecordIPRequest]. [enabled] is [MetricsEnabled]. *)
Definition RecordIPRequest (enabled : bool) (now : Time) (ip : string)
  (bypassed blocked : bool) (m : gmap string IPMetrics)
  : gmap string IPMetrics :=
  if negb enabled then m
  else
    let metrics := metrics_of now ip m in
    <[ip := {| IP := IP metrics;
               TotalRequests := GoInt.add (TotalRequests metrics) 1;
               BypassedRequests :=
                 if bypassed then GoInt.add (BypassedRequests metrics) 1
                 else BypassedRequests metrics;
               BlockedRequests :=
                 if blocked then GoInt.add (BlockedRequests metrics) 1
                 else BlockedRequests metrics;
               ChallengeFailures := ChallengeFailures metrics;
               RateLimitHits := RateLimitHits metrics;
               ReputationScore := ReputationScore metrics;
               LastSeen := now;
               RequestsPerSecond := RequestsPerSecond metrics;
               AverageResponseTime := AverageResponseTime metrics |}]> m.

(** [RecordIPChallengeFailure]. *)
Definition RecordIPChallengeFailure (enabled : bool) (now : Time) (ip : string)
  (m : gmap string IPMetrics) : gmap string IPMetrics :=
  if negb enabled then m
  else
    let metrics := metrics_of now ip m in
    <[ip := {| IP := IP metrics;
               TotalRequests := TotalRequests metrics;
               BypassedRequests := BypassedRequests metrics;
               BlockedRequests := BlockedRequests metrics;
               ChallengeFailures := GoInt.add (ChallengeFailures metrics) 1;
               RateLimitHits := RateLimitHits metrics;
               ReputationScore := ReputationScore metrics;
               LastSeen := LastSeen metrics;
               RequestsPerSecond := RequestsPerSecond metrics;
               AverageResponseTime := AverageResponseTime metrics |}]> m.

(** [RecordIPRateLimitHit]. *)
Definition RecordIPRateLimitHit (enabled : bool) (now : Time) (ip : string)
  (m : gmap string IPMetrics) : gmap string IPMetrics :=
  if negb enabled then m
  else
    let metrics := metrics_of now ip m in
    <[ip := {| IP := IP metrics;
               TotalRequests := TotalRequests metrics;
               BypassedRequests := BypassedRequests metrics;
               BlockedRequests := BlockedRequests metrics;
               ChallengeFailures := ChallengeFailures metrics;
               RateLimitHits := GoInt.add (RateLimitHits metrics) 1;
               ReputationScore := ReputationScore metrics;
               LastSeen := LastSeen metrics;
               RequestsPerSecond := RequestsPerSecond metrics;
               AverageResponseTime := AverageResponseTime metrics |}]> m.

(** [UpdateIPReputationScore]. *)
Definition UpdateIPReputationScore (enabled : bool) (now : Time) (ip : string)
  (score : Z) (m : gmap string IPMetrics) : gmap string IPMetrics :=
  if negb enabled then m
  else
    let metrics := metrics_of now ip m in
    <[ip := {| IP := IP metrics;
               TotalRequests := TotalRequests metrics;
               BypassedRequests := BypassedRequests metrics;
               BlockedRequests := BlockedRequests metrics;
               ChallengeFailures := ChallengeFailures metrics;
               RateLimitHits := RateLimitHits metrics;
               ReputationScore := score;
               LastSeen := LastSeen metrics;
               RequestsPerSecond := RequestsPerSecond metrics;
               AverageResponseTime := AverageResponseTime metrics |}]> m.

(** [GetTopAttackingIPs]. [visit] lists the entries of [PerIPMetrics] in the
    order in which the [range] statement visits them, which the language
    leaves open. A negative [n] makes the slice expression [ips[:n]] panic
    ([None]). *)
Definition GetTopAttackingIPs (enabled : bool)
  (visit : list (string * IPMetrics)) (n : Z) : option (list string) :=
  if negb enabled then Some []
  else
    let ips :=
      fst <$> filter (fun kv => 0 < BlockedRequests (snd kv)) visit in
    if n <? Z.of_nat (length ips)
    then (if n <? 0 then None else Some (take (Z.to_nat n) ips))
    else Some ips.

(** [CleanupOldIPMetrics]. *)
Definition CleanupOldIPMetrics (enabled : bool) (now : Time)
  (m : gmap string IPMetrics) : gmap string IPMetrics :=
  if negb enabled then m
  else
    let cutoff := now + GoInt.mul (-24) Hour in
    filter (fun kv => ¬ (LastSeen (snd kv) < cutoff)) m.

(** A call of one of the recording functions or of the cleanup, with its
    clock reading. *)
Inductive call :=
| Request (now : Time) (ip : string) (bypassed blocked : bool)
| ChallengeFailure (now : Time) (ip : string)
| RateLimitHit (now : Time) (ip : string)
| ReputationScoreUpdate (now : Time) (ip : string) (score : Z)
| CleanupCall (now : Time).

Definition step (enabled : bool) (m : gmap string IPMetrics) (c : call)
  : gmap string IPMetrics :=
  match c with
  | Request now ip bypassed blocked => RecordIPRequest enabled now ip bypassed blocked m
  | ChallengeFailure now ip => RecordIPChallengeFailure enabled now ip m
  | RateLimitHit now ip => RecordIPRateLimitHit enabled now ip m
  | ReputationScoreUpdate now ip score => UpdateIPReputationScore enabled now ip score m
  | CleanupCall now => CleanupOldIPMetrics enabled now m
  end.

End Metrics.
(** * Specification notions *)

(** The score that [GetReputationScore] reads from a store. *)
Definition score_of (v : Vars.t) (s : Reputation.Store) (ip : string) : Z :=
  if Vars.ReputationEnabled v
  then match Reputation.ReputationScores s !! ip with
       | None => Reputation.DefaultReputationScore
       | Some data => Reputation.Score data
       end
  else Reputation.DefaultReputationScore.

(** The telemetry of the cold-IP scenario: stage 1, no attack, the given
    configured difficulty. *)
Definition calm_domain (stage2 : Z) : DomainData :=
  {| Stage := 1; RawAttack := false; BypassAttack := false;
     Stage2Difficulty := stage2 |}.

(** A configuration file that only sets [Challenge.MaxDifficulty]. *)
Definition config_max_difficulty (n : Z) : ProxyConfig :=
  {| cl_MaxConcurrentPerIP := 0;
     cl_MaxConnectionRatePerIP := 0;
     cl_MaxHalfOpenPerIP := 0;
     cl_EnableSynFloodProtection := true;
     rep_Enabled := false;
     rep_MinScore := 0;
     rep_PersistToDB := false;
     rep_DecayInterval := 0;
     arl_Enabled := false;
     arl_BaseMultiplier := S754_zero false;
     arl_AttackMultiplier := S754_zero false;
     arl_DecayRate := S754_zero false;
     arl_LearningEnabled := false;
     ch_DynamicDifficulty := true;
     ch_MinDifficulty := 0;
     ch_MaxDifficulty := n;
     rw_Burst := 0;
     rw_Short := 0;
     rw_Medium := 0;
     rw_Long := 0 |}.

(** A record with a given score and decay time, for examples. *)
Definition sample_record (ip : string) (score : Z) (last_decay : Time)
  : Reputation.ReputationData :=
  {| Reputation.IP := ip;
     Reputation.Score := score;
     Reputation.LastUpdated := last_decay;
     Reputation.LastDecay := last_decay;
     Reputation.TotalRequests := 0;
     Reputation.FailedChallenges := 0;
     Reputation.RateLimitHits := 0 |}.

Definition sample_store (ip : string) (score : Z) (last_decay : Time)
  : Reputation.Store :=
  {| Reputation.ReputationScores := {[ip := sample_record ip score last_decay]};
     Reputation.ReputationMutex := Reputation.Unlocked;
     Reputation.ReputationDB := None |}.

(** An [IncrementConnection] of [ip] whose timestamp is still inside the
    rate window at [now]. *)
Definition recent_increment (now : Time) (ip : string) (c : ConnLimit.call)
  : bool :=
  match c with
  | ConnLimit.Increment t ip' => String.eqb ip' ip && ConnLimit.in_window now t
  | _ => false
  end.

Definition recent_increments (now : Time) (ip : string)
  (cs : list ConnLimit.call) : nat :=
  length (List.filter (recent_increment now ip) cs).

(** A call that took its clock reading no later than [now]. *)
Definition not_after (now : Time) (c : ConnLimit.call) : Prop :=
  match ConnLimit.call_time c with
  | Some t => t <= now
  | None => True
  end.

(** The storm of the specification: [n] connections of one address, each
    checked and then counted, [gap] nanoseconds apart from [t0] on. *)
Fixpoint storm (ip : string) (t0 gap : Time) (n : nat) : list ConnLimit.call :=
  match n with
  | O => []
  | S k => ConnLimit.CheckCall t0 ip :: ConnLimit.Increment t0 ip
           :: storm ip (t0 + gap) gap k
  end.

(** The left end of the bucket of width [size] seconds that contains the
    instant: floor(seconds / size) * size. *)
Definition bucket_start (now : Time) (size : Z) : Z := Unix now / size * size.

(** The size of a recognised window kind. *)
Definition window_size (v : Vars.t) (window : string) : option Z :=
  fst <$> MultiWindow.select v window MultiWindow.empty.

(** A [RecordRequest] of [ip] made during the bucket that contains [now]. *)
Definition in_current_bucket (now : Time) (size : Z) (ip : string)
  (c : MultiWindow.call) : bool :=
  match c with
  | MultiWindow.RecordCall t ip' =>
      String.eqb ip' ip && (bucket_start t size =? bucket_start now size)
  | _ => false
  end.

Definition records_in_bucket (now : Time) (size : Z) (ip : string)
  (cs : list MultiWindow.call) : nat :=
  length (List.filter (in_current_bucket now size ip) cs).

(** A call made between the epoch and [now]. *)
Definition made_by (now : Time) (c : MultiWindow.call) : Prop :=
  0 <= MultiWindow.call_time c <= now.

(** The calls as one window's map sees them. *)
Definition step1 (size : Z) (m : gmap Z (gmap string Z)) (c : MultiWindow.call)
  : gmap Z (gmap string Z) :=
  match c with
  | MultiWindow.RecordCall t ip => MultiWindow.bump (MultiWindow.bucket t size) ip m
  | MultiWindow.CleanupCall t => MultiWindow.sweep t size m
  end.

(** The larger of two binary64 numbers, NaN if either is NaN (math.Max). *)
Definition fmax (a b : f64) : f64 :=
  match SFcompare a b with
  | Some Lt => b
  | Some _ => a
  | None => S754_nan
  end.

(** The smaller of two binary64 numbers, NaN if either is NaN (math.Min). *)
Definition fmin (a b : f64) : f64 :=
  match SFcompare a b with
  | Some Gt => b
  | Some _ => a
  | None => S754_nan
  end.

(** The effective limit in the words of the specification:
    max(base * m, base * attack_multiplier), a binary64 number. *)
Definition AdaptiveLimit_spec (v : Vars.t) (base : Z) (m : f64) : f64 :=
  fmax (mul (of_int base) m) (mul (of_int base) (Vars.AdaptiveAttackMultiplier v)).

(** A number that is neither zero, nor infinite, nor NaN. *)
Definition is_finite_nonzero (x : f64) : bool :=
  match x with S754_finite _ _ _ => true | _ => false end.

(** An entry that the demotion rule is meant to remove. *)
Definition demotable (e : Adaptive.WhitelistEntry) : Prop :=
  10 <= Adaptive.RequestCount e
  /\ ltb (Adaptive.SuccessRate e) (lit 5 10) = true.

Definition no_demotable (wl : gmap string Adaptive.WhitelistEntry) : Prop :=
  forall ip e, wl !! ip = Some e -> ~ demotable e.

(** [n] outcomes of one kind for one address, one second apart. *)
Fixpoint outcomes (ip : string) (success : bool) (t0 : Time) (n : nat)
  : list Adaptive.call :=
  match n with
  | O => []
  | S k => Adaptive.Learn t0 ip success :: outcomes ip success (t0 + Second) k
  end.

(** Outcomes of a comparison that mean "not above", and the outcome of
    the comparison across two such steps. *)
Definition le_c (c : comparison) : bool :=
  match c with Gt => false | _ => true end.

Definition comp_c (c1 c2 : comparison) : comparison :=
  match c1, c2 with Eq, Eq => Eq | _, _ => Lt end.

(** ** Rounding to binary64, for the proofs *)

(** The float built from a rounded mantissa and its exponent: a carry out
    of the mantissa moves to the next exponent, an exponent beyond the
    format overflows. *)
Definition rounded (s : bool) (m e : Z) : spec_float :=
  match m with
  | Z0 => S754_zero s
  | Zpos p =>
      if m =? 2 ^ 53
      then (if e + 1 <=? 971 then S754_finite s (2 ^ 52)%positive (e + 1)
            else S754_infinity s)
      else if e <=? 971 then S754_finite s p e else S754_infinity s
  | Zneg _ => S754_nan
  end.

(** The value [m * 2^e] in units of 2^-2148. *)
Definition sv (m e : Z) : Z := m * 2 ^ (e + 2148).

(** [(m', e1)] is a rounding of the value [X] (in units of 2^-2148) to the
    format: the exponent is the one of the format, the mantissa lies
    between the neighbours of the quotient. *)
Record rounding (X m' e1 : Z) : Prop := {
  rnd_emin : -1074 <= e1;
  rnd_range : 0 <= m' <= 2 ^ 53;
  rnd_normal : -1074 < e1 -> 2 ^ 52 <= m' /\ sv (2 ^ 52) e1 <= X;
  rnd_up : forall M, X <= sv M e1 -> m' <= M;
  rnd_down : forall M, sv M e1 <= X -> M <= m'
}.

(** A mantissa and exponent in the canonical form of the format. *)
Definition canon (m e : Z) : Prop :=
  -1074 <= e /\ 0 < m < 2 ^ 53 /\ (-1074 < e -> 2 ^ 52 <= m).

(** The number 1. *)
Definition one : f64 := of_int 1.

(** A positive number of the format: finite, non-zero, of positive sign,
    with mantissa and exponent in canonical form. *)
Definition posnum (x : f64) : bool :=
  match x with
  | S754_finite false m e => bounded prec emax m e
  | _ => false
  end.

(** Multipliers for which the band [attack, base] is meaningful: positive
    numbers with attack <= 1 and attack * 1.5 <= base. *)
Definition sane (v : Vars.t) : Prop :=
  posnum (Vars.AdaptiveAttackMultiplier v) = true
  /\ posnum (Vars.AdaptiveBaseMultiplier v) = true
  /\ posnum (Vars.AdaptiveDecayRate v) = true
  /\ leb (Vars.AdaptiveAttackMultiplier v) one = true
  /\ leb (mul (Vars.AdaptiveAttackMultiplier v) (lit 15 10))
         (Vars.AdaptiveBaseMultiplier v) = true.

(** A multiplier inside the band. *)
Definition in_band (v : Vars.t) (m : f64) : Prop :=
  posnum m = true
  /\ leb (Vars.AdaptiveAttackMultiplier v) m = true
  /\ leb m (Vars.AdaptiveBaseMultiplier v) = true.

Definition all_in_band (v : Vars.t) (ms : gmap string f64) : Prop :=
  forall name, in_band v (Adaptive.GetAdaptiveMultiplier v name ms).

(** The multipliers after a sequence of ticks of the routine, each with the
    telemetry of the domains at that tick, from the empty map. *)
Definition run_ticks (v : Vars.t) (ds : list (gmap string DomainData))
  : gmap string f64 :=
  fold_left (fun ms doms => map_fold (Adaptive.tick_domain v) ms doms) ds ∅.

(** A configuration file that turns adaptive limits on and sets only the
    attack multiplier. *)
Definition config_attack_multiplier (a : f64) : ProxyConfig :=
  {| cl_MaxConcurrentPerIP := 0;
     cl_MaxConnectionRatePerIP := 0;
     cl_MaxHalfOpenPerIP := 0;
     cl_EnableSynFloodProtection := true;
     rep_Enabled := false;
     rep_MinScore := 0;
     rep_PersistToDB := false;
     rep_DecayInterval := 0;
     arl_Enabled := true;
     arl_BaseMultiplier := S754_zero false;
     arl_AttackMultiplier := a;
     arl_DecayRate := S754_zero false;
     arl_LearningEnabled := true;
     ch_DynamicDifficulty := true;
     ch_MinDifficulty := 0;
     ch_MaxDifficulty := 0;
     rw_Burst := 0;
     rw_Short := 0;
     rw_Medium := 0;
     rw_Long := 0 |}.

(** The multiplier after one tick, in the words of the specification, with
    the base multiplier where the specification writes 1.0 and with the
    case the code leaves alone. *)
Definition next_multiplier (v : Vars.t) (d : DomainData) (m : f64) : f64 :=
  if BypassAttack d then
    fmax (mul m (Vars.AdaptiveAttackMultiplier v)) (Vars.AdaptiveAttackMultiplier v)
  else if RawAttack d then
    fmax (mul m (lit 7 10)) (mul (Vars.AdaptiveAttackMultiplier v) (lit 15 10))
  else if ltb m (Vars.AdaptiveBaseMultiplier v) then
    fmin (add m (mul (sub (Vars.AdaptiveBaseMultiplier v) m)
                     (Vars.AdaptiveDecayRate v)))
         (Vars.AdaptiveBaseMultiplier v)
  else m.

(** ** Notions for the further properties *)

(** The score [n] decay steps after [score]: one point per step toward the
    default score 50, never past it. *)
Definition toward_default (score n : Z) : Z :=
  if score <? 50 then Z.min 50 (score + n) else Z.max 50 (score - n).

(** Ticks of the decay routine at the instants [ts], in order. *)
Fixpoint decay_ticks (v : Vars.t) (ts : list Time) : Reputation.M unit :=
  match ts with
  | [] => Reputation.ret tt
  | t :: rest =>
      Reputation.bind (Reputation.ReputationDecayTick v t)
                      (fun _ => decay_ticks v rest)
  end.

(** Instants that are each at least [d] after the one before, the first at
    least [d] after [t0]. *)
Fixpoint spaced (d : Duration) (t0 : Time) (ts : list Time) : Prop :=
  match ts with
  | [] => True
  | t :: rest => d <= Sub t t0 /\ spaced d t rest
  end.

(** A byte. *)
Definition is_byte (b : Z) : Prop := 0 <= b < 256.

(** Every counter of a table lies between 1 and [n]. *)
Definition counts_within (n : Z) (m : gmap string Z) : Prop :=
  forall ip c, m !! ip = Some c -> 0 < c <= n.

(** The table of counters after the two statements of a decrement. *)
Definition decremented (ip : string) (m : gmap string Z) : gmap string Z :=
  let a1 := if 0 <? ConnLimit.count_of m ip
            then <[ip := GoInt.sub (ConnLimit.count_of m ip) 1]> m else m in
  if ConnLimit.count_of a1 ip =? 0 then delete ip a1 else a1.

(** The entry of an address after [k] observed requests that all failed:
    none when [k] is 0, else count [k] and success rate 0. *)
Definition failing (ip : string) (k : Z)
  (wl : gmap string Adaptive.WhitelistEntry) : Prop :=
  match wl !! ip with
  | None => k = 0
  | Some e =>
      0 < k /\ Adaptive.RequestCount e = k
      /\ Adaptive.SuccessRate e = S754_zero false
  end.

(** Failed requests of one address at the given instants. *)
Definition failures (ip : string) (ts : list Time) : list Adaptive.call :=
  map (fun t => Adaptive.Learn t ip false) ts.

(** The three adjustments of the difficulty and the final clamp, as
    functions of what they read. *)
Definition reputation_adjustment (score : Z) : Z :=
  if score <? 30 then 3
  else if score <? 50 then 2
  else if score <? 70 then 1
  else if 90 <=? score then -1
  else 0.

Definition attack_adjustment (d : DomainData) : Z :=
  if BypassAttack d then 2 else if RawAttack d then 1 else 0.

Definition stage_adjustment (d : DomainData) : Z :=
  if Stage d =? 3 then 1 else if Stage d =? 2 then 0 else -1.

Definition clamp (lo hi x : Z) : Z :=
  let y := if x <? lo then lo else x in
  if hi <? y then hi else y.

(** Every numeric setting is positive. *)
Definition positive_settings (v : Vars.t) : Prop :=
  0 < Vars.ReputationMinScore v /\ 0 < Vars.ReputationDecayInterval v
  /\ 0 < Vars.MaxConcurrentConnPerIP v /\ 0 < Vars.MaxConnRatePerIP v
  /\ 0 < Vars.MaxHalfOpenPerIP v
  /\ gtb (Vars.AdaptiveBaseMultiplier v) (of_int 0) = true
  /\ gtb (Vars.AdaptiveAttackMultiplier v) (of_int 0) = true
  /\ gtb (Vars.AdaptiveDecayRate v) (of_int 0) = true
  /\ 0 < Vars.MinDifficulty v /\ 0 < Vars.MaxDifficulty v
  /\ 0 < Vars.BurstWindow v /\ 0 < Vars.ShortWindow v
  /\ 0 < Vars.MediumWindow v /\ 0 < Vars.LongWindow v.

(** Whether the filter blocks a record that the lookup returned: its ASN
    is listed, or its country code is not on the whitelist (whitelist
    mode), or is on the blacklist (any other mode). *)
Definition geo_blocked (EqualFold : string -> string -> bool)
  (g : Geo.Settings) (d : Geo.GeoData) : bool :=
  existsb (Z.eqb (Geo.ASN d)) (Geo.BlockedASN g)
  || (if String.eqb (Geo.GeoFilterMode g) "whitelist"
      then negb (existsb (EqualFold (Geo.CountryCode d)) (Geo.AllowedCountries g))
      else existsb (EqualFold (Geo.CountryCode d)) (Geo.BlockedCountries g)).

(** The answers of the lookup service that [GetGeoData] reports as an
    error. *)
Definition lookup_fails (resp : Geo.response) : Prop :=
  match resp with
  | Geo.GetFailed => True
  | Geo.Answer statusCode b =>
      statusCode <> 200
      \/ match b with
         | Geo.Document d => Geo.Status d <> "ok"
         | _ => True
         end
  end.

(** The cache holds no record of the address that it would serve at
    [now]. *)
Definition cache_miss (g : Geo.Settings) (now : Time) (ip : string)
  (cache : gmap string Geo.GeoData) : Prop :=
  forall c, cache !! ip = Some c ->
            Geo.GeoCacheTTL g <= Since now (Geo.CachedAt c).

(** Equality of strings up to the case of the letters A to Z: what
    [strings.EqualFold] computes on ASCII strings. Used in examples. *)
Definition ascii_lower (a : Ascii.ascii) : Ascii.ascii :=
  let n := Ascii.nat_of_ascii a in
  if (Nat.leb 65 n && Nat.leb n 90)%bool then Ascii.ascii_of_nat (n + 32) else a.

Fixpoint ascii_EqualFold (s t : string) : bool :=
  match s, t with
  | EmptyString, EmptyString => true
  | String a s', String b t' =>
      Ascii.eqb (ascii_lower a) (ascii_lower b) && ascii_EqualFold s' t'
  | _, _ => false
  end.

(** A record of the lookup service, for examples. *)
Definition sample_geo (asn : Z) (country code status : string) : Geo.GeoData :=
  {| Geo.ASN := asn; Geo.City := ""; Geo.Continent := "";
     Geo.ContinentCode := ""; Geo.Country := country;
     Geo.CountryCode := code; Geo.IP := ""; Geo.Latitude := S754_zero false;
     Geo.Longitude := S754_zero false; Geo.OrgCountry := "";
     Geo.OrgCountryCode := ""; Geo.OrgName := ""; Geo.Postal := "";
     Geo.Region := ""; Geo.Status := status; Geo.Timezone := "";
     Geo.CachedAt := 0 |}.

(** The settings with the filter on in the given mode and lists. *)
Definition geo_settings (mode : string) (allowed blocked : list string)
  (asns : list Z) (challenge : bool) : Geo.Settings :=
  {| Geo.GeoFilteringEnabled := true;
     Geo.GeoFilterMode := mode;
     Geo.AllowedCountries := allowed;
     Geo.BlockedCountries := blocked;
     Geo.BlockedASN := asns;
     Geo.ChallengeUnknown := challenge;
     Geo.GeoCacheTTL := 24 * Hour |}.

(** The counters of one address after at most [n] calls: the record
    carries its key, the bypassed and the blocked requests are among the
    requests, and nothing exceeds the number of calls. *)
Definition sound_metrics (n : Z) (ip : string) (x : Metrics.IPMetrics) : Prop :=
  Metrics.IP x = ip
  /\ 0 <= Metrics.BypassedRequests x <= Metrics.TotalRequests x
  /\ 0 <= Metrics.BlockedRequests x <= Metrics.TotalRequests x
  /\ Metrics.TotalRequests x <= n
  /\ 0 <= Metrics.ChallengeFailures x <= n
  /\ 0 <= Metrics.RateLimitHits x <= n.

(** The entries with at least one blocked request. *)
Definition attackers (m : gmap string Metrics.IPMetrics)
  : list (string * Metrics.IPMetrics) :=
  filter (fun kv => 0 < Metrics.BlockedRequests (snd kv)) (map_to_list m).

(** A call that is neither a request of [ip] nor a cleanup. *)
Definition no_request_of (ip : string) (c : Metrics.call) : Prop :=
  match c with
  | Metrics.Request _ ip' _ _ => ip' <> ip
  | Metrics.CleanupCall _ => False
  | _ => True
  end.

(** A store with one record, a free mutex and an open, empty database. *)
Definition sample_store_db (ip : string) (score : Z) (last_decay : Time)
  : Reputation.Store :=
  {| Reputation.ReputationScores := {[ip := sample_record ip score last_decay]};
     Reputation.ReputationMutex := Reputation.Unlocked;
     Reputation.ReputationDB := Some ∅ |}.

(** Two records in the bucket that starts at 1000 s, a cleanup, one record
    in the bucket that starts at 1010 s. *)
Definition sample_calls : list MultiWindow.call :=
  [MultiWindow.RecordCall (1000 * Second) "198.51.100.7";
   MultiWindow.RecordCall (1005 * Second) "198.51.100.7";
   MultiWindow.CleanupCall (1007 * Second);
   MultiWindow.RecordCall (1011 * Second) "198.51.100.7"].

(** A domain under a bypass attack, for examples. *)
Definition attacked_domain : DomainData :=
  {| Stage := 3; RawAttack := true; BypassAttack := true;
     Stage2Difficulty := 5 |}.

(** The metrics of an address with two requests, one bypassed and one
    blocked, last seen at instant 1. *)
Definition sample_metrics (ip : string) : Metrics.IPMetrics :=
  {| Metrics.IP := ip; Metrics.TotalRequests := 2;
     Metrics.BypassedRequests := 1; Metrics.BlockedRequests := 1;
     Metrics.ChallengeFailures := 0; Metrics.RateLimitHits := 0;
     Metrics.ReputationScore := 0; Metrics.LastSeen := 1;
     Metrics.RequestsPerSecond := S754_zero false;
     Metrics.AverageResponseTime := S754_zero false |}.

(** * Part II: properties *)

(** ** Integers and time *)

Section IntFacts.

Lemma wrap64_range z : in_range (wrap64 z).
Proof.
  unfold in_range, wrap64, min_int, max_int.
  pose proof (Z.mod_pos_bound (z + 2 ^ 63) (2 ^ 64) ltac:(lia)). lia.
Qed.

Lemma wrap64_id z : in_range z -> wrap64 z = z.
Proof.
  unfold in_range, wrap64, min_int, max_int. intros H.
  rewrite Z.mod_small by lia. lia.
Qed.

Lemma Sub_exact t u : in_range (t - u) -> Sub t u = t - u.
Proof. unfold Sub, in_range. lia. Qed.

Lemma Sub_mono t t' u : t <= t' -> Sub t u <= Sub t' u.
Proof. unfold Sub. lia. Qed.

Lemma Sub_self t : Sub t t = 0.
Proof. unfold Sub, min_int, max_int. lia. Qed.

End IntFacts.

(** ** The loader keeps the feature switches on *)

Lemma Load_switches c :
  let v := Vars.Load c Vars.initial in
  Vars.ReputationEnabled v = true /\
  Vars.AdaptiveRateLimitEnabled v = true /\
  Vars.DynamicDifficultyEnabled v = true /\
  Vars.MultiWindowEnabled v = true.
Proof. cbn. repeat split; (destruct c; cbn; repeat case_match; reflexivity). Qed.

Lemma Load_windows_positive c :
  let v := Vars.Load c Vars.initial in
  0 < Vars.BurstWindow v /\ 0 < Vars.ShortWindow v /\
  0 < Vars.MediumWindow v /\ 0 < Vars.LongWindow v.
Proof.
  cbn. unfold Vars.pick.
  repeat split; case_match; try lia; apply Z.ltb_lt; assumption.
Qed.

(** ** Reputation store *)

Section ReputationFacts.

Import Reputation.
Local Open Scope go_scope.

Lemma set_mutex_same s : set_mutex (ReputationMutex s) s = s.
Proof. destruct s; reflexivity. Qed.

(** Unless a writer holds the mutex, the score is read and the store is
    left as it was. *)
Lemma GetReputationScore_returns v ip s :
  ReputationMutex s <> WLocked ->
  GetReputationScore v ip s = Returns (score_of v s ip) s.
Proof.
  intros Hm. unfold GetReputationScore, score_of.
  destruct (Vars.ReputationEnabled v); cbn; [|reflexivity].
  destruct s as [sc mu db]. cbn in Hm.
  unfold bind, RLock, RUnlock, gets, ret; cbn.
  destruct mu as [|n|]; cbn; [| |congruence].
  - destruct (sc !! ip); reflexivity.
  - destruct (Pos.succ n) eqn:E; cbn;
      try (rewrite <- E, Pos.pred_succ; destruct (sc !! ip); reflexivity).
    destruct n; discriminate.
Qed.

End ReputationFacts.

(** ** Challenge difficulty *)

Section ChallengeFacts.

Import Reputation Challenge.

Ltac range_cases :=
  repeat match goal with
         | |- context [if ?b then _ else _] =>
             lazymatch b with
             | context [if _ then _ else _] => fail
             | _ => destruct b eqn:?
             end
         end;
  repeat match goal with
         | H : (_ <? _) = true |- _ => apply Z.ltb_lt in H
         | H : (_ <? _) = false |- _ => apply Z.ltb_ge in H
         | H : (_ <=? _) = true |- _ => apply Z.leb_le in H
         | H : (_ <=? _) = false |- _ => apply Z.leb_gt in H
         | H : (_ =? _) = true |- _ => apply Z.eqb_eq in H
         | H : (_ =? _) = false |- _ => apply Z.eqb_neq in H
         end.

(** The value computed for a known domain is clamped. *)
Lemma CalculateDynamicDifficulty_known v doms ip name base d s :
  Vars.DynamicDifficultyEnabled v = true ->
  ReputationMutex s <> WLocked ->
  doms !! name = Some d ->
  Vars.MinDifficulty v <= Vars.MaxDifficulty v ->
  exists r, CalculateDynamicDifficulty v doms ip name base s = Returns r s /\
            Vars.MinDifficulty v <= r <= Vars.MaxDifficulty v.
Proof.
  intros Hen Hmu Hd Hmm. unfold CalculateDynamicDifficulty.
  rewrite Hen; cbn. unfold bind. rewrite GetReputationScore_returns by assumption.
  rewrite Hd. unfold ret. eexists; split; [reflexivity|].
  range_cases; lia.
Qed.

(** C1 (as amended). A cold IP on a calm stage-1 domain with base
    difficulty 5 (configured for the domain, or the global base when the
    domain configures none) is given difficulty 5: the reputation
    adjustment at score 50 is +1 and the stage adjustment is -1. The same
    holds for [CalculateDynamicDifficulty] called with base 5. *)
Theorem C1_cold_ip_difficulty_is_5 v doms ip name stage2 s :
  Vars.DynamicDifficultyEnabled v = true ->
  Vars.MinDifficulty v <= 5 <= Vars.MaxDifficulty v ->
  ReputationMutex s <> WLocked ->
  ReputationScores s !! ip = None ->
  doms !! name = Some (calm_domain stage2) ->
  stage2 = 5 \/ stage2 = 0 ->
  GetEffectiveDifficulty v doms ip name s = Returns 5 s /\
  CalculateDynamicDifficulty v doms ip name 5 s = Returns 5 s.
Proof.
  intros Hen Hmm Hmu Hip Hd Hs2.
  assert (Hc : CalculateDynamicDifficulty v doms ip name 5 s = Returns 5 s).
  { unfold CalculateDynamicDifficulty. rewrite Hen; cbn. unfold bind.
    rewrite GetReputationScore_returns by assumption.
    unfold score_of. rewrite Hip, Hd.
    replace (if Vars.ReputationEnabled v
             then DefaultReputationScore else DefaultReputationScore)
      with 50 by (destruct (Vars.ReputationEnabled v); reflexivity).
    cbn. unfold ret. f_equal.
    change (GoInt.add (GoInt.add (GoInt.add 5 1) 0) (-1)) with 5.
    range_cases; lia. }
  split; [|exact Hc].
  unfold GetEffectiveDifficulty. rewrite Hd. cbn.
  destruct Hs2 as [-> | ->]; cbn; exact Hc.
Qed.

Lemma C1_cold_ip_difficulty_is_5_witness :
  GetEffectiveDifficulty Vars.initial {["example.com" := calm_domain 5]}
    "1.2.3.4" "example.com" (Reputation.empty None)
  = Returns 5 (Reputation.empty None) /\
  CalculateDynamicDifficulty Vars.initial {["example.com" := calm_domain 5]}
    "1.2.3.4" "example.com" 5 (Reputation.empty None)
  = Returns 5 (Reputation.empty None).
Proof.
  apply (C1_cold_ip_difficulty_is_5 Vars.initial
           {["example.com" := calm_domain 5]} "1.2.3.4" "example.com" 5
           (Reputation.empty None)).
  - reflexivity.
  - cbn. lia.
  - discriminate.
  - reflexivity.
  - reflexivity.
  - left. reflexivity.
Defined.

(** C1 as stated fails: the scenario of the specification yields 5, not 4. *)
Lemma C1_counterexample :
  ~ exists s',
      GetEffectiveDifficulty Vars.initial {["example.com" := calm_domain 5]}
        "1.2.3.4" "example.com" (Reputation.empty None)
      = Returns 4 s'.
Proof. intros [s' H]. vm_compute in H. discriminate H. Qed.

(** C4 (as amended). With dynamic difficulty on and
    MinDifficulty <= MaxDifficulty, the difficulty of a known domain lies
    in [MinDifficulty, MaxDifficulty] whatever the address, its score, the
    attack flags, the stage and the configured base difficulty; for an
    unknown domain the global base difficulty 5 is returned as it is. *)
Theorem C4_difficulty_clamped_for_known_domains v doms ip name s :
  Vars.DynamicDifficultyEnabled v = true ->
  Vars.MinDifficulty v <= Vars.MaxDifficulty v ->
  ReputationMutex s <> WLocked ->
  exists r, GetEffectiveDifficulty v doms ip name s = Returns r s /\
            match doms !! name with
            | Some _ => Vars.MinDifficulty v <= r <= Vars.MaxDifficulty v
            | None => r = BaseDifficulty
            end.
Proof.
  intros Hen Hmm Hmu. unfold GetEffectiveDifficulty.
  destruct (doms !! name) as [d|] eqn:Hd.
  - eapply CalculateDynamicDifficulty_known; eassumption.
  - eexists; split; reflexivity.
Qed.

Lemma C4_difficulty_clamped_for_known_domains_witness :
  exists r,
    GetEffectiveDifficulty Vars.initial
      {["example.com" := {| Stage := 3; RawAttack := false;
                            BypassAttack := true; Stage2Difficulty := 9 |}]}
      "1.2.3.4" "example.com" (Reputation.empty None)
    = Returns r (Reputation.empty None) /\
    match ({["example.com" := {| Stage := 3; RawAttack := false;
                                 BypassAttack := true; Stage2Difficulty := 9 |}]}
             : gmap string DomainData) !! "example.com" with
    | Some _ => Vars.MinDifficulty Vars.initial <= r
                <= Vars.MaxDifficulty Vars.initial
    | None => r = BaseDifficulty
    end.
Proof.
  apply (C4_difficulty_clamped_for_known_domains Vars.initial).
  - reflexivity.
  - cbn. lia.
  - discriminate.
Defined.

(** C4 as stated fails: a configuration file with MaxDifficulty 3 and a
    domain the table does not know. *)
Lemma C4_counterexample :
  let v := Vars.Load (config_max_difficulty 3) Vars.initial in
  exists r,
    GetEffectiveDifficulty v ∅ "1.2.3.4" "unknown.example" (Reputation.empty None)
    = Returns r (Reputation.empty None) /\
    ~ (Vars.MinDifficulty v <= r <= Vars.MaxDifficulty v).
Proof. exists 5. split; [reflexivity|]. cbn. lia. Qed.

(** The scenario "under attack, bad reputation" of the specification:
    score 25, bypass attack, stage 3, base 5 gives 5+3+2+1 = 11, clamped
    to 10. *)
Example under_attack_bad_reputation :
  GetEffectiveDifficulty Vars.initial
    {["example.com" := {| Stage := 3; RawAttack := false;
                          BypassAttack := true; Stage2Difficulty := 5 |}]}
    "203.0.113.9" "example.com" (sample_store "203.0.113.9" 25 0)
  = Returns 10 (sample_store "203.0.113.9" 25 0).
Proof. vm_compute. reflexivity. Qed.

End ChallengeFacts.

(** ** Reputation updates and decay *)

Section ReputationUpdates.

Import Reputation.
Local Open Scope go_scope.

(** The arithmetic of an update keeps the score between 0 and 100. *)
Lemma apply_change_score_range now delta reason data :
  MinReputationScore <= Score (apply_change now delta reason data)
  <= MaxReputationScore.
Proof.
  unfold apply_change, MinReputationScore, MaxReputationScore; cbn.
  repeat match goal with
         | |- context [?a <? ?b] => destruct (Z.ltb_spec a b)
         end; lia.
Qed.

Lemma apply_change_fresh_plus_100 now reason ip t :
  Score (apply_change now 100 reason (new_record t ip)) = 100.
Proof. reflexivity. Qed.

Lemma apply_change_fresh_minus_100 now reason ip t :
  Score (apply_change now (-100) reason (new_record t ip)) = 0.
Proof. reflexivity. Qed.

(** [GetReputation] cannot start while the writer holds the mutex. *)
Lemma GetReputation_blocks v now ip s :
  ReputationMutex s = WLocked -> GetReputation v now ip s = Blocks.
Proof.
  intros H. unfold GetReputation, bind, RLock. rewrite H. reflexivity.
Qed.

(** C5 (the code at every input). With reputation enabled,
    [UpdateReputation] never returns: it takes the write lock and then
    calls [GetReputation], which waits for a read lock on the same mutex.
    No score is stored; in particular the score of a fresh address does
    not become 100 after +100, nor 0 after -100. *)
Theorem C5_UpdateReputation_blocks v now ip delta reason s :
  Vars.ReputationEnabled v = true ->
  UpdateReputation v now ip delta reason s = Blocks.
Proof.
  intros Hen. unfold UpdateReputation. rewrite Hen; cbn.
  unfold bind at 1. unfold Lock.
  destruct (ReputationMutex s) eqn:Hmu; [|reflexivity|reflexivity].
  unfold bind at 1.
  rewrite (GetReputation_blocks v now ip (set_mutex WLocked s)); reflexivity.
Qed.

Lemma C5_UpdateReputation_blocks_witness :
  UpdateReputation Vars.initial 0 "198.51.100.7" 100 "successful_access"
    (Reputation.empty None) = Blocks.
Proof.
  apply (C5_UpdateReputation_blocks Vars.initial). reflexivity.
Defined.

Lemma decayed_score_spec score :
  in_range score ->
  (score < 50 -> decayed_score score = score + 1) /\
  (50 < score -> decayed_score score = score - 1) /\
  (score = 50 -> decayed_score score = 50).
Proof.
  intros Hr. unfold decayed_score, DefaultReputationScore, GoInt.add, GoInt.sub.
  unfold in_range, min_int, max_int in Hr.
  repeat split; intros H.
  - destruct (Z.ltb_spec score 50); [|lia].
    rewrite wrap64_id by (unfold in_range, min_int, max_int; lia).
    destruct (Z.ltb_spec 50 (score + 1)); lia.
  - destruct (Z.ltb_spec score 50); [lia|].
    destruct (Z.ltb_spec 50 score); [|lia].
    rewrite wrap64_id by (unfold in_range, min_int, max_int; lia).
    destruct (Z.ltb_spec (score - 1) 50); lia.
  - subst. reflexivity.
Qed.

(** C9. From a free mutex a decay tick returns. A record whose last decay
    is at least one interval old has its score moved by exactly one toward
    50 (unchanged at 50) and its decay time set to the tick; a record whose
    last decay is more recent is left as it is. *)
Theorem C9_decay_tick v now s :
  ReputationMutex s = Unlocked ->
  exists s',
    ReputationDecayTick v now s = Returns tt s' /\
    ReputationMutex s' = Unlocked /\
    forall ip data,
      ReputationScores s !! ip = Some data ->
      in_range (Score data) ->
      exists data',
        ReputationScores s' !! ip = Some data' /\
        (decay_interval v <= Sub now (LastDecay data) ->
         LastDecay data' = now /\
         (Score data < 50 -> Score data' = Score data + 1) /\
         (50 < Score data -> Score data' = Score data - 1) /\
         (Score data = 50 -> Score data' = 50)) /\
        (Sub now (LastDecay data) < decay_interval v -> data' = data).
Proof.
  intros Hmu. unfold ReputationDecayTick, bind, Lock, Unlock, modify.
  rewrite Hmu; cbn. eexists; split; [reflexivity|]. cbn. split; [reflexivity|].
  intros ip data Hip Hr. exists (decay_entry v now data).
  rewrite lookup_fmap, Hip. split; [reflexivity|].
  unfold decay_entry, stale. split; intros H.
  - destruct (Z.leb_spec (decay_interval v) (Sub now (LastDecay data))); [|lia].
    cbn. split; [reflexivity|]. apply decayed_score_spec; assumption.
  - destruct (Z.leb_spec (decay_interval v) (Sub now (LastDecay data))); [lia|].
    reflexivity.
Qed.

Lemma C9_decay_tick_witness :
  exists s',
    ReputationDecayTick Vars.initial (3600 * Second)
      (sample_store "203.0.113.9" 20 0) = Returns tt s' /\
    ReputationMutex s' = Unlocked /\
    forall ip data,
      ReputationScores (sample_store "203.0.113.9" 20 0) !! ip = Some data ->
      in_range (Score data) ->
      exists data',
        ReputationScores s' !! ip = Some data' /\
        (decay_interval Vars.initial <= Sub (3600 * Second) (LastDecay data) ->
         LastDecay data' = 3600 * Second /\
         (Score data < 50 -> Score data' = Score data + 1) /\
         (50 < Score data -> Score data' = Score data - 1) /\
         (Score data = 50 -> Score data' = 50)) /\
        (Sub (3600 * Second) (LastDecay data) < decay_interval Vars.initial ->
         data' = data).
Proof.
  apply (C9_decay_tick Vars.initial (3600 * Second)
           (sample_store "203.0.113.9" 20 0)).
  reflexivity.
Defined.

(** The scenario of the specification: score 20, last decay one hour ago. *)
Example decay_20_to_21 :
  exists s',
    ReputationDecayTick Vars.initial (3600 * Second)
      (sample_store "203.0.113.9" 20 0) = Returns tt s' /\
    (Score <$> ReputationScores s' !! "203.0.113.9") = Some 21.
Proof. eexists; split; reflexivity. Qed.

End ReputationUpdates.

(** ** Connection limiter *)

Section ConnLimitFacts.

Import ConnLimit.

Lemma stamps_of_insert r ip ip' l :
  stamps_of (<[ip' := l]> r) ip = if decide (ip' = ip) then l else stamps_of r ip.
Proof.
  unfold stamps_of. rewrite lookup_insert. destruct (decide (ip' = ip)); reflexivity.
Qed.

Lemma in_window_earlier now t ts :
  t <= now -> in_window now ts = true -> in_window t ts = true.
Proof.
  unfold in_window. intros Hle H. apply Z.ltb_lt in H. apply Z.ltb_lt.
  pose proof (Sub_mono t now ts Hle). lia.
Qed.

(** Pruning at an earlier instant loses nothing that is inside the window
    at a later one. *)
Lemma prune_prune now t l : t <= now -> prune now (prune t l) = prune now l.
Proof.
  intros Hle. unfold prune. induction l as [|x l IH]; [reflexivity|].
  cbn. destruct (in_window t x) eqn:Ht; cbn; rewrite IH; [reflexivity|].
  destruct (in_window now x) eqn:Hn; [|reflexivity].
  rewrite (in_window_earlier now t x Hle Hn) in Ht. discriminate.
Qed.

Lemma prune_app now l l' : prune now (l ++ l') = prune now l ++ prune now l'.
Proof. unfold prune. apply List.filter_app. Qed.

(** The timestamps of an address after a cleanup. *)
Lemma stamps_of_cleanup t cl ip :
  stamps_of (ConnectionRate (CleanupOldEntries t cl)) ip
  = prune t (stamps_of (ConnectionRate cl) ip).
Proof.
  unfold CleanupOldEntries, stamps_of; cbn. rewrite lookup_omap.
  destruct (ConnectionRate cl !! ip) as [l|]; [|reflexivity].
  change (default [] (match prune t l with [] => None | l' => Some l' end)
          = prune t l).
  destruct (prune t l); reflexivity.
Qed.

(** The timestamps of an address after a check of any address. *)
Lemma stamps_of_check v t ip' cl ip :
  stamps_of (ConnectionRate (snd (CheckConnectionLimit v t ip' cl))) ip
  = stamps_of (ConnectionRate cl) ip
  \/ (ip' = ip /\
      stamps_of (ConnectionRate (snd (CheckConnectionLimit v t ip' cl))) ip
      = prune t (stamps_of (ConnectionRate cl) ip)).
Proof.
  unfold CheckConnectionLimit.
  destruct (Vars.MaxConcurrentConnPerIP v <=? _); [left; reflexivity|].
  assert (H : stamps_of (<[ip' := prune t (stamps_of (ConnectionRate cl) ip')]>
                           (ConnectionRate cl)) ip
              = stamps_of (ConnectionRate cl) ip
              \/ (ip' = ip /\
                  stamps_of (<[ip' := prune t (stamps_of (ConnectionRate cl) ip')]>
                               (ConnectionRate cl)) ip
                  = prune t (stamps_of (ConnectionRate cl) ip))).
  { rewrite stamps_of_insert. destruct (decide (ip' = ip)) as [->|];
      [right; split; reflexivity | left; reflexivity]. }
  destruct (Vars.MaxConnRatePerIP v <=? _); [exact H|].
  destruct (_ && _); exact H.
Qed.

(** What one call adds to the timestamps that are recent at [now]. *)
Lemma recent_after_step v now ip cl c :
  not_after now c ->
  length (prune now (stamps_of (ConnectionRate (step v cl c)) ip))
  = (length (prune now (stamps_of (ConnectionRate cl) ip))
     + if recent_increment now ip c then 1 else 0)%nat.
Proof.
  intros Hc. destruct c as [t ip'|t ip'|ip'|ip'|ip'|t]; cbn [step recent_increment].
  - destruct (stamps_of_check v t ip' cl ip) as [-> | [_ ->]]; [lia|].
    rewrite prune_prune by exact Hc. lia.
  - unfold IncrementConnection; cbn. rewrite stamps_of_insert.
    destruct (decide (ip' = ip)) as [->|Hne].
    + rewrite String.eqb_refl, prune_app, length_app. cbn.
      destruct (in_window now t); reflexivity.
    + apply String.eqb_neq in Hne. rewrite Hne. cbn. lia.
  - cbn. lia.
  - unfold IncrementHalfOpen. destruct (negb _); cbn; lia.
  - unfold DecrementHalfOpen. destruct (negb _); cbn; lia.
  - rewrite stamps_of_cleanup, prune_prune by exact Hc. lia.
Qed.

Lemma recent_after_run v now ip cs : forall cl,
  Forall (not_after now) cs ->
  length (prune now (stamps_of (ConnectionRate (run v cl cs)) ip))
  = (length (prune now (stamps_of (ConnectionRate cl) ip))
     + recent_increments now ip cs)%nat.
Proof.
  unfold run, recent_increments.
  induction cs as [|c cs IH]; intros cl Hall; cbn [fold_left List.filter].
  - cbn. lia.
  - inversion Hall as [|? ? Hc Hcs]; subst.
    rewrite IH by exact Hcs. rewrite recent_after_step by exact Hc.
    destruct (recent_increment now ip c); cbn [length]; lia.
Qed.

(** The rate cap on a limiter as it stands. *)
Lemma CheckConnectionLimit_rate_cap v now ip cl :
  Vars.MaxConnRatePerIP v
  <= Z.of_nat (length (prune now (stamps_of (ConnectionRate cl) ip))) ->
  fst (CheckConnectionLimit v now ip cl) = false.
Proof.
  intros H. unfold CheckConnectionLimit.
  destruct (Vars.MaxConcurrentConnPerIP v <=? _); [reflexivity|].
  destruct (Z.leb_spec (Vars.MaxConnRatePerIP v)
              (Z.of_nat (length (prune now (stamps_of (ConnectionRate cl) ip)))));
    [reflexivity | lia].
Qed.

(** C8. After any run of calls on the tracker, none made after [now]: if
    at least MaxConnRatePerIP of the [IncrementConnection] calls for an
    address carry a timestamp less than the rate window before [now], the
    check of that address at [now] is refused. *)
Theorem C8_rate_cap v cl0 cs now ip :
  Forall (not_after now) cs ->
  Vars.MaxConnRatePerIP v <= Z.of_nat (recent_increments now ip cs) ->
  fst (CheckConnectionLimit v now ip (run v cl0 cs)) = false.
Proof.
  intros Hall Hn. apply CheckConnectionLimit_rate_cap.
  rewrite recent_after_run by exact Hall. lia.
Qed.

(** Eleven connections 90 ms apart: the check that follows them at 0.99 s
    is refused, and so was the eleventh check of the storm itself. *)
Lemma C8_rate_cap_witness :
  fst (CheckConnectionLimit Vars.initial 990000000 "203.0.113.9"
         (run Vars.initial (ConnectionTracker 0)
            (storm "203.0.113.9" 0 90000000 11))) = false.
Proof.
  apply (C8_rate_cap Vars.initial (ConnectionTracker 0)
           (storm "203.0.113.9" 0 90000000 11) 990000000 "203.0.113.9").
  - repeat constructor; cbn; lia.
  - vm_compute. discriminate.
Defined.

Example storm_eleventh_check_refused :
  fst (CheckConnectionLimit Vars.initial 900000000 "203.0.113.9"
         (run Vars.initial (ConnectionTracker 0)
            (storm "203.0.113.9" 0 90000000 10))) = false
  /\ fst (CheckConnectionLimit Vars.initial 810000000 "203.0.113.9"
            (run Vars.initial (ConnectionTracker 0)
               (storm "203.0.113.9" 0 90000000 9))) = true.
Proof. split; vm_compute; reflexivity. Qed.

End ConnLimitFacts.

(** ** Multi-window counters *)

Section MultiWindowFacts.

Import MultiWindow.

(** For an instant not before the epoch the truncating division of the
    code is the floor, and nothing wraps. *)
Lemma bucket_is_bucket_start t size :
  0 <= t <= max_int -> 0 < size ->
  bucket t size = bucket_start t size
  /\ 0 <= bucket_start t size <= Unix t
  /\ Unix t < bucket_start t size + size.
Proof.
  intros Ht Hs. unfold bucket, bucket_start, GoInt.mul, GoInt.quo.
  assert (Hu : 0 <= Unix t <= max_int).
  { unfold Unix, Second. unfold max_int in *. split.
    - apply Z.div_pos; lia.
    - pose proof (Z.div_le_upper_bound t 1000000000 (2 ^ 63 - 1)). nia. }
  rewrite Z.quot_div_nonneg by lia.
  pose proof (Z.div_pos (Unix t) size ltac:(lia) Hs) as Hq.
  pose proof (Z.mul_div_le (Unix t) size Hs) as Hle.
  pose proof (Z.mod_pos_bound (Unix t) size Hs) as Hmod.
  pose proof (Z.div_mod (Unix t) size ltac:(lia)) as Hdm.
  assert (Hq' : Unix t / size <= Unix t).
  { apply Z.div_le_upper_bound; nia. }
  rewrite (wrap64_id (Unix t / size))
    by (unfold in_range, min_int, max_int in *; lia).
  rewrite wrap64_id by (unfold in_range, min_int, max_int in *; nia).
  nia.
Qed.

Lemma bucket_start_mono t t' size :
  0 < size -> Unix t <= Unix t' -> bucket_start t size <= bucket_start t' size.
Proof.
  intros Hs Hle. unfold bucket_start.
  pose proof (Z.div_le_mono (Unix t) (Unix t') size Hs Hle). nia.
Qed.

Lemma Unix_mono t t' : t <= t' -> Unix t <= Unix t'.
Proof. intros. unfold Unix, Second. apply Z.div_le_mono; lia. Qed.

(** Reading a counter after one increment. *)
Lemma read_bump B ip ts ip' m :
  read B ip (bump ts ip' m)
  = if decide (ts = B /\ ip' = ip) then GoInt.add (read B ip m) 1
    else read B ip m.
Proof.
  unfold read, bump. rewrite lookup_insert.
  destruct (decide (ts = B)) as [->|Hts].
  - rewrite lookup_insert. destruct (decide (ip' = ip)) as [->|Hip].
    + rewrite decide_True by (split; reflexivity). cbn.
      destruct (m !! B); reflexivity.
    + rewrite decide_False by (intros [_ ?]; contradiction).
      destruct (m !! B); cbn; [reflexivity | rewrite lookup_empty; reflexivity].
  - rewrite decide_False by (intros [? _]; contradiction). reflexivity.
Qed.

(** A cleanup keeps every bucket that is not below its cutoff. *)
Lemma read_sweep B ip t size m :
  ¬ (B < GoInt.sub (bucket t size) (GoInt.mul size 2)) ->
  read B ip (sweep t size m) = read B ip m.
Proof.
  intros HB. unfold read, sweep.
  destruct (m !! B) as [inner|] eqn:Hm.
  - erewrite (proj2 (map_lookup_filter_Some _ m B inner)); [reflexivity|].
    split; [exact Hm | exact HB].
  - rewrite map_lookup_filter_None_2; [reflexivity|]. left. exact Hm.
Qed.

(** Each map of the counters sees the run through [step1]. *)
Lemma run_projects v cs : forall w,
  Vars.MultiWindowEnabled v = true ->
  BurstWindowIps (fold_left (step v) cs w)
  = fold_left (step1 (Vars.BurstWindow v)) cs (BurstWindowIps w)
  /\ ShortWindowIps (fold_left (step v) cs w)
     = fold_left (step1 (Vars.ShortWindow v)) cs (ShortWindowIps w)
  /\ MediumWindowIps (fold_left (step v) cs w)
     = fold_left (step1 (Vars.MediumWindow v)) cs (MediumWindowIps w)
  /\ LongWindowIps (fold_left (step v) cs w)
     = fold_left (step1 (Vars.LongWindow v)) cs (LongWindowIps w).
Proof.
  induction cs as [|c cs IH]; intros w Hen; [repeat split|].
  cbn [fold_left]. destruct (IH (step v w c) Hen) as (-> & -> & -> & ->).
  destruct c; cbn [step step1]; unfold RecordRequest, CleanupOldWindows;
    rewrite ?Hen; cbn; repeat split.
Qed.

Section OneWindow.

Variables (size : Z) (now : Time) (ip : string).
Hypothesis size_ok : 0 < size < 2 ^ 62.
Hypothesis now_ok : 0 <= now <= max_int.

Lemma read_step1 m c :
  made_by now c ->
  0 <= read (bucket_start now size) ip m < max_int ->
  read (bucket_start now size) ip (step1 size m c)
  = read (bucket_start now size) ip m
    + (if in_current_bucket now size ip c then 1 else 0).
Proof.
  intros [Hc0 Hc1] Hr. destruct c as [t ip'|t]; cbn [call_time] in *;
    cbn [step1 in_current_bucket].
  - destruct (bucket_is_bucket_start t size) as (-> & _ & _);
      [unfold max_int in *; lia | lia |].
    rewrite read_bump.
    destruct (decide (bucket_start t size = bucket_start now size /\ ip' = ip))
      as [[-> ->]|Hn].
    + rewrite String.eqb_refl, Z.eqb_refl. cbn. unfold GoInt.add.
      apply wrap64_id. unfold in_range, min_int, max_int in *. lia.
    + destruct (String.eqb_spec ip' ip) as [->|]; cbn; [|lia].
      destruct (Z.eqb_spec (bucket_start t size) (bucket_start now size));
        [|lia].
      exfalso. apply Hn. split; [assumption | reflexivity].
  - rewrite read_sweep; [lia|].
    destruct (bucket_is_bucket_start t size) as (-> & Hb0 & Hb1);
      [unfold max_int in *; lia | lia |].
    pose proof (bucket_start_mono t now size ltac:(lia) (Unix_mono t now Hc1)).
    unfold GoInt.sub, GoInt.mul.
    assert (Hu : Unix t <= max_int).
    { destruct (bucket_is_bucket_start now size) as (_ & _ & _); try lia.
      unfold Unix, Second, max_int in *.
      pose proof (Z.div_le_upper_bound t 1000000000 (2 ^ 63 - 1)). nia. }
    rewrite (wrap64_id (size * 2))
      by (unfold in_range, min_int, max_int in *; lia).
    rewrite wrap64_id by (unfold in_range, min_int, max_int in *; lia).
    lia.
Qed.

Lemma read_run1 cs : forall m,
  Forall (made_by now) cs ->
  0 <= read (bucket_start now size) ip m ->
  read (bucket_start now size) ip m + Z.of_nat (length cs) <= max_int ->
  read (bucket_start now size) ip (fold_left (step1 size) cs m)
  = read (bucket_start now size) ip m
    + Z.of_nat (records_in_bucket now size ip cs).
Proof.
  unfold records_in_bucket.
  induction cs as [|c cs IH]; intros m Hall H0 Hmax; cbn [fold_left List.filter].
  - cbn. lia.
  - inversion Hall as [|? ? Hc Hcs]; subst. cbn [length] in Hmax.
    pose proof (read_step1 m c Hc ltac:(lia)) as Hstep.
    rewrite IH; [| exact Hcs | | ].
    + rewrite Hstep. destruct (in_current_bucket now size ip c); cbn [length]; lia.
    + rewrite Hstep. destruct (in_current_bucket now size ip c); lia.
    + rewrite Hstep. destruct (in_current_bucket now size ip c); lia.
Qed.

End OneWindow.

Lemma read_empty B ip : read B ip ∅ = 0.
Proof. unfold read. rewrite lookup_empty. reflexivity. Qed.

(** C10. After any run of [RecordRequest] and cleanup calls made between
    the epoch and [now] (fewer than 2^63 of them), the count of an address
    in a recognised window is the number of [RecordRequest] calls for that
    address whose instant lies in the bucket that starts at
    floor(now / W) * W; it is 0 when every such call was made before that
    bucket started. *)
Theorem C10_count_is_records_in_current_bucket v cs now ip window size :
  Vars.MultiWindowEnabled v = true ->
  window_size v window = Some size ->
  0 < size < 2 ^ 62 ->
  0 <= now <= max_int ->
  Forall (made_by now) cs ->
  Z.of_nat (length cs) <= max_int ->
  GetRequestCount v now ip window (run v cs)
  = Z.of_nat (records_in_bucket now size ip cs)
  /\ ((forall t, In (RecordCall t ip) cs -> Unix t < bucket_start now size) ->
      GetRequestCount v now ip window (run v cs) = 0).
Proof.
  intros Hen Hw Hs Hnow Hall Hlen.
  assert (Hcount : GetRequestCount v now ip window (run v cs)
                   = Z.of_nat (records_in_bucket now size ip cs)).
  { unfold GetRequestCount, run. rewrite Hen; cbn [negb].
    destruct (run_projects v cs empty Hen) as (Hb & Hsh & Hmd & Hl).
    unfold window_size, select in Hw. unfold select.
    destruct (bucket_is_bucket_start now size Hnow ltac:(lia)) as (Hbk & _ & _).
    repeat (case_match; simplify_eq/=);
      rewrite ?Hb, ?Hsh, ?Hmd, ?Hl, Hbk; cbn;
      rewrite (read_run1 _ now ip Hs Hnow cs ∅ Hall);
      rewrite ?read_empty; lia. }
  split; [exact Hcount|].
  intros Hold. rewrite Hcount. unfold records_in_bucket.
  replace (List.filter (in_current_bucket now size ip) cs) with (@nil call);
    [reflexivity|].
  symmetry. clear Hcount Hlen. induction cs as [|c cs IH]; [reflexivity|].
  inversion Hall as [|? ? Hc Hcs]; subst. cbn [List.filter].
  rewrite IH; [| exact Hcs | intros t Ht; apply Hold; right; exact Ht].
  destruct c as [t ip'|t]; cbn [in_current_bucket]; [|reflexivity].
  destruct (String.eqb_spec ip' ip) as [->|]; [|reflexivity]. cbn.
  destruct (Z.eqb_spec (bucket_start t size) (bucket_start now size)) as [E|];
    [|reflexivity].
  exfalso. specialize (Hold t (or_introl eq_refl)).
  destruct Hc as [Hc0 Hc1]; cbn [call_time] in *.
  destruct (bucket_is_bucket_start t size) as (_ & _ & Hlt);
    [unfold max_int in *; lia | lia |].
  pose proof (Z.mul_div_le (Unix t) size ltac:(lia)).
  unfold bucket_start in *. lia.
Qed.

(** Two records in the bucket that starts at 1000 s, a cleanup, one record
    in the bucket that starts at 1010 s; read at 1012 s. *)
Lemma C10_count_is_records_in_current_bucket_witness :
  let cs := [RecordCall (1000 * Second) "198.51.100.7";
             RecordCall (1005 * Second) "198.51.100.7";
             CleanupCall (1007 * Second);
             RecordCall (1011 * Second) "198.51.100.7"] in
  GetRequestCount Vars.initial (1012 * Second) "198.51.100.7" "burst"
    (run Vars.initial cs)
  = Z.of_nat (records_in_bucket (1012 * Second) 10 "198.51.100.7" cs)
  /\ ((forall t, In (RecordCall t "198.51.100.7") cs ->
                 Unix t < bucket_start (1012 * Second) 10) ->
      GetRequestCount Vars.initial (1012 * Second) "198.51.100.7" "burst"
        (run Vars.initial cs) = 0).
Proof.
  apply (C10_count_is_records_in_current_bucket Vars.initial
           [RecordCall (1000 * Second) "198.51.100.7";
            RecordCall (1005 * Second) "198.51.100.7";
            CleanupCall (1007 * Second);
            RecordCall (1011 * Second) "198.51.100.7"]
           (1012 * Second) "198.51.100.7" "burst" 10).
  - reflexivity.
  - reflexivity.
  - lia.
  - vm_compute. split; discriminate.
  - repeat constructor; vm_compute; discriminate.
  - vm_compute. discriminate.
Defined.

(** At the rollover: ten records in the bucket that starts at 1000 s, read
    at 1010 s and one second earlier. *)
Example count_at_rollover :
  let cs := map (fun k => RecordCall ((1000 + Z.of_nat k) * Second) "198.51.100.7")
                (seq 0 10) in
  GetRequestCount Vars.initial (1010 * Second) "198.51.100.7" "burst"
    (run Vars.initial cs) = 0
  /\ GetRequestCount Vars.initial (1009 * Second) "198.51.100.7" "burst"
       (run Vars.initial cs) = 10.
Proof. split; vm_compute; reflexivity. Qed.

End MultiWindowFacts.

(** ** Order of binary64 numbers *)

Section FloatOrder.

Ltac cmp_cases :=
  repeat match goal with
         | H : context [Z.compare ?a ?b] |- _ =>
             destruct (Z.compare_spec a b); cbn in H
         | |- context [Z.compare ?a ?b] =>
             destruct (Z.compare_spec a b); cbn
         | H : context [Pos.compare_cont Eq ?a ?b] |- _ =>
             change (Pos.compare_cont Eq a b) with (Pos.compare a b) in H;
             destruct (Pos.compare_spec a b); cbn in H
         | |- context [Pos.compare_cont Eq ?a ?b] =>
             change (Pos.compare_cont Eq a b) with (Pos.compare a b);
             destruct (Pos.compare_spec a b); cbn
         end.

Lemma SFcompare_antisym x y :
  SFcompare y x = option_map CompOpp (SFcompare x y).
Proof.
  destruct x as [sx|sx| |sx mx ex], y as [sy|sy| |sy my ey]; cbn;
    try reflexivity; try (destruct sx; reflexivity);
    try (destruct sy; reflexivity); try (destruct sx, sy; reflexivity).
  destruct sx, sy; cbn; try reflexivity; cmp_cases; try reflexivity; try lia.
Qed.

Lemma SFcompare_refl x : is_nan x = false -> SFcompare x x = Some Eq.
Proof.
  destruct x as [s|s| |s m e]; cbn; intros H; try discriminate; try reflexivity.
  - destruct s; reflexivity.
  - destruct s; cbn; rewrite Z.compare_refl;
      change (Pos.compare_cont Eq m m) with (Pos.compare m m);
      rewrite Pos.compare_refl; reflexivity.
Qed.

Lemma SFcompare_None x y :
  SFcompare x y = None -> is_nan x = true \/ is_nan y = true.
Proof.
  destruct x as [sx|sx| |sx mx ex], y as [sy|sy| |sy my ey]; cbn;
    intros H; try discriminate; auto.
Qed.

Lemma SFcompare_Some x y :
  is_nan x = false -> is_nan y = false -> exists c, SFcompare x y = Some c.
Proof.
  intros Hx Hy. destruct (SFcompare x y) as [c|] eqn:E; [eauto|].
  apply SFcompare_None in E. destruct E; congruence.
Qed.

Lemma SFcompare_trans x y z c1 c2 :
  SFcompare x y = Some c1 -> SFcompare y z = Some c2 ->
  le_c c1 = true -> le_c c2 = true ->
  SFcompare x z = Some (comp_c c1 c2).
Proof.
  intros H1 H2 L1 L2.
  destruct x as [sx|sx| |sx mx ex], y as [sy|sy| |sy my ey],
           z as [sz|sz| |sz mz ez];
    cbn in *; try discriminate;
    repeat match goal with s : bool |- _ => destruct s end; cbn in *;
    try (injection H1 as <-; injection H2 as <-; cbn in *;
         try discriminate; reflexivity).
  all: cmp_cases; injection H1 as <-; injection H2 as <-; cbn in *;
    try discriminate; try reflexivity; try lia.
Qed.

Lemma leb_refl x : is_nan x = false -> leb x x = true.
Proof. intros H. unfold leb, SFleb. rewrite SFcompare_refl; auto. Qed.

Lemma leb_not_nan x y : leb x y = true -> is_nan x = false /\ is_nan y = false.
Proof.
  unfold leb, SFleb. destruct x, y; cbn; try discriminate; auto.
Qed.

Lemma ltb_leb x y : ltb x y = true -> leb x y = true.
Proof.
  unfold ltb, leb, SFltb, SFleb. destruct (SFcompare x y) as [[| |]|]; auto.
Qed.

(** Of two numbers that are not NaN, one is below the other. *)
Lemma ltb_false_leb x y :
  is_nan x = false -> is_nan y = false -> ltb x y = false -> leb y x = true.
Proof.
  intros Hx Hy. unfold ltb, leb, SFltb, SFleb.
  rewrite (SFcompare_antisym x y).
  destruct (SFcompare_Some x y Hx Hy) as [c ->]. destruct c; cbn; congruence.
Qed.

Lemma ltb_leb_excl x y : ltb x y = true -> leb y x = false.
Proof.
  unfold ltb, leb, SFltb, SFleb. rewrite (SFcompare_antisym x y).
  destruct (SFcompare x y) as [[| |]|]; cbn; congruence.
Qed.

Lemma leb_trans x y z : leb x y = true -> leb y z = true -> leb x z = true.
Proof.
  unfold leb, SFleb. intros H1 H2.
  destruct (SFcompare x y) as [c1|] eqn:E1; [|discriminate].
  destruct (SFcompare y z) as [c2|] eqn:E2; [|discriminate].
  rewrite (SFcompare_trans x y z c1 c2 E1 E2);
    destruct c1, c2; cbn; congruence.
Qed.

Lemma leb_ltb_trans x y z : leb x y = true -> ltb y z = true -> ltb x z = true.
Proof.
  unfold leb, ltb, SFleb, SFltb. intros H1 H2.
  destruct (SFcompare x y) as [c1|] eqn:E1; [|discriminate].
  destruct (SFcompare y z) as [c2|] eqn:E2; [|discriminate].
  rewrite (SFcompare_trans x y z c1 c2 E1 E2);
    destruct c1, c2; cbn; congruence.
Qed.

Lemma ltb_leb_trans x y z : ltb x y = true -> leb y z = true -> ltb x z = true.
Proof.
  unfold leb, ltb, SFleb, SFltb. intros H1 H2.
  destruct (SFcompare x y) as [c1|] eqn:E1; [|discriminate].
  destruct (SFcompare y z) as [c2|] eqn:E2; [|discriminate].
  rewrite (SFcompare_trans x y z c1 c2 E1 E2);
    destruct c1, c2; cbn; congruence.
Qed.

(** [fmax] is the least upper bound of two numbers that are not NaN. *)
Lemma fmax_is_max a b :
  is_nan a = false -> is_nan b = false ->
  leb a (fmax a b) = true /\ leb b (fmax a b) = true
  /\ (fmax a b = a \/ fmax a b = b).
Proof.
  intros Ha Hb. unfold fmax.
  destruct (SFcompare a b) as [c|] eqn:E.
  - assert (Hba : leb b a = true \/ c = Lt).
    { destruct c; auto; left; unfold leb, SFleb;
        rewrite (SFcompare_antisym a b), E; reflexivity. }
    assert (Hab : leb a b = true \/ c = Gt).
    { destruct c; auto; left; unfold leb, SFleb; rewrite E; reflexivity. }
    destruct c; repeat split; auto using leb_refl;
      try (destruct Hba; [assumption|discriminate]);
      try (destruct Hab; [assumption|discriminate]).
  - apply SFcompare_None in E. destruct E; congruence.
Qed.

(** [fmin] is the greatest lower bound of two numbers that are not NaN. *)
Lemma fmin_is_min a b :
  is_nan a = false -> is_nan b = false ->
  leb (fmin a b) a = true /\ leb (fmin a b) b = true
  /\ (fmin a b = a \/ fmin a b = b).
Proof.
  intros Ha Hb. unfold fmin.
  destruct (SFcompare a b) as [c|] eqn:E.
  - assert (Hba : leb b a = true \/ c = Lt).
    { destruct c; auto; left; unfold leb, SFleb;
        rewrite (SFcompare_antisym a b), E; reflexivity. }
    assert (Hab : leb a b = true \/ c = Gt).
    { destruct c; auto; left; unfold leb, SFleb; rewrite E; reflexivity. }
    destruct c; repeat split; auto using leb_refl;
      try (destruct Hba; [assumption|discriminate]);
      try (destruct Hab; [assumption|discriminate]).
  - apply SFcompare_None in E. destruct E; congruence.
Qed.

End FloatOrder.

(** ** Rounding never yields NaN *)

Section RoundingFacts.

Lemma iter_pos_invariant {A} (P : A -> Prop) (f : A -> A) :
  (forall x, P x -> P (f x)) -> forall p x, P x -> P (SpecFloat.iter_pos f p x).
Proof.
  intros Hf. induction p as [p IH|p IH|]; intros x Hx; cbn; auto.
Qed.

Lemma shr_1_nonneg mrs : 0 <= shr_m mrs -> 0 <= shr_m (shr_1 mrs).
Proof.
  destruct mrs as [m r s]. cbn. intros H.
  destruct m as [|p|p]; [cbn; lia | destruct p; cbn; lia | lia].
Qed.

Lemma shr_nonneg mrs e n : 0 <= shr_m mrs -> 0 <= shr_m (fst (shr mrs e n)).
Proof.
  intros H. unfold shr. destruct n; cbn; try assumption.
  apply (iter_pos_invariant (fun x => 0 <= shr_m x)); [apply shr_1_nonneg | assumption].
Qed.

Lemma shr_record_of_loc_m m l : shr_m (shr_record_of_loc m l) = m.
Proof. destruct l as [|[| |]]; reflexivity. Qed.

Lemma shr_fexp_nonneg m e l :
  0 <= m -> 0 <= shr_m (fst (shr_fexp prec emax m e l)).
Proof.
  intros H. unfold shr_fexp. apply shr_nonneg. rewrite shr_record_of_loc_m. exact H.
Qed.

Lemma round_nearest_even_nonneg m l : 0 <= m -> 0 <= round_nearest_even m l.
Proof.
  intros H. unfold round_nearest_even.
  destruct l as [|[| |]]; try assumption; [destruct (Z.even m)|]; lia.
Qed.

Lemma binary_round_aux_not_nan s m e l :
  0 <= m -> is_nan (binary_round_aux prec emax s m e l) = false.
Proof.
  intros H. unfold binary_round_aux.
  pose proof (shr_fexp_nonneg m e l H) as H1.
  destruct (shr_fexp prec emax m e l) as [mrs' e'] eqn:E1. cbn [fst] in H1.
  pose proof (shr_fexp_nonneg
                (round_nearest_even (shr_m mrs') (loc_of_shr_record mrs')) e'
                loc_Exact (round_nearest_even_nonneg _ _ H1)) as H2.
  destruct (shr_fexp prec emax _ e' loc_Exact) as [mrs'' e''] eqn:E2.
  cbn [fst] in H2.
  destruct (shr_m mrs'') as [|p|p]; [reflexivity | | lia].
  destruct (e'' <=? emax - prec); reflexivity.
Qed.

Lemma of_int_not_nan n : is_nan (of_int n) = false.
Proof.
  unfold of_int, binary_normalize, binary_round.
  destruct n as [|p|p]; [reflexivity | |];
    destruct (shl_align _ _ _) as [mz ez]; apply binary_round_aux_not_nan; lia.
Qed.

(** The product with a finite non-zero number is NaN only if the other
    factor is. *)
Lemma mul_not_nan x y :
  is_nan x = false -> is_finite_nonzero y = true -> is_nan (mul x y) = false.
Proof.
  intros Hx Hy. destruct y as [| | |sy my ey]; try discriminate.
  destruct x as [sx|sx| |sx mx ex]; try discriminate; try reflexivity.
  unfold mul, SFmul. apply binary_round_aux_not_nan. lia.
Qed.

End RoundingFacts.

(** ** Whitelist learning *)

Section WhitelistFacts.

Import Adaptive.

(** The entry kept for [ip] is tested by the three branches; only the
    third removes it. *)
Lemma UpdateWhitelistLearning_lookup v now ip success wl :
  Vars.AdaptiveLearningEnabled v = true ->
  let entry :=
    observe now success
      match wl !! ip with
      | Some e => e
      | None => {| IP := ip; AddedAt := now; RequestCount := 0;
                   SuccessRate := of_int 0; LastSeen := now |}
      end in
  (UpdateWhitelistLearning v now ip success wl !! ip = Some entry
   /\ ~ demotable entry)
  \/ (UpdateWhitelistLearning v now ip success wl !! ip = None
      /\ demotable entry).
Proof.
  intros Hen entry. unfold UpdateWhitelistLearning. rewrite Hen; cbn [negb].
  fold entry.
  destruct (100 <=? RequestCount entry) eqn:H100; cbn [andb].
  - destruct (geb (SuccessRate entry) (lit 95 100)) eqn:Hge.
    + left. rewrite lookup_insert_eq. split; [reflexivity|].
      intros [_ Hlt]. unfold geb in Hge.
      assert (Hc : ltb (lit 95 100) (lit 5 10) = true)
        by (eapply leb_ltb_trans; eassumption).
      vm_compute in Hc. discriminate.
    + destruct (Z.ltb_spec (RequestCount entry) 10) as [Hn|Hn].
      * apply Z.leb_le in H100. lia.
      * destruct (ltb (SuccessRate entry) (lit 5 10)) eqn:Hlt.
        -- right. rewrite lookup_delete_eq. split; [reflexivity|]. split; assumption.
        -- left. rewrite lookup_insert_eq. split; [reflexivity|].
           intros [_ H]. congruence.
  - destruct (Z.ltb_spec (RequestCount entry) 10) as [Hn|Hn].
    + left. rewrite lookup_insert_eq. split; [reflexivity|]. intros [H _]. lia.
    + destruct (ltb (SuccessRate entry) (lit 5 10)) eqn:Hlt.
      * right. rewrite lookup_delete_eq. split; [reflexivity|]. split; assumption.
      * left. rewrite lookup_insert_eq. split; [reflexivity|].
        intros [_ H]. congruence.
Qed.

(** The entries of the other addresses are not touched. *)
Lemma UpdateWhitelistLearning_other v now ip success wl ip' :
  ip <> ip' ->
  UpdateWhitelistLearning v now ip success wl !! ip' = wl !! ip'.
Proof.
  intros Hne. unfold UpdateWhitelistLearning.
  destruct (negb _); [reflexivity|].
  repeat match goal with
         | |- context [if ?b then _ else _] => destruct b
         end;
    repeat first [ rewrite lookup_insert_ne by assumption
                 | rewrite lookup_delete_ne by assumption ];
    reflexivity.
Qed.

Lemma UpdateWhitelistLearning_no_demotable v now ip success wl :
  no_demotable wl -> no_demotable (UpdateWhitelistLearning v now ip success wl).
Proof.
  intros Hinv ip' e He.
  destruct (Vars.AdaptiveLearningEnabled v) eqn:Hen.
  - destruct (decide (ip = ip')) as [<-|Hne].
    + destruct (UpdateWhitelistLearning_lookup v now ip success wl Hen)
        as [[Hl Hnd]|[Hl _]]; rewrite Hl in He; [|discriminate].
      injection He as <-. exact Hnd.
    + rewrite UpdateWhitelistLearning_other in He by assumption.
      exact (Hinv ip' e He).
  - unfold UpdateWhitelistLearning in He. rewrite Hen in He.
    exact (Hinv ip' e He).
Qed.

Lemma CleanupWhitelist_no_demotable now wl :
  no_demotable wl -> no_demotable (CleanupWhitelist now wl).
Proof.
  intros Hinv ip e He. unfold CleanupWhitelist in He.
  apply map_lookup_filter_Some in He. exact (Hinv ip e (proj1 He)).
Qed.

Lemma run_no_demotable v cs : forall wl,
  no_demotable wl -> no_demotable (fold_left (step v) cs wl).
Proof.
  induction cs as [|c cs IH]; intros wl Hinv; [exact Hinv|].
  cbn [fold_left]. apply IH. destruct c; cbn [step].
  - apply UpdateWhitelistLearning_no_demotable; exact Hinv.
  - apply CleanupWhitelist_no_demotable; exact Hinv.
Qed.

(** C6. Whatever calls came before, after a call of
    [UpdateWhitelistLearning] with learning on the list holds no entry
    with at least 10 requests and a success rate below 0.5; the entry of
    the address just observed is deleted when it meets that condition. *)
Theorem C6_no_demotable_entry_after_update v cs now ip success :
  Vars.AdaptiveLearningEnabled v = true ->
  let before := fold_left (step v) cs ∅ in
  let after := UpdateWhitelistLearning v now ip success before in
  (forall ip' e, after !! ip' = Some e -> ~ demotable e)
  /\ (demotable
        (observe now success
           match before !! ip with
           | Some e => e
           | None => {| IP := ip; AddedAt := now; RequestCount := 0;
                        SuccessRate := of_int 0; LastSeen := now |}
           end) ->
      after !! ip = None).
Proof.
  intros Hen before after. split.
  - apply UpdateWhitelistLearning_no_demotable.
    apply run_no_demotable. intros ip' e He.
    rewrite lookup_empty in He. discriminate.
  - intros Hd.
    destruct (UpdateWhitelistLearning_lookup v now ip success before Hen)
      as [[_ Hnd]|[Hl _]]; [contradiction | exact Hl].
Qed.

(** Nine failures followed by a tenth: the entry is removed. *)
Lemma C6_no_demotable_entry_after_update_witness :
  let before :=
    fold_left (step Vars.initial) (outcomes "203.0.113.9" false 0 9) ∅ in
  let after :=
    UpdateWhitelistLearning Vars.initial (9 * Second) "203.0.113.9" false before in
  (forall ip' e, after !! ip' = Some e -> ~ demotable e)
  /\ (demotable
        (observe (9 * Second) false
           match before !! "203.0.113.9" with
           | Some e => e
           | None => {| IP := "203.0.113.9"; AddedAt := 9 * Second;
                        RequestCount := 0;
                        SuccessRate := of_int 0; LastSeen := 9 * Second |}
           end) ->
      after !! "203.0.113.9" = None).
Proof.
  apply (C6_no_demotable_entry_after_update Vars.initial
           (outcomes "203.0.113.9" false 0 9) (9 * Second) "203.0.113.9" false).
  reflexivity.
Defined.

Example ten_failures_remove_the_entry :
  fold_left (step Vars.initial) (outcomes "203.0.113.9" false 0 10) ∅
  !! "203.0.113.9" = None
  /\ RequestCount <$>
       (fold_left (step Vars.initial) (outcomes "203.0.113.9" false 0 9) ∅
        !! "203.0.113.9") = Some 9.
Proof. split; vm_compute; reflexivity. Qed.

(** C3 (the code at every input). With learning on, an address without an
    entry is on the list right after its first observed request, whatever
    the outcome: [CheckWhitelist] answers true for the next 24 hours. *)
Theorem C3_trusted_after_one_request v now later ip success wl :
  Vars.AdaptiveLearningEnabled v = true ->
  wl !! ip = None ->
  Sub later now <= 24 * Hour ->
  CheckWhitelist v later ip (UpdateWhitelistLearning v now ip success wl) = true.
Proof.
  intros Hen Hnone Hlate.
  destruct (UpdateWhitelistLearning_lookup v now ip success wl Hen)
    as [[Hl _]|[_ [Hd _]]].
  - unfold CheckWhitelist. rewrite Hen; cbn [negb]. rewrite Hl.
    rewrite Hnone. cbn. unfold Since.
    destruct (Z.ltb_spec (24 * Hour) (Sub later now)); [lia | reflexivity].
  - rewrite Hnone in Hd. cbn in Hd. vm_compute in Hd. exfalso.
    apply Hd. reflexivity.
Qed.

Lemma C3_trusted_after_one_request_witness :
  CheckWhitelist Vars.initial 0 "198.51.100.7"
    (UpdateWhitelistLearning Vars.initial 0 "198.51.100.7" true ∅) = true.
Proof.
  apply (C3_trusted_after_one_request Vars.initial 0 0 "198.51.100.7" true ∅).
  - reflexivity.
  - reflexivity.
  - vm_compute. discriminate.
Defined.

End WhitelistFacts.

(** ** Adaptive rate limit *)

Section AdaptiveLimitFacts.

Import Adaptive.

(** C2 (as amended). With adaptive rate limiting on and a finite non-zero
    attack multiplier, the limit is the integer part (the fraction is
    discarded) of max(base * m, base * attack_multiplier), where m is the
    multiplier of the domain, the base multiplier if it has none, and the
    products are binary64 products of float64(base). *)
Theorem C2_adaptive_limit_is_truncated_max v base name ms :
  Vars.AdaptiveRateLimitEnabled v = true ->
  is_finite_nonzero (Vars.AdaptiveAttackMultiplier v) = true ->
  GetAdaptiveRateLimit v base name ms
  = to_int (AdaptiveLimit_spec v base (GetAdaptiveMultiplier v name ms))
  /\ GetAdaptiveMultiplier v name ms
     = default (Vars.AdaptiveBaseMultiplier v) (ms !! name).
Proof.
  intros Hen Hatt. split.
  - unfold GetAdaptiveRateLimit, AdaptiveLimit_spec, fmax. rewrite Hen; cbn [negb].
    set (a := mul (of_int base) (GetAdaptiveMultiplier v name ms)).
    set (b := mul (of_int base) (Vars.AdaptiveAttackMultiplier v)).
    assert (Hb : is_nan b = false)
      by (apply mul_not_nan; [apply of_int_not_nan | exact Hatt]).
    unfold ltb, SFltb. destruct (SFcompare a b) as [[| |]|] eqn:E; try reflexivity.
    apply SFcompare_None in E. destruct E as [E|E]; [|congruence].
    destruct a; try discriminate. reflexivity.
  - unfold GetAdaptiveMultiplier. rewrite Hen; cbn [negb].
    destruct (ms !! name); reflexivity.
Qed.

Lemma C2_adaptive_limit_is_truncated_max_witness :
  GetAdaptiveRateLimit Vars.initial 5 "example.com"
    (UpdateAdaptiveMultiplier Vars.initial "example.com" true true ∅)
  = to_int (AdaptiveLimit_spec Vars.initial 5
              (GetAdaptiveMultiplier Vars.initial "example.com"
                 (UpdateAdaptiveMultiplier Vars.initial "example.com" true true ∅)))
  /\ GetAdaptiveMultiplier Vars.initial "example.com"
       (UpdateAdaptiveMultiplier Vars.initial "example.com" true true ∅)
     = default (Vars.AdaptiveBaseMultiplier Vars.initial)
         (UpdateAdaptiveMultiplier Vars.initial "example.com" true true ∅
          !! "example.com").
Proof.
  apply (C2_adaptive_limit_is_truncated_max Vars.initial 5 "example.com"
           (UpdateAdaptiveMultiplier Vars.initial "example.com" true true ∅)).
  - reflexivity.
  - reflexivity.
Defined.

(** C2 as stated fails: after one tick under a bypass attack the domain's
    multiplier is 0.3; for base 5 the limit returned is 1, while
    max(5 * 0.3, 5 * 0.3) is 1.5. *)
Lemma C2_counterexample :
  let ms := UpdateAdaptiveMultiplier Vars.initial "example.com" true true ∅ in
  let m := GetAdaptiveMultiplier Vars.initial "example.com" ms in
  GetAdaptiveRateLimit Vars.initial 5 "example.com" ms = 1
  /\ AdaptiveLimit_spec Vars.initial 5 m = lit 3 2
  /\ of_int (GetAdaptiveRateLimit Vars.initial 5 "example.com" ms)
     <> AdaptiveLimit_spec Vars.initial 5 m.
Proof. repeat split; vm_compute; congruence. Qed.

End AdaptiveLimitFacts.

(** ** Rounding to binary64 *)

Section Rounding.




Lemma digits2_pos_bounds p :
  2 ^ (Zpos (digits2_pos p) - 1) <= Zpos p < 2 ^ Zpos (digits2_pos p).
Proof.
  induction p as [p IH|p IH|]; cbn [digits2_pos].
  - rewrite Pos2Z.inj_succ, (Pos2Z.inj_xI p).
    replace (Z.succ (Zpos (digits2_pos p)) - 1)
      with (Z.succ (Zpos (digits2_pos p) - 1)) by lia.
    rewrite !Z.pow_succ_r by lia.
    generalize dependent (2 ^ (Zpos (digits2_pos p) - 1)).
    generalize dependent (2 ^ Zpos (digits2_pos p)). intros; lia.
  - rewrite Pos2Z.inj_succ, (Pos2Z.inj_xO p).
    replace (Z.succ (Zpos (digits2_pos p)) - 1)
      with (Z.succ (Zpos (digits2_pos p) - 1)) by lia.
    rewrite !Z.pow_succ_r by lia.
    generalize dependent (2 ^ (Zpos (digits2_pos p) - 1)).
    generalize dependent (2 ^ Zpos (digits2_pos p)). intros; lia.
  - cbn. lia.
Qed.

Lemma Zdigits2_bounds m :
  0 < m -> 2 ^ (Zdigits2 m - 1) <= m < 2 ^ Zdigits2 m /\ 0 < Zdigits2 m.
Proof.
  destruct m as [|p|p]; try lia. intros _. cbn [Zdigits2].
  split; [apply digits2_pos_bounds | lia].
Qed.

Lemma Zdigits2_le m k : 0 < m -> 0 <= k -> m < 2 ^ k -> Zdigits2 m <= k.
Proof.
  intros Hm Hk Hlt. destruct (Zdigits2_bounds m Hm) as [[Hlo _] Hd].
  destruct (Z_le_gt_dec (Zdigits2 m) k) as [|Hgt]; [assumption|].
  pose proof (Z.pow_le_mono_r 2 k (Zdigits2 m - 1) ltac:(lia) ltac:(lia)). lia.
Qed.

Lemma Zdigits2_ge m k : 0 < m -> 2 ^ (k - 1) <= m -> k <= Zdigits2 m.
Proof.
  intros Hm Hle. destruct (Zdigits2_bounds m Hm) as [[_ Hhi] Hd].
  destruct (Z_le_gt_dec k (Zdigits2 m)) as [|Hgt]; [assumption|].
  pose proof (Z.pow_le_mono_r 2 (Zdigits2 m) (k - 1) ltac:(lia) ltac:(lia)). lia.
Qed.





Lemma iter_pos_comm {A} (f : A -> A) p : forall x,
  SpecFloat.iter_pos f p (f x) = f (SpecFloat.iter_pos f p x).
Proof.
  induction p as [p IH|p IH|]; intros x; cbn [SpecFloat.iter_pos];
    [| |reflexivity].
  - rewrite !IH. reflexivity.
  - rewrite !IH. reflexivity.
Qed.

Lemma iter_pos_succ {A} (f : A -> A) p x :
  SpecFloat.iter_pos f (Pos.succ p) x = f (SpecFloat.iter_pos f p x).
Proof.
  revert x. induction p as [p IH|p IH|]; intros x.
  - change (Pos.succ (xI p)) with (xO (Pos.succ p)). cbn [SpecFloat.iter_pos].
    rewrite !IH. rewrite !iter_pos_comm. reflexivity.
  - change (Pos.succ (xO p)) with (xI p). cbn [SpecFloat.iter_pos].
    rewrite !iter_pos_comm. reflexivity.
  - reflexivity.
Qed.

Lemma shr_1_spec m r s :
  0 <= m ->
  shr_1 {| shr_m := m; shr_r := r; shr_s := s |}
  = {| shr_m := m / 2; shr_r := Z.odd m; shr_s := r || s |}.
Proof.
  intros Hm. destruct m as [|p|p]; [reflexivity | | lia].
  destruct p as [p|p|]; cbn [shr_1].
  - f_equal. rewrite (Pos2Z.inj_xI p). apply Z.div_unique with 1; lia.
  - f_equal. rewrite (Pos2Z.inj_xO p). apply Z.div_unique with 0; lia.
  - reflexivity.
Qed.

(** After [k] halvings of an exact record: the quotient, and no lost bit
    when the division is exact. *)
Lemma iter_shr_1_spec mx p :
  0 <= mx ->
  let mrs := SpecFloat.iter_pos shr_1 p
               {| shr_m := mx; shr_r := false; shr_s := false |} in
  shr_m mrs = mx / 2 ^ Zpos p
  /\ (mx mod 2 ^ Zpos p = 0 -> shr_r mrs = false /\ shr_s mrs = false).
Proof.
  intros Hm. cbv zeta. induction p as [|p IH] using Pos.peano_ind.
  - cbn [SpecFloat.iter_pos]. rewrite shr_1_spec by assumption. cbn [shr_m shr_r shr_s].
    change (2 ^ 1) with 2.
    split; [reflexivity|]. intros H. split; [|reflexivity].
    rewrite <- Z.negb_even, Zeven_mod, H. reflexivity.
  - rewrite iter_pos_succ.
    destruct (SpecFloat.iter_pos shr_1 p _) as [q r s] eqn:E.
    cbn [shr_m shr_r shr_s] in IH. destruct IH as [Hq Hex].
    assert (Hpow : 0 < 2 ^ Zpos p) by (apply Z.pow_pos_nonneg; lia).
    assert (Hq0 : 0 <= q) by (subst q; apply Z.div_pos; lia).
    rewrite shr_1_spec by assumption. cbn [shr_m shr_r shr_s].
    rewrite Pos2Z.inj_succ, Z.pow_succ_r by lia.
    split.
    + subst q. rewrite Z.div_div by lia. f_equal. lia.
    + intros H. apply Z.mod_divide in H; [|lia]. destruct H as [c Hc].
      assert (H1 : mx mod 2 ^ Zpos p = 0).
      { apply Z.mod_divide; [lia|]. exists (c * 2). lia. }
      destruct (Hex H1) as [-> ->]. split; [|reflexivity].
      assert (Hq2 : q = c * 2).
      { subst q. rewrite Hc.
        replace (c * (2 * 2 ^ Zpos p)) with ((c * 2) * 2 ^ Zpos p) by lia.
        apply Z.div_mul. lia. }
      rewrite Hq2, <- Z.negb_even, Z.even_mul. cbn. rewrite orb_true_r. reflexivity.
Qed.



Lemma fexp_eq e : fexp 53 1024 e = Z.max (e - 53) (-1074).
Proof. reflexivity. Qed.

Lemma shr_exact_spec mx ex n :
  0 <= mx -> 0 <= n ->
  let r := shr {| shr_m := mx; shr_r := false; shr_s := false |} ex n in
  snd r = ex + n
  /\ shr_m (fst r) = mx / 2 ^ n
  /\ (mx mod 2 ^ n = 0 -> loc_of_shr_record (fst r) = loc_Exact).
Proof.
  intros Hm Hn. cbv zeta. destruct n as [|p|p]; [| |lia].
  - cbn [shr fst snd shr_m]. rewrite Z.pow_0_r, Z.div_1_r.
    split; [lia|]. split; reflexivity.
  - cbn [shr fst snd].
    destruct (iter_shr_1_spec mx p Hm) as [Hq Hex].
    split; [reflexivity|]. split; [exact Hq|]. intros H. destruct (Hex H) as [Hr Hs].
    destruct (SpecFloat.iter_pos shr_1 p _) as [q r s]. cbn in Hr, Hs. subst. reflexivity.
Qed.

Lemma round_nearest_even_bounds q l :
  q <= round_nearest_even q l <= q + 1
  /\ (l = loc_Exact -> round_nearest_even q l = q).
Proof.
  unfold round_nearest_even.
  destruct l as [|[| |]];
    try (split; [lia|]; try reflexivity; discriminate).
  destruct (Z.even q); split; try lia; discriminate.
Qed.

Lemma shr_fexp_noshift m e :
  fexp 53 1024 (Zdigits2 m + e) - e <= 0 ->
  shr_fexp 53 1024 m e loc_Exact
  = ({| shr_m := m; shr_r := false; shr_s := false |}, e).
Proof.
  intros H. unfold shr_fexp, shr.
  destruct (fexp 53 1024 (Zdigits2 m + e) - e); try reflexivity. lia.
Qed.

Lemma shr_fexp_carry e :
  -1074 <= e ->
  shr_fexp 53 1024 (2 ^ 53) e loc_Exact
  = ({| shr_m := 2 ^ 52; shr_r := false; shr_s := false |}, e + 1).
Proof.
  intros H. unfold shr_fexp. change (Zdigits2 (2 ^ 53)) with 54.
  rewrite fexp_eq. replace (Z.max (54 + e - 53) (-1074) - e) with 1 by lia.
  reflexivity.
Qed.

Lemma bra_exact s mx ex :
  0 < mx ->
  let e1 := fexp 53 1024 (Zdigits2 mx + ex) in
  let n := e1 - ex in
  0 <= n ->
  exists m',
    mx / 2 ^ n <= m' <= mx / 2 ^ n + 1
    /\ (mx mod 2 ^ n = 0 -> m' = mx / 2 ^ n)
    /\ m' <= 2 ^ 53
    /\ binary_round_aux 53 1024 s mx ex loc_Exact = rounded s m' e1.
Proof.
  intros Hm e1 n Hn.
  destruct (Zdigits2_bounds mx Hm) as [[Hlo Hhi] Hd].
  assert (He1 : -1074 <= e1) by (unfold e1; rewrite fexp_eq; lia).
  assert (Hnd : Zdigits2 mx - 53 <= n) by (unfold n, e1; rewrite fexp_eq; lia).
  assert (Hpn : 0 < 2 ^ n) by (apply Z.pow_pos_nonneg; lia).
  assert (Hq53 : mx / 2 ^ n < 2 ^ 53).
  { apply Z.div_lt_upper_bound; [lia|].
    rewrite <- Z.pow_add_r by lia.
    pose proof (Z.pow_le_mono_r 2 (Zdigits2 mx) (n + 53) ltac:(lia) ltac:(lia)). lia. }
  assert (Hq0 : 0 <= mx / 2 ^ n) by (apply Z.div_pos; lia).
  destruct (shr_exact_spec mx ex n ltac:(lia) Hn) as (He & Hq & Hex).
  destruct (shr _ ex n) as [mrs' e'] eqn:E1. cbn [fst snd] in He, Hq, Hex.
  assert (Es : shr_fexp 53 1024 mx ex loc_Exact = (mrs', e1)).
  { replace e1 with e' by (unfold n in He; lia). exact E1. }
  clear E1 He.
  set (m' := round_nearest_even (shr_m mrs') (loc_of_shr_record mrs')).
  destruct (round_nearest_even_bounds (shr_m mrs') (loc_of_shr_record mrs'))
    as [Hb Hexact].
  fold m' in Hb, Hexact. rewrite Hq in Hb.
  exists m'. split; [exact Hb|]. split; [intros H; rewrite Hexact, Hq; auto|].
  split; [lia|].
  unfold binary_round_aux. rewrite Es. fold m'.
  destruct (Z.eq_dec m' (2 ^ 53)) as [H53|H53].
  - rewrite H53, shr_fexp_carry by exact He1. reflexivity.
  - rewrite shr_fexp_noshift.
    + cbn [shr_m]. destruct m' as [|p|p]; [reflexivity| |lia].
      unfold rounded.
      destruct (Z.eqb_spec (Zpos p) (2 ^ 53)); [contradiction|reflexivity].
    + rewrite fexp_eq. destruct (Z.eq_dec m' 0) as [->|H0]; [cbn [Zdigits2]; lia|].
      pose proof (Zdigits2_le m' 53 ltac:(lia) ltac:(lia) ltac:(lia)). lia.
Qed.

Lemma pow2_pos k : 0 <= k -> 0 < 2 ^ k.
Proof. intros. apply Z.pow_pos_nonneg; lia. Qed.

Lemma pow2_split a b : 0 <= a -> 0 <= b -> 2 ^ (a + b) = 2 ^ a * 2 ^ b.
Proof. intros. apply Z.pow_add_r; assumption. Qed.

Lemma sv_shift m e k : 0 <= k -> -2148 <= e -> sv m (e + k) = m * 2 ^ k * 2 ^ (e + 2148).
Proof.
  intros Hk He. unfold sv. replace (e + k + 2148) with (k + (e + 2148)) by lia.
  rewrite pow2_split by lia. lia.
Qed.

Lemma bra_rounding s mx ex :
  0 < mx -> -2148 <= ex ->
  0 <= fexp 53 1024 (Zdigits2 mx + ex) - ex ->
  exists m' e1,
    rounding (sv mx ex) m' e1
    /\ binary_round_aux 53 1024 s mx ex loc_Exact = rounded s m' e1.
Proof.
  intros Hm Hex Hn.
  destruct (bra_exact s mx ex Hm Hn) as (m' & Hb & Hexact & H53 & Hr).
  set (e1 := fexp 53 1024 (Zdigits2 mx + ex)) in *.
  set (n := e1 - ex) in *.
  exists m', e1. split; [|exact Hr].
  destruct (Zdigits2_bounds mx Hm) as [[Hlo Hhi] Hd].
  assert (He1 : -1074 <= e1) by (unfold e1; rewrite fexp_eq; lia).
  assert (Hpn : 0 < 2 ^ n) by (apply pow2_pos; lia).
  assert (HP : 0 < 2 ^ (ex + 2148)) by (apply pow2_pos; lia).
  assert (Hq0 : 0 <= mx / 2 ^ n) by (apply Z.div_pos; lia).
  pose proof (Z.div_mod mx (2 ^ n) ltac:(lia)) as Hdm.
  pose proof (Z.mod_pos_bound mx (2 ^ n) Hpn) as Hmod.
  assert (Hsv : forall M, sv M e1 = M * 2 ^ n * 2 ^ (ex + 2148)).
  { intros M. replace e1 with (ex + n) by (unfold n; lia). apply sv_shift; lia. }
  constructor.
  - exact He1.
  - lia.
  - intros Hnorm.
    assert (En : n = Zdigits2 mx - 53).
    { unfold n, e1. rewrite fexp_eq. unfold e1 in Hnorm.
      rewrite fexp_eq in Hnorm. lia. }
    assert (Hle : 2 ^ 52 * 2 ^ n <= mx).
    { rewrite <- pow2_split by lia.
      replace (52 + n) with (Zdigits2 mx - 1) by lia. exact Hlo. }
    split.
    + assert (2 ^ 52 <= mx / 2 ^ n) by (apply Z.div_le_lower_bound; lia). lia.
    + rewrite Hsv. unfold sv. nia.
  - intros M HM. rewrite Hsv in HM. unfold sv in HM.
    assert (HM' : mx <= M * 2 ^ n) by nia.
    destruct (Z.eq_dec (mx mod 2 ^ n) 0) as [H0|H0].
    + rewrite (Hexact H0). apply Z.div_le_upper_bound; lia.
    + assert (Hne : mx <> M * 2 ^ n)
        by (intros E; apply H0; rewrite E; apply Z.mod_mul; lia).
      assert (mx / 2 ^ n < M) by (apply Z.div_lt_upper_bound; lia). lia.
  - intros M HM. rewrite Hsv in HM. unfold sv in HM.
    assert (HM' : M * 2 ^ n <= mx) by nia.
    assert (M <= mx / 2 ^ n) by (apply Z.div_le_lower_bound; lia). lia.
Qed.

Lemma canon_iff p e : canonical_mantissa 53 1024 p e = true <-> canon (Zpos p) e.
Proof.
  unfold canonical_mantissa, canon. rewrite fexp_eq, Z.eqb_eq.
  destruct (digits2_pos_bounds p) as [Hlo Hhi].
  set (d := Zpos (digits2_pos p)) in *. assert (Hd : 0 < d) by (unfold d; lia).
  split.
  - intros H. assert (Hd53 : d <= 53) by lia.
    pose proof (Z.pow_le_mono_r 2 d 53 ltac:(lia) Hd53).
    repeat split; try lia. intros He. assert (d = 53) by lia.
    replace 52 with (d - 1) by lia. exact Hlo.
  - intros (He & [_ Hm] & Hn).
    assert (Hd53 : d <= 53).
    { change d with (Zdigits2 (Zpos p)). apply Zdigits2_le; lia. }
    destruct (Z.eq_dec e (-1074)) as [->|Hne]; [lia|].
    assert (53 <= d).
    { change d with (Zdigits2 (Zpos p)). apply Zdigits2_ge; [lia|]. apply Hn. lia. }
    lia.
Qed.

Lemma sv_pos m e : 0 < m -> -2148 <= e -> 0 < sv m e.
Proof. intros. unfold sv. pose proof (pow2_pos (e + 2148) ltac:(lia)). nia. Qed.

Lemma sv_mono m m' e : -2148 <= e -> m <= m' -> sv m e <= sv m' e.
Proof. intros. unfold sv. pose proof (pow2_pos (e + 2148) ltac:(lia)). nia. Qed.

Lemma sv_mono_inv m m' e : -2148 <= e -> sv m e <= sv m' e -> m <= m'.
Proof. intros ? H. unfold sv in H. pose proof (pow2_pos (e + 2148) ltac:(lia)). nia. Qed.

(** Re-expressing a value at a lower exponent. *)
Lemma sv_lower m e e0 :
  -2148 <= e0 <= e -> sv m e = sv (m * 2 ^ (e - e0)) e0.
Proof.
  intros H. replace e with (e0 + (e - e0)) at 1 by lia.
  rewrite sv_shift by lia. reflexivity.
Qed.

Lemma canon_lt m1 e1 m2 e2 :
  canon m1 e1 -> canon m2 e2 -> e1 < e2 -> sv m1 e1 < sv m2 e2.
Proof.
  intros (He1 & Hm1 & _) (He2 & Hm2 & Hn2) Hlt.
  rewrite (sv_lower m2 e2 e1) by lia. unfold sv.
  pose proof (pow2_pos (e1 + 2148) ltac:(lia)).
  pose proof (Z.pow_le_mono_r 2 1 (e2 - e1) ltac:(lia) ltac:(lia)) as Hp.
  change (2 ^ 1) with 2 in Hp.
  assert (2 ^ 52 <= m2) by (apply Hn2; lia).
  assert (m1 < m2 * 2 ^ (e2 - e1)) by (change (2 ^ 53) with (2 ^ 52 * 2) in Hm1; nia).
  nia.
Qed.

Lemma leb_canon m1 e1 m2 e2 :
  canon (Zpos m1) e1 -> canon (Zpos m2) e2 ->
  SFleb (S754_finite false m1 e1) (S754_finite false m2 e2) = true
  <-> sv (Zpos m1) e1 <= sv (Zpos m2) e2.
Proof.
  intros H1 H2. unfold SFleb, SFcompare.
  destruct (Z.compare_spec e1 e2) as [->|Hlt|Hgt].
  - change (Pos.compare_cont Eq m1 m2) with (Pos.compare m1 m2).
    destruct H2 as (He & _ & _).
    destruct (Pos.compare_spec m1 m2) as [->|Hm|Hm]; split; intros H; try reflexivity;
      try discriminate; try lia.
    + apply sv_mono; lia.
    + apply sv_mono_inv in H; lia.
  - split; [intros _|reflexivity].
    pose proof (canon_lt _ _ _ _ H1 H2 Hlt). lia.
  - split; [discriminate|]. intros H.
    pose proof (canon_lt _ _ _ _ H2 H1 ltac:(lia)). lia.
Qed.

(** The float that [rounded] builds from a non-zero rounding. *)
Lemma rounded_finite s X m' e1 :
  rounding X m' e1 -> 0 < m' ->
  exists mf ef,
    canon (Zpos mf) ef /\ sv (Zpos mf) ef = sv m' e1
    /\ rounded s m' e1
       = if ef <=? 971 then S754_finite s mf ef else S754_infinity s.
Proof.
  intros [He Hr Hn _ _] Hm'.
  destruct (Z.eq_dec m' (2 ^ 53)) as [->|H53].
  - exists (2 ^ 52)%positive, (e1 + 1). split; [|split].
    + unfold canon. repeat split; lia.
    + rewrite (sv_lower _ (e1 + 1) e1) by lia.
      replace (e1 + 1 - e1) with 1 by lia. reflexivity.
    + reflexivity.
  - destruct m' as [|p|p]; try lia. exists p, e1. split; [|split].
    + unfold canon. repeat split; lia.
    + reflexivity.
    + unfold rounded.
      destruct (Z.eqb_spec (Zpos p) (2 ^ 53)); [contradiction|reflexivity].
Qed.

Lemma rounded_valid s X m' e1 :
  rounding X m' e1 -> valid_binary 53 1024 (rounded s m' e1) = true.
Proof.
  intros HR. destruct (Z.eq_dec m' 0) as [->|H0]; [reflexivity|].
  destruct (rounded_finite s X m' e1 HR) as (mf & ef & Hc & _ & ->).
  { destruct HR. lia. }
  destruct (Z.leb_spec ef 971); [|reflexivity].
  cbn [valid_binary]. unfold bounded. apply canon_iff in Hc. rewrite Hc.
  apply Z.leb_le. cbn. lia.
Qed.

(** Rounding does not cross a number of the format: from below... *)
Lemma rounded_le X m' e1 mc ec :
  rounding X m' e1 ->
  canon (Zpos mc) ec -> ec <= 971 ->
  X <= sv (Zpos mc) ec ->
  SFleb (rounded false m' e1) (S754_finite false mc ec) = true.
Proof.
  intros HR Hc Hec HX.
  assert (HV : sv m' e1 <= sv (Zpos mc) ec).
  { destruct HR as [He Hr Hn Hup _]. destruct (Z_le_gt_dec e1 ec) as [Hle|Hgt].
    - rewrite (sv_lower (Zpos mc) ec e1) in * by lia.
      apply sv_mono; [lia|]. apply Hup. exact HX.
    - exfalso. destruct (Hn ltac:(destruct Hc; lia)) as [Hm52 HX52].
      assert (canon (2 ^ 52) e1) by (unfold canon; repeat split; lia).
      pose proof (canon_lt _ _ _ _ Hc H ltac:(lia)). lia. }
  destruct (Z.eq_dec m' 0) as [->|H0]; [reflexivity|].
  destruct (rounded_finite false X m' e1 HR) as (mf & ef & Hcf & Hsv & ->).
  { destruct HR. lia. }
  rewrite <- Hsv in HV.
  destruct (Z.leb_spec ef 971).
  - apply leb_canon; assumption.
  - exfalso. pose proof (canon_lt _ _ _ _ Hc Hcf ltac:(lia)). lia.
Qed.

(** ... and from above. *)
Lemma rounded_ge X m' e1 mc ec :
  rounding X m' e1 ->
  canon (Zpos mc) ec ->
  sv (Zpos mc) ec <= X ->
  SFleb (S754_finite false mc ec) (rounded false m' e1) = true.
Proof.
  intros HR Hc HX.
  assert (HV : sv (Zpos mc) ec <= sv m' e1).
  { destruct HR as [He Hr Hn _ Hdown]. destruct (Z_le_gt_dec e1 ec) as [Hle|Hgt].
    - rewrite (sv_lower (Zpos mc) ec e1) in * by lia.
      apply sv_mono; [lia|]. apply Hdown. exact HX.
    - destruct (Hn ltac:(destruct Hc; lia)) as [Hm52 HX52].
      assert (canon (2 ^ 52) e1) by (unfold canon; repeat split; lia).
      pose proof (canon_lt _ _ _ _ Hc H ltac:(lia)).
      pose proof (sv_mono (2 ^ 52) m' e1 ltac:(lia) Hm52). lia. }
  assert (Hpos : 0 < sv (Zpos mc) ec) by (apply sv_pos; destruct Hc; lia).
  destruct (Z.eq_dec m' 0) as [->|H0]; [unfold sv in *; lia|].
  destruct (rounded_finite false X m' e1 HR) as (mf & ef & Hcf & Hsv & ->).
  { destruct HR. lia. }
  rewrite <- Hsv in HV.
  destruct (Z.leb_spec ef 971); [|reflexivity].
  apply leb_canon; assumption.
Qed.

Lemma iter_xO m d : Zpos (Pos.iter xO m d) = Zpos m * 2 ^ Zpos d.
Proof.
  induction d as [|d IH] using Pos.peano_ind.
  - cbn [Pos.iter]. rewrite (Pos2Z.inj_xO m). change (2 ^ 1) with 2. lia.
  - rewrite Pos.iter_succ, (Pos2Z.inj_xO (Pos.iter xO m d)), IH.
    rewrite Pos2Z.inj_succ, Z.pow_succ_r by lia. lia.
Qed.

Lemma shl_align_spec m e e' :
  snd (shl_align m e e') = Z.min e e'
  /\ Zpos (fst (shl_align m e e')) = Zpos m * 2 ^ (e - Z.min e e').
Proof.
  unfold shl_align. destruct (e' - e) as [|d|d] eqn:E; cbn [fst snd].
  - replace (Z.min e e') with e by lia. rewrite Z.sub_diag, Z.pow_0_r. lia.
  - replace (Z.min e e') with e by lia. rewrite Z.sub_diag, Z.pow_0_r. lia.
  - replace (Z.min e e') with e' by lia. rewrite iter_xO.
    replace (e - e') with (Zpos d) by lia. lia.
Qed.

Lemma Zdigits2_shift m k :
  0 < m -> 0 <= k -> Zdigits2 (m * 2 ^ k) = Zdigits2 m + k.
Proof.
  intros Hm Hk. destruct (Zdigits2_bounds m Hm) as [[Hlo Hhi] Hd].
  pose proof (pow2_pos k Hk) as Hp.
  assert (Hmk : 0 < m * 2 ^ k) by nia.
  apply Z.le_antisymm.
  - apply Zdigits2_le; [assumption | lia |]. rewrite pow2_split by lia. nia.
  - apply Zdigits2_ge; [assumption|].
    replace (Zdigits2 m + k - 1) with ((Zdigits2 m - 1) + k) by lia.
    rewrite pow2_split by lia. nia.
Qed.

Lemma binary_round_rounding s m e :
  -2148 <= e ->
  exists m' e1,
    rounding (sv (Zpos m) e) m' e1
    /\ binary_round 53 1024 s m e = rounded s m' e1.
Proof.
  intros He. unfold binary_round.
  set (F := fexp 53 1024 (Zpos (digits2_pos m) + e)).
  assert (HF : -1074 <= F) by (unfold F; rewrite fexp_eq; lia).
  destruct (shl_align_spec m e F) as [Hez Hmz].
  destruct (shl_align m e F) as [mz ez]. cbn [fst snd] in Hez, Hmz.
  assert (Hk : 0 <= e - Z.min e F) by lia.
  assert (Hsv : sv (Zpos mz) ez = sv (Zpos m) e).
  { rewrite Hmz, Hez. symmetry. apply sv_lower. lia. }
  assert (Hd : Zdigits2 (Zpos mz) + ez = Zpos (digits2_pos m) + e).
  { rewrite Hmz, Zdigits2_shift by lia. cbn [Zdigits2]. lia. }
  rewrite <- Hsv. apply bra_rounding; [lia | lia |].
  rewrite Hd. fold F. clearbody F. lia.
Qed.

Lemma sv_mul mx ex my ey :
  -1074 <= ex -> -1074 <= ey ->
  sv (mx * my) (ex + ey) * 2 ^ 2148 = sv mx ex * sv my ey.
Proof.
  intros Hx Hy. unfold sv.
  replace (mx * 2 ^ (ex + 2148) * (my * 2 ^ (ey + 2148)))
    with (mx * my * (2 ^ (ex + 2148) * 2 ^ (ey + 2148))) by lia.
  rewrite <- (pow2_split (ex + 2148) (ey + 2148)) by lia.
  replace (ex + 2148 + (ey + 2148)) with ((ex + ey + 2148) + 2148) by lia.
  rewrite (pow2_split (ex + ey + 2148) 2148) by lia. ring.
Qed.

Lemma mul_rounding sx mx ex sy my ey :
  canon (Zpos mx) ex -> canon (Zpos my) ey ->
  exists m' e1,
    rounding (sv (Zpos mx * Zpos my) (ex + ey)) m' e1
    /\ SFmul 53 1024 (S754_finite sx mx ex) (S754_finite sy my ey)
       = rounded (xorb sx sy) m' e1.
Proof.
  intros (Hex & Hmx & Hnx) (Hey & Hmy & Hny). cbn [SFmul].
  rewrite Pos2Z.inj_mul. apply bra_rounding; [lia | lia |].
  rewrite fexp_eq.
  destruct (Z_le_gt_dec (ex + ey) (-1074)) as [Hle|Hgt]; [lia|].
  assert (H52 : 2 ^ 52 <= Zpos mx * Zpos my).
  { destruct (Z.eq_dec ex (-1074)) as [->|Hx].
    - assert (2 ^ 52 <= Zpos my) by (apply Hny; lia). nia.
    - assert (2 ^ 52 <= Zpos mx) by (apply Hnx; lia). nia. }
  pose proof (Zdigits2_ge (Zpos mx * Zpos my) 53 ltac:(lia) H52). lia.
Qed.

Lemma add_rounding mx ex my ey :
  -1074 <= ex -> -1074 <= ey ->
  exists m' e1,
    rounding (sv (Zpos mx) ex + sv (Zpos my) ey) m' e1
    /\ SFadd 53 1024 (S754_finite false mx ex) (S754_finite false my ey)
       = rounded false m' e1.
Proof.
  intros Hx Hy. cbn [SFadd cond_Zopp].
  destruct (shl_align_spec mx ex (Z.min ex ey)) as [_ Hax].
  destruct (shl_align_spec my ey (Z.min ex ey)) as [_ Hay].
  replace (Z.min ex (Z.min ex ey)) with (Z.min ex ey) in Hax by lia.
  replace (Z.min ey (Z.min ex ey)) with (Z.min ex ey) in Hay by lia.
  set (a := fst (shl_align mx ex (Z.min ex ey))) in *.
  set (b := fst (shl_align my ey (Z.min ex ey))) in *.
  change (Zpos a + Zpos b) with (Zpos (a + b)). cbn [binary_normalize].
  replace (sv (Zpos mx) ex + sv (Zpos my) ey) with (sv (Zpos (a + b)) (Z.min ex ey)).
  - apply binary_round_rounding. lia.
  - rewrite Pos2Z.inj_add, Hax, Hay.
    rewrite (sv_lower (Zpos mx) ex (Z.min ex ey)) by lia.
    rewrite (sv_lower (Zpos my) ey (Z.min ex ey)) by lia.
    unfold sv. lia.
Qed.

Lemma sub_rounding mx ex my ey :
  -1074 <= ex -> -1074 <= ey ->
  sv (Zpos my) ey < sv (Zpos mx) ex ->
  exists m' e1,
    rounding (sv (Zpos mx) ex - sv (Zpos my) ey) m' e1
    /\ SFsub 53 1024 (S754_finite false mx ex) (S754_finite false my ey)
       = rounded false m' e1.
Proof.
  intros Hx Hy Hlt. cbn [SFsub cond_Zopp].
  destruct (shl_align_spec mx ex (Z.min ex ey)) as [_ Hax].
  destruct (shl_align_spec my ey (Z.min ex ey)) as [_ Hay].
  replace (Z.min ex (Z.min ex ey)) with (Z.min ex ey) in Hax by lia.
  replace (Z.min ey (Z.min ex ey)) with (Z.min ex ey) in Hay by lia.
  set (a := fst (shl_align mx ex (Z.min ex ey))) in *.
  set (b := fst (shl_align my ey (Z.min ex ey))) in *.
  assert (Hsv : sv (Zpos mx) ex - sv (Zpos my) ey
                = sv (Zpos a - Zpos b) (Z.min ex ey)).
  { rewrite Hax, Hay.
    rewrite (sv_lower (Zpos mx) ex (Z.min ex ey)) by lia.
    rewrite (sv_lower (Zpos my) ey (Z.min ex ey)) by lia.
    unfold sv. lia. }
  rewrite Hsv.
  assert (Hpos : 0 < Zpos a - Zpos b).
  { pose proof (pow2_pos (Z.min ex ey + 2148) ltac:(lia)).
    assert (0 < sv (Zpos a - Zpos b) (Z.min ex ey)) by (rewrite <- Hsv; lia).
    unfold sv in *. nia. }
  destruct (Zpos a - Zpos b) as [|p|p] eqn:E; try lia.
  cbn [binary_normalize]. apply binary_round_rounding. lia.
Qed.

End Rounding.

(** ** Arithmetic on positive numbers of the format *)

Section PositiveNumbers.

Lemma posnum_inv x :
  posnum x = true ->
  exists m e, x = S754_finite false m e /\ canon (Zpos m) e /\ e <= 971.
Proof.
  destruct x as [| | |[|] m e]; try discriminate. cbn [posnum]. unfold bounded.
  intros H. apply andb_true_iff in H. destruct H as [Hc He].
  exists m, e. split; [reflexivity|]. split; [apply canon_iff; exact Hc|].
  apply Z.leb_le in He. exact He.
Qed.

Lemma posnum_intro m e :
  canon (Zpos m) e -> e <= 971 -> posnum (S754_finite false m e) = true.
Proof.
  intros Hc He. cbn [posnum]. unfold bounded. apply andb_true_iff. split.
  - apply canon_iff. exact Hc.
  - apply Z.leb_le. exact He.
Qed.

Lemma posnum_not_nan x : posnum x = true -> is_nan x = false.
Proof. destruct x; try discriminate. reflexivity. Qed.

Lemma posnum_finite_nonzero x : posnum x = true -> is_finite_nonzero x = true.
Proof. destruct x; try discriminate. reflexivity. Qed.

(** What a rounding of a positive value can be. *)
Lemma rounded_shape X m' e1 :
  rounding X m' e1 ->
  rounded false m' e1 = S754_zero false
  \/ rounded false m' e1 = S754_infinity false
  \/ posnum (rounded false m' e1) = true.
Proof.
  intros HR. destruct (Z.eq_dec m' 0) as [->|H0]; [left; reflexivity|].
  destruct (rounded_finite false X m' e1 HR) as (mf & ef & Hc & _ & ->).
  { destruct HR. lia. }
  destruct (Z.leb_spec ef 971); [|right; left; reflexivity].
  right; right. apply posnum_intro; assumption.
Qed.

(** A rounding that lies between two positive numbers is one. *)
Lemma rounded_between X m' e1 a b :
  rounding X m' e1 -> posnum a = true -> posnum b = true ->
  leb a (rounded false m' e1) = true -> leb (rounded false m' e1) b = true ->
  posnum (rounded false m' e1) = true.
Proof.
  intros HR Ha Hb Hla Hlb.
  destruct (posnum_inv a Ha) as (ma & ea & -> & _).
  destruct (posnum_inv b Hb) as (mb & eb & -> & _).
  destruct (rounded_shape X m' e1 HR) as [E|[E|E]]; [| |exact E];
    rewrite E in *; discriminate.
Qed.

Lemma sv_one : sv (2 ^ 52) (-52) = 2 ^ 2148.
Proof. reflexivity. Qed.

Lemma one_canon : canon (Zpos (2 ^ 52)) (-52).
Proof. unfold canon. repeat split; lia. Qed.

Lemma leb_one_sv m e :
  canon (Zpos m) e ->
  (leb (S754_finite false m e) one = true <-> sv (Zpos m) e <= 2 ^ 2148)
  /\ (leb one (S754_finite false m e) = true <-> 2 ^ 2148 <= sv (Zpos m) e).
Proof.
  intros Hc. rewrite <- sv_one. split.
  - apply (leb_canon m e (2 ^ 52) (-52) Hc one_canon).
  - apply (leb_canon (2 ^ 52) (-52) m e one_canon Hc).
Qed.

(** A product of positive numbers is a rounding of the exact product. *)
Lemma mul_posnum x y :
  posnum x = true -> posnum y = true ->
  exists mx ex my ey m' e1,
    x = S754_finite false mx ex /\ y = S754_finite false my ey
    /\ canon (Zpos mx) ex /\ canon (Zpos my) ey /\ ex <= 971 /\ ey <= 971
    /\ rounding (sv (Zpos mx * Zpos my) (ex + ey)) m' e1
    /\ mul x y = rounded false m' e1.
Proof.
  intros Hx Hy.
  destruct (posnum_inv x Hx) as (mx & ex & -> & Hcx & Hex).
  destruct (posnum_inv y Hy) as (my & ey & -> & Hcy & Hey).
  destruct (mul_rounding false mx ex false my ey Hcx Hcy) as (m' & e1 & HR & E).
  exists mx, ex, my, ey, m', e1.
  do 7 (split; [first [reflexivity | assumption]|]). exact E.
Qed.

(** Multiplying by a number that is at most 1 does not increase. *)
Lemma mul_le_left x y :
  posnum x = true -> posnum y = true -> leb y one = true ->
  leb (mul x y) x = true.
Proof.
  intros Hx Hy H1.
  destruct (mul_posnum x y Hx Hy)
    as (mx & ex & my & ey & m' & e1 & -> & -> & Hcx & Hcy & Hex & Hey & HR & ->).
  apply (rounded_le _ m' e1 mx ex HR Hcx Hex).
  apply (leb_one_sv my ey Hcy) in H1.
  pose proof (sv_mul (Zpos mx) ex (Zpos my) ey
                ltac:(destruct Hcx; lia) ltac:(destruct Hcy; lia)) as Hm.
  pose proof (sv_pos (Zpos mx) ex ltac:(lia) ltac:(destruct Hcx; lia)).
  pose proof (pow2_pos 2148 ltac:(lia)).
  generalize dependent (sv (Zpos mx * Zpos my) (ex + ey)).
  generalize dependent (sv (Zpos mx) ex). generalize dependent (sv (Zpos my) ey).
  generalize dependent (2 ^ 2148). intros. nia.
Qed.

(** Multiplying by a number that is at least 1 does not decrease. *)
Lemma mul_ge_left x y :
  posnum x = true -> posnum y = true -> leb one y = true ->
  leb x (mul x y) = true.
Proof.
  intros Hx Hy H1.
  destruct (mul_posnum x y Hx Hy)
    as (mx & ex & my & ey & m' & e1 & -> & -> & Hcx & Hcy & Hex & Hey & HR & ->).
  apply (rounded_ge _ m' e1 mx ex HR Hcx).
  apply (leb_one_sv my ey Hcy) in H1.
  pose proof (sv_mul (Zpos mx) ex (Zpos my) ey
                ltac:(destruct Hcx; lia) ltac:(destruct Hcy; lia)) as Hm.
  pose proof (sv_pos (Zpos mx) ex ltac:(lia) ltac:(destruct Hcx; lia)).
  pose proof (pow2_pos 2148 ltac:(lia)).
  generalize dependent (sv (Zpos mx * Zpos my) (ex + ey)).
  generalize dependent (sv (Zpos mx) ex). generalize dependent (sv (Zpos my) ey).
  generalize dependent (2 ^ 2148). intros. nia.
Qed.

(** Adding a positive number does not decrease. *)
Lemma add_ge_left x t :
  posnum x = true -> posnum t = true ->
  leb x (add x t) = true
  /\ exists X m' e1, rounding X m' e1 /\ add x t = rounded false m' e1.
Proof.
  intros Hx Ht.
  destruct (posnum_inv x Hx) as (mx & ex & -> & Hcx & Hex).
  destruct (posnum_inv t Ht) as (mt & et & -> & Hct & Het).
  destruct (add_rounding mx ex mt et ltac:(destruct Hcx; lia)
              ltac:(destruct Hct; lia)) as (m' & e1 & HR & E).
  unfold add, prec, emax. rewrite E. split.
  - apply (rounded_ge _ m' e1 mx ex HR Hcx).
    pose proof (sv_pos (Zpos mt) et ltac:(lia) ltac:(destruct Hct; lia)). lia.
  - eauto.
Qed.

(** The difference of two positive numbers, the larger first, is a
    rounding of a positive value. *)
Lemma sub_posnum b x :
  posnum b = true -> posnum x = true -> ltb x b = true ->
  exists X m' e1, rounding X m' e1 /\ sub b x = rounded false m' e1.
Proof.
  intros Hb Hx Hlt.
  destruct (posnum_inv b Hb) as (mb & eb & -> & Hcb & Heb).
  destruct (posnum_inv x Hx) as (mx & ex & -> & Hcx & Hex).
  assert (Hsv : sv (Zpos mx) ex < sv (Zpos mb) eb).
  { apply ltb_leb_excl in Hlt.
    destruct (Z_lt_le_dec (sv (Zpos mx) ex) (sv (Zpos mb) eb)) as [|Hle];
      [assumption|].
    apply (leb_canon mb eb mx ex Hcb Hcx) in Hle.
    unfold leb in Hlt. congruence. }
  destruct (sub_rounding mb eb mx ex ltac:(destruct Hcb; lia)
              ltac:(destruct Hcx; lia) Hsv) as (m' & e1 & HR & E).
  unfold sub, prec, emax. rewrite E. eauto.
Qed.

End PositiveNumbers.

(** ** Adaptive multiplier *)

Section MultiplierFacts.

Import Adaptive.

Lemma code_max x a :
  is_nan a = false -> (if ltb x a then a else x) = fmax x a.
Proof.
  intros Ha. unfold ltb, SFltb, fmax.
  destruct (SFcompare x a) as [[| |]|] eqn:E; try reflexivity.
  apply SFcompare_None in E. destruct E as [E|E]; [|congruence].
  destruct x; try discriminate. reflexivity.
Qed.

Lemma code_min x b :
  is_nan b = false -> (if gtb x b then b else x) = fmin x b.
Proof.
  intros Hb. unfold gtb, SFltb, fmin. rewrite (SFcompare_antisym x b).
  destruct (SFcompare x b) as [[| |]|] eqn:E; try reflexivity.
  apply SFcompare_None in E. destruct E as [E|E]; [|congruence].
  destruct x; try discriminate. reflexivity.
Qed.

(** The multiplier of a domain after its tick, and of the others. *)
Lemma tick_domain_spec v name d ms :
  Vars.AdaptiveRateLimitEnabled v = true ->
  is_nan (Vars.AdaptiveAttackMultiplier v) = false ->
  is_nan (Vars.AdaptiveBaseMultiplier v) = false ->
  GetAdaptiveMultiplier v name (tick_domain v name d ms)
  = next_multiplier v d (GetAdaptiveMultiplier v name ms)
  /\ forall name', name <> name' ->
       GetAdaptiveMultiplier v name' (tick_domain v name d ms)
       = GetAdaptiveMultiplier v name' ms.
Proof.
  intros Hen Ha Hb.
  assert (Hc : is_nan (mul (Vars.AdaptiveAttackMultiplier v) (lit 15 10)) = false)
    by (apply mul_not_nan; [exact Ha | reflexivity]).
  unfold tick_domain, UpdateAdaptiveMultiplier, GetAdaptiveMultiplier,
    next_multiplier.
  rewrite Hen; cbn [negb].
  set (m := match ms !! name with
            | Some m => m
            | None => Vars.AdaptiveBaseMultiplier v
            end).
  destruct (BypassAttack d) eqn:Hby.
  - rewrite orb_true_r. split.
    + rewrite lookup_insert_eq. apply code_max. exact Ha.
    + intros name' Hne. rewrite lookup_insert_ne by exact Hne. reflexivity.
  - rewrite orb_false_r. destruct (RawAttack d) eqn:Hraw.
    + split.
      * rewrite lookup_insert_eq. apply code_max. exact Hc.
      * intros name' Hne. rewrite lookup_insert_ne by exact Hne. reflexivity.
    + destruct (ltb m (Vars.AdaptiveBaseMultiplier v)) eqn:Hlt.
      * split.
        -- rewrite lookup_insert_eq. apply code_min. exact Hb.
        -- intros name' Hne. rewrite lookup_insert_ne by exact Hne. reflexivity.
      * split; [|reflexivity]. unfold m. destruct (ms !! name); reflexivity.
Qed.

Lemma rounded_not_nan X m' e1 :
  rounding X m' e1 -> is_nan (rounded false m' e1) = false.
Proof.
  intros HR. destruct (rounded_shape X m' e1 HR) as [E|[E|E]];
    [rewrite E; reflexivity | rewrite E; reflexivity | apply posnum_not_nan; exact E].
Qed.

Lemma in_band_base v : sane v -> in_band v (Vars.AdaptiveBaseMultiplier v).
Proof.
  intros (Ha & Hb & Hr & Ha1 & Hab). split; [exact Hb|]. split.
  - apply (leb_trans _ (mul (Vars.AdaptiveAttackMultiplier v) (lit 15 10)));
      [|exact Hab].
    apply mul_ge_left; [exact Ha | reflexivity | reflexivity].
  - apply leb_refl. apply posnum_not_nan. exact Hb.
Qed.

(** One tick keeps a multiplier inside the band. *)
Lemma next_in_band v d m :
  sane v -> in_band v m -> in_band v (next_multiplier v d m).
Proof.
  intros Hs (Hm & Ham & Hmb).
  pose proof (in_band_base v Hs) as (_ & Hab' & Hbb).
  destruct Hs as (Ha & Hb & Hr & Ha1 & Hab).
  set (a := Vars.AdaptiveAttackMultiplier v) in *.
  set (b := Vars.AdaptiveBaseMultiplier v) in *.
  set (r := Vars.AdaptiveDecayRate v) in *.
  pose proof (posnum_not_nan a Ha) as Hna.
  pose proof (posnum_not_nan b Hb) as Hnb.
  unfold next_multiplier. fold a b r.
  destruct (BypassAttack d).
  { (* bypass attack *)
    destruct (mul_posnum m a Hm Ha)
      as (? & ? & ? & ? & m' & e1 & _ & _ & _ & _ & _ & _ & HR & E).
    pose proof (mul_le_left m a Hm Ha Ha1) as Hle.
    rewrite E in *.
    destruct (fmax_is_max (rounded false m' e1) a
                (rounded_not_nan _ _ _ HR) Hna) as (_ & Hge & [Hx|Hx]);
      rewrite Hx in *.
    - split; [|split].
      + apply (rounded_between _ m' e1 a b HR Ha Hb Hge).
        apply (leb_trans _ m); assumption.
      + exact Hge.
      + apply (leb_trans _ m); assumption.
    - split; [exact Ha|]. split; [exact Hge | exact Hab']. }
  destruct (RawAttack d).
  { (* raw attack only *)
    set (c := mul a (lit 15 10)) in *.
    assert (Hac : leb a c = true)
      by (apply mul_ge_left; [exact Ha | reflexivity | reflexivity]).
    destruct (mul_posnum a (lit 15 10) Ha eq_refl)
      as (? & ? & ? & ? & mc & ec & _ & _ & _ & _ & _ & _ & HRc & Ec).
    fold c in Ec.
    assert (Hpc : posnum c = true).
    { rewrite Ec in *. apply (rounded_between _ mc ec a b HRc Ha Hb Hac Hab). }
    destruct (mul_posnum m (lit 7 10) Hm eq_refl)
      as (? & ? & ? & ? & m' & e1 & _ & _ & _ & _ & _ & _ & HR & E).
    pose proof (mul_le_left m (lit 7 10) Hm eq_refl eq_refl) as Hle.
    rewrite E in *.
    destruct (fmax_is_max (rounded false m' e1) c
                (rounded_not_nan _ _ _ HR) (posnum_not_nan c Hpc))
      as (_ & Hge & [Hx|Hx]); rewrite Hx in *.
    - assert (Hax : leb a (rounded false m' e1) = true)
        by (apply (leb_trans _ c); assumption).
      split; [|split].
      + apply (rounded_between _ m' e1 a b HR Ha Hb Hax).
        apply (leb_trans _ m); assumption.
      + exact Hax.
      + apply (leb_trans _ m); assumption.
    - split; [exact Hpc|]. split; [exact Hac | exact Hab]. }
  destruct (ltb m b) eqn:Hlt; [|split; [exact Hm|split; assumption]].
  (* recovery *)
  assert (Hstay : in_band v (fmin m b)).
  { unfold fmin. unfold ltb, SFltb in Hlt.
    destruct (SFcompare m b) as [[| |]|]; try discriminate.
    split; [exact Hm|split; assumption]. }
  assert (Htop : in_band v (fmin (S754_infinity false) b)).
  { replace (fmin (S754_infinity false) b) with b;
      [split; [exact Hb|split; assumption]|].
    destruct (posnum_inv b Hb) as (mb & eb & Eb & _). rewrite Eb. reflexivity. }
  destruct (posnum_inv m Hm) as (mm & em & Em & _).
  destruct (posnum_inv r Hr) as (mr & er & Er & _).
  assert (Hgrow : forall t, posnum t = true -> in_band v (fmin (add m t) b)).
  { intros t Ht. destruct (add_ge_left m t Hm Ht) as (Hge & X & m' & e1 & HR & E).
    rewrite E in *.
    destruct (fmin_is_min (rounded false m' e1) b
                (rounded_not_nan _ _ _ HR) Hnb) as (_ & Hle & [Hx|Hx]);
      rewrite Hx in *.
    - assert (Hax : leb a (rounded false m' e1) = true)
        by (apply (leb_trans _ m); assumption).
      split; [|split; assumption].
      apply (rounded_between _ m' e1 a b HR Ha Hb Hax Hle).
    - split; [exact Hb|split; assumption]. }
  assert (Hz : add m (S754_zero false) = m) by (rewrite Em; reflexivity).
  assert (Hi : add m (S754_infinity false) = S754_infinity false)
    by (rewrite Em; reflexivity).
  assert (Hzr : mul (S754_zero false) r = S754_zero false)
    by (rewrite Er; reflexivity).
  assert (Hir : mul (S754_infinity false) r = S754_infinity false)
    by (rewrite Er; reflexivity).
  destruct (sub_posnum b m Hb Hm Hlt) as (X1 & m1 & e1 & HR1 & E1).
  rewrite E1.
  destruct (rounded_shape X1 m1 e1 HR1) as [Es|[Es|Es]].
  - rewrite Es, Hzr, Hz. exact Hstay.
  - rewrite Es, Hir, Hi. exact Htop.
  - destruct (mul_posnum _ r Es Hr)
      as (? & ? & ? & ? & m2 & e2 & _ & _ & _ & _ & _ & _ & HR2 & E2).
    rewrite E2.
    destruct (rounded_shape _ m2 e2 HR2) as [Et|[Et|Et]].
    + rewrite Et, Hz. exact Hstay.
    + rewrite Et, Hi. exact Htop.
    + apply Hgrow. exact Et.
Qed.

Lemma all_in_band_empty v :
  Vars.AdaptiveRateLimitEnabled v = true -> sane v -> all_in_band v ∅.
Proof.
  intros Hen Hs name. unfold GetAdaptiveMultiplier.
  rewrite Hen, lookup_empty. cbn. apply in_band_base. exact Hs.
Qed.

Lemma sane_not_nan v :
  sane v ->
  is_nan (Vars.AdaptiveAttackMultiplier v) = false
  /\ is_nan (Vars.AdaptiveBaseMultiplier v) = false.
Proof.
  intros (Ha & Hb & _). split; apply posnum_not_nan; assumption.
Qed.

Lemma tick_domain_in_band v name d ms :
  Vars.AdaptiveRateLimitEnabled v = true -> sane v ->
  all_in_band v ms -> all_in_band v (tick_domain v name d ms).
Proof.
  intros Hen Hs Hall name'.
  destruct (sane_not_nan v Hs) as [Ha Hb].
  destruct (tick_domain_spec v name d ms Hen Ha Hb) as [Hsame Hother].
  destruct (decide (name = name')) as [<-|Hne].
  - rewrite Hsame. apply next_in_band; [exact Hs | apply Hall].
  - rewrite Hother by exact Hne. apply Hall.
Qed.

Lemma run_ticks_in_band v ds :
  Vars.AdaptiveRateLimitEnabled v = true -> sane v ->
  all_in_band v (run_ticks v ds).
Proof.
  intros Hen Hs. unfold run_ticks.
  assert (H : forall ms, all_in_band v ms ->
            all_in_band v (fold_left
              (fun ms doms => map_fold (tick_domain v) ms doms) ds ms)).
  { induction ds as [|doms ds IH]; intros ms Hms; [exact Hms|].
    cbn [fold_left]. apply IH.
    apply (map_fold_weak_ind (fun r _ => all_in_band v r)); [exact Hms|].
    intros name d m r _ Hr. apply tick_domain_in_band; assumption. }
  apply H. apply all_in_band_empty; assumption.
Qed.

(** C7 (as amended). With adaptive limits on and multipliers that are not
    NaN, one tick of a domain with multiplier m (the base multiplier if it
    has none) sets it to max(m * attack, attack) under a bypass attack, to
    max(m * 0.7, attack * 1.5) under a raw attack only, to
    min(m + (base - m) * decay, base) without attack when m < base, and
    leaves it alone without attack when m is not below base. When the
    three configured multipliers are positive numbers with attack <= 1 and
    attack * 1.5 <= base, every multiplier stays in [attack, base] through
    any sequence of ticks. *)
Theorem C7_tick_formulas_and_band v :
  Vars.AdaptiveRateLimitEnabled v = true ->
  is_nan (Vars.AdaptiveAttackMultiplier v) = false ->
  is_nan (Vars.AdaptiveBaseMultiplier v) = false ->
  (forall name d ms,
     let m := GetAdaptiveMultiplier v name ms in
     let m' := GetAdaptiveMultiplier v name (tick_domain v name d ms) in
     (BypassAttack d = true ->
      m' = fmax (mul m (Vars.AdaptiveAttackMultiplier v))
                (Vars.AdaptiveAttackMultiplier v))
     /\ (BypassAttack d = false -> RawAttack d = true ->
         m' = fmax (mul m (lit 7 10))
                   (mul (Vars.AdaptiveAttackMultiplier v) (lit 15 10)))
     /\ (BypassAttack d = false -> RawAttack d = false ->
         ltb m (Vars.AdaptiveBaseMultiplier v) = true ->
         m' = fmin (add m (mul (sub (Vars.AdaptiveBaseMultiplier v) m)
                               (Vars.AdaptiveDecayRate v)))
                   (Vars.AdaptiveBaseMultiplier v))
     /\ (BypassAttack d = false -> RawAttack d = false ->
         ltb m (Vars.AdaptiveBaseMultiplier v) = false ->
         m' = m))
  /\ (sane v ->
      forall ds name,
        let m := GetAdaptiveMultiplier v name (run_ticks v ds) in
        leb (Vars.AdaptiveAttackMultiplier v) m = true
        /\ leb m (Vars.AdaptiveBaseMultiplier v) = true).
Proof.
  intros Hen Ha Hb. split.
  - intros name d ms m m'. unfold m'.
    rewrite (proj1 (tick_domain_spec v name d ms Hen Ha Hb)).
    fold m. unfold next_multiplier.
    repeat split; intros; repeat match goal with
                                 | H : _ = _ |- _ => rewrite H
                                 end; reflexivity.
  - intros Hs ds name m.
    destruct (run_ticks_in_band v ds Hen Hs name) as (_ & Hlo & Hhi).
    split; assumption.
Qed.

(** The initial multipliers 0.3, 1.0 and 0.1 are sane. *)
Lemma initial_sane : sane Vars.initial.
Proof. unfold sane. repeat split; vm_compute; reflexivity. Qed.

Lemma C7_tick_formulas_and_band_witness :
  (forall name d ms,
     let m := GetAdaptiveMultiplier Vars.initial name ms in
     let m' := GetAdaptiveMultiplier Vars.initial name
                 (tick_domain Vars.initial name d ms) in
     (BypassAttack d = true ->
      m' = fmax (mul m (Vars.AdaptiveAttackMultiplier Vars.initial))
                (Vars.AdaptiveAttackMultiplier Vars.initial))
     /\ (BypassAttack d = false -> RawAttack d = true ->
         m' = fmax (mul m (lit 7 10))
                   (mul (Vars.AdaptiveAttackMultiplier Vars.initial) (lit 15 10)))
     /\ (BypassAttack d = false -> RawAttack d = false ->
         ltb m (Vars.AdaptiveBaseMultiplier Vars.initial) = true ->
         m' = fmin (add m (mul (sub (Vars.AdaptiveBaseMultiplier Vars.initial) m)
                               (Vars.AdaptiveDecayRate Vars.initial)))
                   (Vars.AdaptiveBaseMultiplier Vars.initial))
     /\ (BypassAttack d = false -> RawAttack d = false ->
         ltb m (Vars.AdaptiveBaseMultiplier Vars.initial) = false ->
         m' = m))
  /\ (forall ds name,
        let m := GetAdaptiveMultiplier Vars.initial name
                   (run_ticks Vars.initial ds) in
        leb (Vars.AdaptiveAttackMultiplier Vars.initial) m = true
        /\ leb m (Vars.AdaptiveBaseMultiplier Vars.initial) = true).
Proof.
  destruct (C7_tick_formulas_and_band Vars.initial eq_refl eq_refl eq_refl)
    as [Hformulas Hband].
  split; [exact Hformulas | exact (Hband initial_sane)].
Defined.

(** The recovery of the specification: from 0.3, ten calm ticks lead to a
    multiplier between 0.75 and 0.76. *)
Example recovery_after_ten_ticks :
  let calm := {| Stage := 1; RawAttack := false; BypassAttack := false;
                 Stage2Difficulty := 5 |} in
  let under := {| Stage := 3; RawAttack := true; BypassAttack := true;
                  Stage2Difficulty := 5 |} in
  let ms := run_ticks Vars.initial
              ({["example.com" := under]}
               :: repeat {["example.com" := calm]} 10) in
  let m := GetAdaptiveMultiplier Vars.initial "example.com" ms in
  leb (lit 75 100) m = true /\ leb m (lit 76 100) = true.
Proof. split; vm_compute; reflexivity. Qed.

(** C7 as stated fails: with AttackMultiplier 0.8 in the configuration
    file, one tick under a raw attack sets the multiplier of a fresh domain
    to 0.8 * 1.5, which is above 1.0. *)
Lemma C7_counterexample :
  let v := Vars.Load (config_attack_multiplier (lit 8 10)) Vars.initial in
  let raw := {| Stage := 2; RawAttack := true; BypassAttack := false;
                Stage2Difficulty := 5 |} in
  let m' := GetAdaptiveMultiplier v "example.com"
              (tick_domain v "example.com" raw ∅) in
  Vars.AdaptiveAttackMultiplier v = lit 8 10
  /\ m' = mul (lit 8 10) (lit 15 10)
  /\ leb m' (of_int 1) = false.
Proof. repeat split; vm_compute; reflexivity. Qed.

End MultiplierFacts.
(** * Part III: further properties of the code *)

(** ** Reputation store: records, decay, persistence *)

Section ReputationStoreFacts.

Import Reputation.
Local Open Scope go_scope.




Lemma ReputationDecayTick_returns v now s :
  ReputationMutex s = Unlocked ->
  ReputationDecayTick v now s =
    Returns tt
      {| ReputationScores := decay_entry v now <$> ReputationScores s;
         ReputationMutex := Unlocked;
         ReputationDB :=
           if Vars.ReputationPersistToDB v
           then (fun db =>
                   (decay_record now <$>
                      filter (fun kv => stale v now (snd kv) = true)
                             (ReputationScores s)) ∪ db) <$> ReputationDB s
           else ReputationDB s |}.
Proof.
  intros Hmu. unfold ReputationDecayTick, bind, Lock, Unlock, modify.
  rewrite Hmu. reflexivity.
Qed.

Lemma IsIPBlocked_returns v ip s :
  ReputationMutex s <> WLocked ->
  IsIPBlocked v ip s =
    Returns (Vars.ReputationEnabled v
             && (score_of v s ip <? Vars.ReputationMinScore v)) s.
Proof.
  intros Hmu. unfold IsIPBlocked.
  destruct (Vars.ReputationEnabled v) eqn:Hen; cbn; [|reflexivity].
  unfold bind. rewrite GetReputationScore_returns by assumption. reflexivity.
Qed.

Lemma toward_default_0 score : toward_default score 0 = score.
Proof. unfold toward_default. destruct (Z.ltb_spec score 50); lia. Qed.

Lemma toward_default_step score n :
  0 <= n ->
  toward_default (toward_default score 1) n = toward_default score (n + 1).
Proof.
  intros Hn. unfold toward_default.
  repeat match goal with
         | |- context [?a <? ?b] => destruct (Z.ltb_spec a b)
         end; lia.
Qed.

Lemma toward_default_range score n :
  0 <= n -> in_range score -> in_range (toward_default score n).
Proof.
  unfold in_range, min_int, max_int, toward_default. intros Hn Hr.
  destruct (Z.ltb_spec score 50); lia.
Qed.

Lemma decayed_score_toward score :
  in_range score -> decayed_score score = toward_default score 1.
Proof.
  intros Hr. destruct (decayed_score_spec score Hr) as (Hlt & Hgt & Heq).
  unfold toward_default. destruct (Z.ltb_spec score 50).
  - rewrite Hlt by assumption. lia.
  - destruct (Z.eq_dec score 50) as [E|E].
    + rewrite Heq by assumption. lia.
    + rewrite Hgt by lia. lia.
Qed.

(** The least and the greatest score are kept by a decay step. *)
Lemma decayed_score_bounds score :
  MinReputationScore <= score <= MaxReputationScore ->
  MinReputationScore <= decayed_score score <= MaxReputationScore
  /\ Z.abs (decayed_score score - DefaultReputationScore)
     <= Z.abs (score - DefaultReputationScore).
Proof.
  unfold MinReputationScore, MaxReputationScore, DefaultReputationScore.
  intros Hr.
  rewrite decayed_score_toward
    by (unfold in_range, min_int, max_int; lia).
  unfold toward_default. destruct (Z.ltb_spec score 50); lia.
Qed.

Lemma last_cons {A} (t : A) ts d : List.last (t :: ts) d = List.last ts t.
Proof.
  revert t d. induction ts as [|a r IH]; intros t d; [reflexivity|].
  change (List.last (t :: a :: r) d) with (List.last (a :: r) d).
  rewrite !(IH a). reflexivity.
Qed.

(** The runs of the decay routine, for one record. *)
Lemma decay_ticks_spec v ts : forall s ip data,
  ReputationMutex s = Unlocked ->
  ReputationScores s !! ip = Some data ->
  in_range (Score data) ->
  spaced (decay_interval v) (LastDecay data) ts ->
  exists s' data',
    decay_ticks v ts s = Returns tt s'
    /\ ReputationMutex s' = Unlocked
    /\ ReputationScores s' !! ip = Some data'
    /\ Score data' = toward_default (Score data) (Z.of_nat (length ts))
    /\ LastDecay data' = List.last ts (LastDecay data)
    /\ LastUpdated data' = LastUpdated data.
Proof.
  induction ts as [|t ts IH]; intros s ip data Hmu Hip Hr Hsp.
  - exists s, data. cbn. rewrite toward_default_0. repeat split; assumption.
  - destruct Hsp as [Hst Hsp]. cbn [decay_ticks]. unfold bind.
    rewrite ReputationDecayTick_returns by assumption.
    set (s1 := {| ReputationScores := _; ReputationMutex := _; ReputationDB := _ |}).
    assert (H1 : ReputationScores s1 !! ip = Some (decay_record t data)).
    { cbn. rewrite lookup_fmap, Hip. cbn. unfold decay_entry, stale.
      destruct (Z.leb_spec (decay_interval v) (Sub t (LastDecay data))); [|lia].
      reflexivity. }
    destruct (IH s1 ip (decay_record t data) eq_refl H1) as (s' & data' & E & Hm' & Hl' & Hs' & Hd' & Hu').
    { cbn. rewrite decayed_score_toward by assumption.
      apply toward_default_range; [lia|assumption]. }
    { exact Hsp. }
    exists s', data'. split; [exact E|]. split; [exact Hm'|].
    split; [exact Hl'|]. cbn in Hs', Hd', Hu'.
    split; [|split; [|exact Hu']].
    + rewrite Hs', decayed_score_toward by assumption.
      rewrite toward_default_step by lia. f_equal.
      cbn [length]. lia.
    + rewrite Hd'. symmetry. apply last_cons.
Qed.

(** X2. Decay ticks walk a score to the default. After ticks of the decay
    routine at instants that are each at least one decay interval after
    the one before (the first after the last decay of the record), the
    score has moved by one point per tick toward 50 and stays at 50 once
    there; the decay time of the record is the last tick and its update
    time is untouched. *)
Theorem decay_ticks_move_score_toward_default v ts s ip data :
  ReputationMutex s = Unlocked ->
  ReputationScores s !! ip = Some data ->
  in_range (Score data) ->
  spaced (decay_interval v) (LastDecay data) ts ->
  exists s' data',
    decay_ticks v ts s = Returns tt s'
    /\ ReputationMutex s' = Unlocked
    /\ ReputationScores s' !! ip = Some data'
    /\ Score data' = toward_default (Score data) (Z.of_nat (length ts))
    /\ LastDecay data' = List.last ts (LastDecay data)
    /\ LastUpdated data' = LastUpdated data.
Proof.
  intros Hmu Hip Hr Hsp.
  exact (decay_ticks_spec v ts s ip data Hmu Hip Hr Hsp).
Qed.

(** Score 20, two hourly ticks: 22. *)
Lemma decay_ticks_move_score_toward_default_witness :
  exists s' data',
    decay_ticks Vars.initial [3600 * Second; 7200 * Second]
      (sample_store "203.0.113.9" 20 0) = Returns tt s'
    /\ ReputationMutex s' = Unlocked
    /\ ReputationScores s' !! "203.0.113.9" = Some data'
    /\ Score data' = toward_default 20 2
    /\ LastDecay data' = 7200 * Second
    /\ LastUpdated data' = 0.
Proof.
  apply (decay_ticks_move_score_toward_default Vars.initial
           [3600 * Second; 7200 * Second] (sample_store "203.0.113.9" 20 0)
           "203.0.113.9" (sample_record "203.0.113.9" 20 0)).
  - reflexivity.
  - reflexivity.
  - vm_compute. split; discriminate.
  - cbn. repeat split; vm_compute; discriminate.
Defined.

(** X3. A blocked address recovers by decay alone. With reputation on and
    a blocking threshold of at most 50, after [n] such ticks [IsIPBlocked]
    answers true exactly when the score before the ticks plus [n] is still
    below the threshold. *)
Theorem blocked_address_recovers_by_decay v ts s ip data :
  Vars.ReputationEnabled v = true ->
  Vars.ReputationMinScore v <= DefaultReputationScore ->
  ReputationMutex s = Unlocked ->
  ReputationScores s !! ip = Some data ->
  in_range (Score data) ->
  spaced (decay_interval v) (LastDecay data) ts ->
  exists s',
    decay_ticks v ts s = Returns tt s'
    /\ IsIPBlocked v ip s'
       = Returns (Score data + Z.of_nat (length ts) <? Vars.ReputationMinScore v) s'.
Proof.
  unfold DefaultReputationScore. intros Hen Hmin Hmu Hip Hr Hsp.
  destruct (decay_ticks_spec v ts s ip data Hmu Hip Hr Hsp)
    as (s' & data' & E & Hm' & Hl' & Hs' & _).
  exists s'. split; [exact E|].
  rewrite IsIPBlocked_returns by (rewrite Hm'; discriminate).
  rewrite Hen. cbn. f_equal. unfold score_of. rewrite Hen, Hl', Hs'.
  unfold toward_default.
  destruct (Z.ltb_spec (Score data) 50);
    repeat match goal with
           | |- context [?a <? ?b] => destruct (Z.ltb_spec a b)
           end; try reflexivity; lia.
Qed.

(** Score 18 with threshold 20: blocked, and free after two hourly ticks. *)
Lemma blocked_address_recovers_by_decay_witness :
  exists s',
    decay_ticks Vars.initial [3600 * Second; 7200 * Second]
      (sample_store "203.0.113.9" 18 0) = Returns tt s'
    /\ IsIPBlocked Vars.initial "203.0.113.9" s' = Returns false s'.
Proof.
  apply (blocked_address_recovers_by_decay Vars.initial
           [3600 * Second; 7200 * Second] (sample_store "203.0.113.9" 18 0)
           "203.0.113.9" (sample_record "203.0.113.9" 18 0)).
  - reflexivity.
  - vm_compute. discriminate.
  - reflexivity.
  - reflexivity.
  - vm_compute. split; discriminate.
  - cbn. repeat split; vm_compute; discriminate.
Defined.

(** X4. A decay tick neither adds nor removes a record. A score within
    [0, 100] stays within [0, 100] and does not move away from 50, and the
    update time of the record is kept. *)
Theorem decay_tick_keeps_records_and_bounds v now s :
  ReputationMutex s = Unlocked ->
  exists s',
    ReputationDecayTick v now s = Returns tt s'
    /\ (forall ip, ReputationScores s' !! ip = None
                   <-> ReputationScores s !! ip = None)
    /\ (forall ip data data',
          ReputationScores s !! ip = Some data ->
          ReputationScores s' !! ip = Some data' ->
          MinReputationScore <= Score data <= MaxReputationScore ->
          MinReputationScore <= Score data' <= MaxReputationScore
          /\ Z.abs (Score data' - DefaultReputationScore)
             <= Z.abs (Score data - DefaultReputationScore)
          /\ LastUpdated data' = LastUpdated data).
Proof.
  intros Hmu. rewrite ReputationDecayTick_returns by assumption.
  eexists. split; [reflexivity|]. cbn. split.
  - intros ip. rewrite lookup_fmap. destruct (ReputationScores s !! ip); cbn;
      split; congruence.
  - intros ip data data' Hip Hip' Hr. rewrite lookup_fmap, Hip in Hip'.
    cbn in Hip'. injection Hip' as <-. unfold decay_entry.
    destruct (stale v now data); cbn.
    + destruct (decayed_score_bounds (Score data) Hr) as [? ?]. auto.
    + repeat split; try lia; apply Hr.
Qed.

Lemma decay_tick_keeps_records_and_bounds_witness :
  exists s',
    ReputationDecayTick Vars.initial (3600 * Second)
      (sample_store "203.0.113.9" 20 0) = Returns tt s'
    /\ (forall ip, ReputationScores s' !! ip = None
                   <-> ReputationScores (sample_store "203.0.113.9" 20 0) !! ip
                       = None)
    /\ (forall ip data data',
          ReputationScores (sample_store "203.0.113.9" 20 0) !! ip = Some data ->
          ReputationScores s' !! ip = Some data' ->
          MinReputationScore <= Score data <= MaxReputationScore ->
          MinReputationScore <= Score data' <= MaxReputationScore
          /\ Z.abs (Score data' - DefaultReputationScore)
             <= Z.abs (Score data - DefaultReputationScore)
          /\ LastUpdated data' = LastUpdated data).
Proof.
  apply (decay_tick_keeps_records_and_bounds Vars.initial (3600 * Second)
           (sample_store "203.0.113.9" 20 0)).
  reflexivity.
Defined.

(** X5. With persistence on and the database open, a decay tick writes
    every record it changes: after the tick the bucket holds, for each
    stale record, the decayed record that the map holds; the other keys of
    the bucket are as before. *)
Theorem decay_tick_saves_the_decayed_records v now s db :
  Vars.ReputationPersistToDB v = true ->
  ReputationMutex s = Unlocked ->
  ReputationDB s = Some db ->
  exists s' db',
    ReputationDecayTick v now s = Returns tt s'
    /\ ReputationDB s' = Some db'
    /\ forall ip,
         match ReputationScores s !! ip with
         | Some data =>
             if stale v now data
             then db' !! ip = Some (decay_record now data)
                  /\ ReputationScores s' !! ip = Some (decay_record now data)
             else db' !! ip = db !! ip
         | None => db' !! ip = db !! ip
         end.
Proof.
  intros Hp Hmu Hdb. rewrite ReputationDecayTick_returns by assumption.
  rewrite Hp, Hdb. eexists. eexists. split; [reflexivity|]. cbn.
  split; [reflexivity|]. intros ip.
  destruct (ReputationScores s !! ip) as [data|] eqn:Hip.
  - destruct (stale v now data) eqn:Hst.
    + split.
      * apply lookup_union_Some_l. rewrite lookup_fmap.
        rewrite (map_lookup_filter_Some_2 _ _ ip data Hip Hst). reflexivity.
      * rewrite lookup_fmap, Hip. cbn. unfold decay_entry. rewrite Hst.
        reflexivity.
    + apply lookup_union_r. rewrite lookup_fmap.
      rewrite map_lookup_filter_None_2; [reflexivity|].
      right. intros x Hx. rewrite Hip in Hx. injection Hx as <-. cbn.
      congruence.
  - apply lookup_union_r. rewrite lookup_fmap.
    rewrite map_lookup_filter_None_2; [reflexivity|]. left. exact Hip.
Qed.

Lemma decay_tick_saves_the_decayed_records_witness :
  exists s' db',
    ReputationDecayTick Vars.initial (3600 * Second)
      (sample_store_db "203.0.113.9" 20 0) = Returns tt s'
    /\ ReputationDB s' = Some db'
    /\ db' !! "203.0.113.9"
       = Some (decay_record (3600 * Second) (sample_record "203.0.113.9" 20 0))
    /\ ReputationScores s' !! "203.0.113.9" = db' !! "203.0.113.9".
Proof.
  destruct (decay_tick_saves_the_decayed_records Vars.initial (3600 * Second)
              (sample_store_db "203.0.113.9" 20 0) ∅ eq_refl eq_refl eq_refl)
    as (s' & db' & H1 & H2 & H3).
  exists s', db'. split; [exact H1|]. split; [exact H2|].
  specialize (H3 "203.0.113.9"). cbn in H3.
  change (db' !! "203.0.113.9"
          = Some (decay_record (3600 * Second) (sample_record "203.0.113.9" 20 0))
          /\ ReputationScores s' !! "203.0.113.9"
             = Some (decay_record (3600 * Second)
                       (sample_record "203.0.113.9" 20 0))) in H3.
  destruct H3 as [H3 H4]. split; [exact H3|]. rewrite H3. exact H4.
Defined.

(** X6. [CleanupOldReputation] from a free mutex returns with the mutex
    free and adds or alters no record. A record that is away from the
    default score, or was updated at or after the cutoff, stays in the map
    and its bucket entry is untouched; a record at the default score last
    updated before the cutoff goes from the map and from the bucket. With
    persistence off or the database closed the call does nothing. *)
Theorem CleanupOldReputation_removes_old_default_records v cutoff s :
  ReputationMutex s = Unlocked ->
  exists s',
    CleanupOldReputation v cutoff s = Returns tt s'
    /\ ReputationMutex s' = Unlocked
    /\ (Vars.ReputationPersistToDB v = false \/ ReputationDB s = None -> s' = s)
    /\ (forall ip data,
          ReputationScores s' !! ip = Some data ->
          ReputationScores s !! ip = Some data)
    /\ (forall ip data,
          ReputationScores s !! ip = Some data ->
          Score data <> DefaultReputationScore \/ cutoff <= LastUpdated data ->
          ReputationScores s' !! ip = Some data
          /\ (ReputationDB s' ≫= (.!! ip)) = (ReputationDB s ≫= (.!! ip)))
    /\ (forall ip data db,
          Vars.ReputationPersistToDB v = true ->
          ReputationDB s = Some db ->
          ReputationScores s !! ip = Some data ->
          Score data = DefaultReputationScore ->
          LastUpdated data < cutoff ->
          ReputationScores s' !! ip = None
          /\ (ReputationDB s' ≫= (.!! ip)) = None).
Proof.
  intros Hmu. destruct s as [sc mu db]. cbn in Hmu. subst mu.
  unfold CleanupOldReputation. cbn [ReputationDB].
  destruct (Vars.ReputationPersistToDB v) eqn:Hp; cbn [negb].
  2:{ exists {| ReputationScores := sc; ReputationMutex := Unlocked;
               ReputationDB := db |}.
      repeat split; try reflexivity; cbn; try tauto; try congruence. }
  destruct db as [db|].
  2:{ exists {| ReputationScores := sc; ReputationMutex := Unlocked;
               ReputationDB := None |}.
      repeat split; try reflexivity; cbn; try tauto; try congruence. }
  unfold bind, Lock, Unlock, modify. cbn.
  eexists. split; [reflexivity|]. cbn. split; [reflexivity|].
  split; [intros [?|?]; congruence|].
  set (gone := filter _ sc).
  assert (Hgone : forall ip data, sc !! ip = Some data ->
            (gone !! ip = Some data /\ old_default cutoff data)
            \/ (gone !! ip = None /\ ~ old_default cutoff data)).
  { intros ip data Hip. destruct (decide (old_default cutoff data)) as [Ho|Ho].
    - left. split; [|exact Ho]. apply map_lookup_filter_Some_2; assumption.
    - right. split; [|exact Ho]. apply map_lookup_filter_None_2. right.
      intros x Hx. rewrite Hip in Hx. injection Hx as <-. exact Ho. }
  split; [|split].
  - intros ip data H. apply lookup_difference_Some in H. tauto.
  - intros ip data Hip Hkeep.
    destruct (Hgone ip data Hip) as [[_ [Hlt Heq]]|[Hn _]]; [lia|].
    split.
    + apply lookup_difference_Some. tauto.
    + destruct (db !! ip) as [x|] eqn:Hx.
      * apply lookup_difference_Some. tauto.
      * apply lookup_difference_None. tauto.
  - intros ip data db0 _ _ Hip Heq Hlt.
    destruct (Hgone ip data Hip) as [[Hg _]|[_ Hn]].
    + split; apply lookup_difference_None; right; rewrite Hg; eauto.
    + exfalso. apply Hn. split; assumption.
Qed.

(** A record at score 50 last updated at instant 0, cutoff at instant 10. *)
Lemma CleanupOldReputation_removes_old_default_records_witness :
  exists s',
    CleanupOldReputation Vars.initial 10 (sample_store_db "203.0.113.9" 50 0)
    = Returns tt s'
    /\ ReputationMutex s' = Unlocked
    /\ ReputationScores s' !! "203.0.113.9" = None
    /\ (ReputationDB s' ≫= (.!! "203.0.113.9")) = None.
Proof.
  destruct (CleanupOldReputation_removes_old_default_records Vars.initial 10
              (sample_store_db "203.0.113.9" 50 0) eq_refl)
    as (s' & H1 & H2 & _ & _ & _ & H6).
  exists s'. split; [exact H1|]. split; [exact H2|].
  apply (H6 "203.0.113.9" (sample_record "203.0.113.9" 50 0) ∅);
    reflexivity.
Defined.

End ReputationStoreFacts.

(** ** The byte encoding of integers *)

Section ByteFacts.

Import Reputation.

Lemma byte_of_mod x : byte_of x = x mod 256.
Proof. unfold byte_of. change 255 with (Z.ones 8). apply Z.land_ones. lia. Qed.

(** Numbers with no common bit are joined by their sum. *)
Lemma lor_disjoint a b k :
  0 <= k -> 0 <= a < 2 ^ k -> Z.lor a (b * 2 ^ k) = a + b * 2 ^ k.
Proof.
  intros Hk Ha. rewrite <- Z.add_lor_land.
  assert (E : Z.land a (b * 2 ^ k) = 0); [|lia].
  apply Z.bits_inj'. intros n Hn. rewrite Z.land_spec, Z.bits_0.
  destruct (Z.lt_ge_cases n k) as [H|H].
  - rewrite Z.mul_pow2_bits_low by lia. apply andb_false_r.
  - rewrite <- (Z.mod_small a (2 ^ k)) by lia.
    rewrite Z.mod_pow2_bits_high by lia. reflexivity.
Qed.

(** The big-endian value of eight bytes. *)
Lemma Uint64_sum b0 b1 b2 b3 b4 b5 b6 b7 :
  is_byte b0 -> is_byte b1 -> is_byte b2 -> is_byte b3 ->
  is_byte b4 -> is_byte b5 -> is_byte b6 -> is_byte b7 ->
  Z.lor b7 (Z.lor (Z.shiftl b6 8) (Z.lor (Z.shiftl b5 16)
    (Z.lor (Z.shiftl b4 24) (Z.lor (Z.shiftl b3 32)
    (Z.lor (Z.shiftl b2 40) (Z.lor (Z.shiftl b1 48) (Z.shiftl b0 56)))))))
  = b7 + b6 * 2 ^ 8 + b5 * 2 ^ 16 + b4 * 2 ^ 24 + b3 * 2 ^ 32
    + b2 * 2 ^ 40 + b1 * 2 ^ 48 + b0 * 2 ^ 56.
Proof.
  unfold is_byte. intros.
  rewrite !Z.shiftl_mul_pow2 by lia.
  rewrite (lor_disjoint (b1 * 2 ^ 48) b0 56) by lia.
  replace (b1 * 2 ^ 48 + b0 * 2 ^ 56)
    with ((b1 + b0 * 2 ^ 8) * 2 ^ 48) by lia.
  rewrite (lor_disjoint (b2 * 2 ^ 40) _ 48) by lia.
  replace (b2 * 2 ^ 40 + (b1 + b0 * 2 ^ 8) * 2 ^ 48)
    with ((b2 + b1 * 2 ^ 8 + b0 * 2 ^ 16) * 2 ^ 40) by lia.
  rewrite (lor_disjoint (b3 * 2 ^ 32) _ 40) by lia.
  replace (b3 * 2 ^ 32 + (b2 + b1 * 2 ^ 8 + b0 * 2 ^ 16) * 2 ^ 40)
    with ((b3 + b2 * 2 ^ 8 + b1 * 2 ^ 16 + b0 * 2 ^ 24) * 2 ^ 32) by lia.
  rewrite (lor_disjoint (b4 * 2 ^ 24) _ 32) by lia.
  replace (b4 * 2 ^ 24 + (b3 + b2 * 2 ^ 8 + b1 * 2 ^ 16 + b0 * 2 ^ 24) * 2 ^ 32)
    with ((b4 + b3 * 2 ^ 8 + b2 * 2 ^ 16 + b1 * 2 ^ 24 + b0 * 2 ^ 32) * 2 ^ 24)
    by lia.
  rewrite (lor_disjoint (b5 * 2 ^ 16) _ 24) by lia.
  replace (b5 * 2 ^ 16
           + (b4 + b3 * 2 ^ 8 + b2 * 2 ^ 16 + b1 * 2 ^ 24 + b0 * 2 ^ 32) * 2 ^ 24)
    with ((b5 + b4 * 2 ^ 8 + b3 * 2 ^ 16 + b2 * 2 ^ 24 + b1 * 2 ^ 32
           + b0 * 2 ^ 40) * 2 ^ 16) by lia.
  rewrite (lor_disjoint (b6 * 2 ^ 8) _ 16) by lia.
  replace (b6 * 2 ^ 8
           + (b5 + b4 * 2 ^ 8 + b3 * 2 ^ 16 + b2 * 2 ^ 24 + b1 * 2 ^ 32
              + b0 * 2 ^ 40) * 2 ^ 16)
    with ((b6 + b5 * 2 ^ 8 + b4 * 2 ^ 16 + b3 * 2 ^ 24 + b2 * 2 ^ 32
           + b1 * 2 ^ 40 + b0 * 2 ^ 48) * 2 ^ 8) by lia.
  rewrite (lor_disjoint b7 _ 8) by lia.
  lia.
Qed.

Lemma byte_at u k k' :
  0 <= k -> k' = k + 8 ->
  (u / 2 ^ k) mod 256 = u / 2 ^ k - 256 * (u / 2 ^ k').
Proof.
  intros Hk ->. rewrite Z.mod_eq by lia. rewrite Z.div_div by lia.
  rewrite Z.pow_add_r by lia. reflexivity.
Qed.

(** The bytes of a 64-bit number, most significant first, add up to it. *)
Lemma bytes_sum u :
  0 <= u < 2 ^ 64 ->
  u mod 256 + (u / 2 ^ 8) mod 256 * 2 ^ 8 + (u / 2 ^ 16) mod 256 * 2 ^ 16
  + (u / 2 ^ 24) mod 256 * 2 ^ 24 + (u / 2 ^ 32) mod 256 * 2 ^ 32
  + (u / 2 ^ 40) mod 256 * 2 ^ 40 + (u / 2 ^ 48) mod 256 * 2 ^ 48
  + (u / 2 ^ 56) mod 256 * 2 ^ 56 = u.
Proof.
  intros Hu.
  pose proof (byte_at u 0 8 ltac:(lia) ltac:(lia)) as E0. rewrite Z.pow_0_r, Z.div_1_r in E0.
  pose proof (byte_at u 8 16 ltac:(lia) ltac:(lia)) as E1.
  pose proof (byte_at u 16 24 ltac:(lia) ltac:(lia)) as E2.
  pose proof (byte_at u 24 32 ltac:(lia) ltac:(lia)) as E3.
  pose proof (byte_at u 32 40 ltac:(lia) ltac:(lia)) as E4.
  pose proof (byte_at u 40 48 ltac:(lia) ltac:(lia)) as E5.
  pose proof (byte_at u 48 56 ltac:(lia) ltac:(lia)) as E6.
  pose proof (byte_at u 56 64 ltac:(lia) ltac:(lia)) as E7.
  rewrite (Z.div_small u (2 ^ 64)) in E7 by lia.
  rewrite E0, E1, E2, E3, E4, E5, E6, E7.
  generalize (u / 2 ^ 8) (u / 2 ^ 16) (u / 2 ^ 24) (u / 2 ^ 32)
             (u / 2 ^ 40) (u / 2 ^ 48) (u / 2 ^ 56).
  intros. lia.
Qed.

(** A byte of a number made of eight bytes. *)
Lemma byte_of_sum lo b hi k :
  0 <= k -> 0 <= lo < 2 ^ k -> is_byte b ->
  ((lo + b * 2 ^ k + hi * 2 ^ (k + 8)) / 2 ^ k) mod 256 = b.
Proof.
  unfold is_byte. intros Hk Hlo Hb.
  rewrite Z.pow_add_r by lia.
  replace (lo + b * 2 ^ k + hi * (2 ^ k * 2 ^ 8))
    with (lo + (b + hi * 2 ^ 8) * 2 ^ k) by lia.
  rewrite Z.div_add by lia. rewrite Z.div_small by lia.
  rewrite Z.add_0_l. change (2 ^ 8) with 256.
  rewrite Z.mod_add by lia. apply Z.mod_small. lia.
Qed.

Ltac byte_goal x lo b hi k :=
  transitivity (((lo + b * 2 ^ k + hi * 2 ^ (k + 8)) / 2 ^ k) mod 256);
  [ f_equal; f_equal; unfold x; lia
  | apply byte_of_sum; unfold is_byte in *; lia ].

Lemma wrap64_mod z : wrap64 z mod 2 ^ 64 = z mod 2 ^ 64.
Proof.
  unfold wrap64.
  pose proof (Z.div_mod (z + 2 ^ 63) (2 ^ 64) ltac:(lia)).
  replace ((z + 2 ^ 63) mod 2 ^ 64 - 2 ^ 63)
    with (z + - ((z + 2 ^ 63) / 2 ^ 64) * 2 ^ 64) by lia.
  apply Z.mod_add. lia.
Qed.

Lemma wrap64_of_mod z : wrap64 (z mod 2 ^ 64) = wrap64 z.
Proof.
  unfold wrap64. f_equal. rewrite Zplus_mod_idemp_l. reflexivity.
Qed.

(** X7. [itob] and [btoi] are inverse to each other: every Go int is read
    back from its eight bytes, every slice of exactly eight bytes is
    rebuilt from the integer it decodes to, and [btoi] panics on a shorter
    slice. *)
Theorem itob_btoi_round_trip :
  (forall v, in_range v -> btoi (itob v) = Some v)
  /\ (forall b, length b = 8%nat -> Forall is_byte b -> (btoi b ≫= (fun v => Some (itob v))) = Some b)
  /\ (forall b, (length b < 8)%nat -> btoi b = None).
Proof.
  split; [|split].
  - intros v Hr. unfold itob, btoi.
    set (u := v mod 2 ^ 64).
    assert (Hu : 0 <= u < 2 ^ 64) by (apply Z.mod_pos_bound; lia).
    rewrite !byte_of_mod, !Z.shiftr_div_pow2 by lia.
    rewrite Uint64_sum by (unfold is_byte; apply Z.mod_pos_bound; lia).
    rewrite bytes_sum by assumption.
    unfold u. rewrite wrap64_of_mod. f_equal. apply wrap64_id. exact Hr.
  - intros b Hlen Hb.
    destruct b as [|b0 [|b1 [|b2 [|b3 [|b4 [|b5 [|b6 [|b7 [|? ?]]]]]]]]];
      try discriminate.
    repeat match goal with
           | H : Forall _ (_ :: _) |- _ =>
               apply Forall_cons in H; destruct H as [? H]
           end.
    unfold btoi. cbn [mbind option_bind]. f_equal. unfold itob.
    rewrite Uint64_sum by assumption. rewrite wrap64_mod.
    rewrite Z.mod_small by (unfold is_byte in *; lia).
    rewrite !byte_of_mod, !Z.shiftr_div_pow2 by lia.
    set (x := _ + _ * 2 ^ 56).
    f_equal; [|f_equal; [|f_equal; [|f_equal; [|f_equal; [|f_equal; [|f_equal; [|f_equal]]]]]]].
    + byte_goal x (b7 + b6 * 2 ^ 8 + b5 * 2 ^ 16 + b4 * 2 ^ 24 + b3 * 2 ^ 32
                   + b2 * 2 ^ 40 + b1 * 2 ^ 48) b0 0 56.
    + byte_goal x (b7 + b6 * 2 ^ 8 + b5 * 2 ^ 16 + b4 * 2 ^ 24 + b3 * 2 ^ 32
                   + b2 * 2 ^ 40) b1 b0 48.
    + byte_goal x (b7 + b6 * 2 ^ 8 + b5 * 2 ^ 16 + b4 * 2 ^ 24 + b3 * 2 ^ 32)
                b2 (b1 + b0 * 2 ^ 8) 40.
    + byte_goal x (b7 + b6 * 2 ^ 8 + b5 * 2 ^ 16 + b4 * 2 ^ 24)
                b3 (b2 + b1 * 2 ^ 8 + b0 * 2 ^ 16) 32.
    + byte_goal x (b7 + b6 * 2 ^ 8 + b5 * 2 ^ 16)
                b4 (b3 + b2 * 2 ^ 8 + b1 * 2 ^ 16 + b0 * 2 ^ 24) 24.
    + byte_goal x (b7 + b6 * 2 ^ 8)
                b5 (b4 + b3 * 2 ^ 8 + b2 * 2 ^ 16 + b1 * 2 ^ 24 + b0 * 2 ^ 32) 16.
    + byte_goal x b7
                b6 (b5 + b4 * 2 ^ 8 + b3 * 2 ^ 16 + b2 * 2 ^ 24 + b1 * 2 ^ 32
                    + b0 * 2 ^ 40) 8.
    + rewrite <- (Z.div_1_r x). change 1 with (2 ^ 0).
      byte_goal x 0
                b7 (b6 + b5 * 2 ^ 8 + b4 * 2 ^ 16 + b3 * 2 ^ 24 + b2 * 2 ^ 32
                    + b1 * 2 ^ 40 + b0 * 2 ^ 48) 0.
  - intros b Hlen. unfold btoi.
    do 8 (destruct b as [|? b]; [reflexivity|]). cbn in Hlen. lia.
Qed.

End ByteFacts.

(** ** Connection limiter: admission, counters, cleanup *)

Section ConnLimitMore.

Import ConnLimit.

Lemma CheckConnectionLimit_counts v now ip cl :
  ActiveConnections (snd (CheckConnectionLimit v now ip cl)) = ActiveConnections cl
  /\ HalfOpenConnections (snd (CheckConnectionLimit v now ip cl))
     = HalfOpenConnections cl.
Proof.
  unfold CheckConnectionLimit.
  repeat match goal with
         | |- context [if ?b then _ else _] => destruct b
         end; split; reflexivity.
Qed.

(** X8. [CheckConnectionLimit] admits a connection exactly when the
    address is strictly below each cap: active connections below
    MaxConcurrentConnPerIP, timestamps inside the rate window below
    MaxConnRatePerIP and, with SYN-flood protection on, half-open
    connections below MaxHalfOpenPerIP. The check counts nothing: the two
    tables of counters are left as they were, and so are the timestamps of
    every other address. *)
Theorem CheckConnectionLimit_admits_iff v now ip cl :
  (fst (CheckConnectionLimit v now ip cl) = true
   <-> GetConnectionCount ip cl < Vars.MaxConcurrentConnPerIP v
       /\ Z.of_nat (length (prune now (stamps_of (ConnectionRate cl) ip)))
          < Vars.MaxConnRatePerIP v
       /\ (Vars.EnableSynFloodProtection v = true ->
           count_of (HalfOpenConnections cl) ip < Vars.MaxHalfOpenPerIP v))
  /\ ActiveConnections (snd (CheckConnectionLimit v now ip cl))
     = ActiveConnections cl
  /\ HalfOpenConnections (snd (CheckConnectionLimit v now ip cl))
     = HalfOpenConnections cl
  /\ forall ip', ip' <> ip ->
       ConnectionRate (snd (CheckConnectionLimit v now ip cl)) !! ip'
       = ConnectionRate cl !! ip'.
Proof.
  split; [|split; [apply CheckConnectionLimit_counts|
                   split; [apply CheckConnectionLimit_counts|]]].
  - unfold CheckConnectionLimit, GetConnectionCount.
    destruct (Z.leb_spec (Vars.MaxConcurrentConnPerIP v)
                (count_of (ActiveConnections cl) ip)); cbn [fst].
    { split; [discriminate | lia]. }
    destruct (Z.leb_spec (Vars.MaxConnRatePerIP v)
                (Z.of_nat (length (prune now (stamps_of (ConnectionRate cl) ip)))));
      cbn [fst].
    { split; [discriminate | lia]. }
    cbn [set_rate HalfOpenConnections].
    destruct (Vars.EnableSynFloodProtection v); cbn [andb].
    + destruct (Z.leb_spec (Vars.MaxHalfOpenPerIP v)
                  (count_of (HalfOpenConnections cl) ip)); cbn [fst].
      * split; [discriminate|]. intros (_ & _ & H2). specialize (H2 eq_refl). lia.
      * split; [|reflexivity]. intros _. repeat split; try lia.
    + cbn [fst]. split; [|reflexivity]. intros _.
      repeat split; try lia; discriminate.
  - intros ip' Hne. unfold CheckConnectionLimit.
    repeat match goal with
           | |- context [if ?b then _ else _] => destruct b
           end; cbn; rewrite ?lookup_insert_ne by congruence; reflexivity.
Qed.

Lemma count_of_insert_eq m ip x : count_of (<[ip := x]> m) ip = x.
Proof. unfold count_of. rewrite lookup_insert_eq. reflexivity. Qed.

Lemma count_of_within n m ip : counts_within n m -> 0 <= n -> 0 <= count_of m ip <= n.
Proof.
  intros H Hn. unfold count_of. destruct (m !! ip) as [c|] eqn:E; cbn; [|lia].
  specialize (H ip c E). lia.
Qed.

Lemma counts_within_incr n m ip :
  0 <= n < max_int -> counts_within n m ->
  counts_within (n + 1) (<[ip := GoInt.add (count_of m ip) 1]> m).
Proof.
  intros Hn H ip' c Hc. pose proof (count_of_within n m ip H ltac:(lia)).
  apply lookup_insert_Some in Hc. destruct Hc as [[_ <-]|[_ Hc]].
  - unfold GoInt.add. rewrite wrap64_id
      by (unfold in_range, min_int, max_int in *; lia). lia.
  - specialize (H ip' c Hc). lia.
Qed.

Lemma decremented_lookup n m ip :
  0 <= n <= max_int -> counts_within n m ->
  decremented ip m
  = if decide (1 < count_of m ip) then <[ip := count_of m ip - 1]> m
    else delete ip m.
Proof.
  intros Hn H. pose proof (count_of_within n m ip H ltac:(lia)) as Hc.
  unfold decremented.
  destruct (Z.ltb_spec 0 (count_of m ip)) as [Hpos|Hz].
  - unfold GoInt.sub. rewrite wrap64_id
      by (unfold in_range, min_int, max_int in *; lia).
    rewrite count_of_insert_eq.
    destruct (Z.eqb_spec (count_of m ip - 1) 0) as [E|E].
    + rewrite decide_False by lia. apply delete_insert_eq.
    + rewrite decide_True by lia. reflexivity.
  - rewrite decide_False by lia.
    destruct (Z.eqb_spec (count_of m ip) 0); [reflexivity | lia].
Qed.

Lemma counts_within_decr n m ip :
  0 <= n <= max_int -> counts_within n m -> counts_within n (decremented ip m).
Proof.
  intros Hn H. rewrite (decremented_lookup n) by assumption.
  pose proof (count_of_within n m ip H ltac:(lia)) as Hc.
  intros ip' c Hl. destruct (decide (1 < count_of m ip)).
  - apply lookup_insert_Some in Hl. destruct Hl as [[_ <-]|[_ Hl]]; [lia|].
    exact (H ip' c Hl).
  - apply lookup_delete_Some in Hl. exact (H ip' c (proj2 Hl)).
Qed.

Lemma counts_within_weaken n n' m :
  n <= n' -> counts_within n m -> counts_within n' m.
Proof. intros Hle H ip c Hc. specialize (H ip c Hc). lia. Qed.

Lemma step_counts_within v n cl c :
  0 <= n < max_int ->
  counts_within n (ActiveConnections cl) ->
  counts_within n (HalfOpenConnections cl) ->
  counts_within (n + 1) (ActiveConnections (step v cl c))
  /\ counts_within (n + 1) (HalfOpenConnections (step v cl c)).
Proof.
  intros Hn Ha Hh.
  pose proof (counts_within_weaken n (n + 1) _ ltac:(lia) Ha) as Ha'.
  pose proof (counts_within_weaken n (n + 1) _ ltac:(lia) Hh) as Hh'.
  destruct c as [t ip|t ip|ip|ip|ip|t]; cbn [step].
  - destruct (CheckConnectionLimit_counts v t ip cl) as [-> ->]. split; assumption.
  - unfold IncrementConnection. cbn. split; [|assumption].
    apply counts_within_incr; assumption.
  - unfold DecrementConnection. cbn. split; [|assumption].
    apply (counts_within_weaken n); [lia|].
    apply (counts_within_decr n); [lia | assumption].
  - unfold IncrementHalfOpen. destruct (negb _); cbn; [split; assumption|].
    split; [assumption|]. apply counts_within_incr; assumption.
  - unfold DecrementHalfOpen. destruct (negb _); cbn; [split; assumption|].
    split; [assumption|].
    apply (counts_within_weaken n); [lia|].
    apply (counts_within_decr n); [lia | assumption].
  - cbn. split; assumption.
Qed.

Lemma run_counts_within v cs : forall n cl,
  0 <= n -> n + Z.of_nat (length cs) <= max_int ->
  counts_within n (ActiveConnections cl) ->
  counts_within n (HalfOpenConnections cl) ->
  counts_within (n + Z.of_nat (length cs)) (ActiveConnections (run v cl cs))
  /\ counts_within (n + Z.of_nat (length cs)) (HalfOpenConnections (run v cl cs)).
Proof.
  unfold run. induction cs as [|c cs IH]; intros n cl Hn Hlen Ha Hh.
  - cbn. rewrite Z.add_0_r. split; assumption.
  - cbn [fold_left length] in *.
    destruct (step_counts_within v n cl c ltac:(lia) Ha Hh) as [Ha1 Hh1].
    destruct (IH (n + 1) (step v cl c) ltac:(lia) ltac:(lia) Ha1 Hh1) as [A B].
    replace (n + Z.of_nat (S (length cs))) with (n + 1 + Z.of_nat (length cs))
      by lia.
    split; assumption.
Qed.

Lemma tracker_counts_within v start cs :
  Z.of_nat (length cs) <= max_int ->
  counts_within (Z.of_nat (length cs))
    (ActiveConnections (run v (ConnectionTracker start) cs))
  /\ counts_within (Z.of_nat (length cs))
       (HalfOpenConnections (run v (ConnectionTracker start) cs)).
Proof.
  intros Hlen.
  apply (run_counts_within v cs 0 (ConnectionTracker start)); try lia;
    intros ip c Hc; cbn in Hc; rewrite lookup_empty in Hc; discriminate.
Qed.

(** X9. In any run of the tracker (fewer than 2^63 calls) the tables of
    active and of half-open connections hold positive counters only, a
    counter that reaches zero being deleted. So [GetConnectionCount] is
    never negative and at most the number of calls, and
    [DecrementConnection] for an address without connection leaves the
    table as it is. *)
Theorem counters_stay_positive v start cs :
  Z.of_nat (length cs) <= max_int ->
  let cl := run v (ConnectionTracker start) cs in
  (forall ip c, ActiveConnections cl !! ip = Some c -> 0 < c)
  /\ (forall ip c, HalfOpenConnections cl !! ip = Some c -> 0 < c)
  /\ (forall ip, 0 <= GetConnectionCount ip cl <= Z.of_nat (length cs))
  /\ (forall ip, GetConnectionCount ip cl = 0 ->
                 ActiveConnections (DecrementConnection ip cl)
                 = ActiveConnections cl).
Proof.
  intros Hlen cl. destruct (tracker_counts_within v start cs Hlen) as [Ha Hh].
  fold cl in Ha, Hh. split; [|split; [|split]].
  - intros ip c Hc. apply (Ha ip c Hc).
  - intros ip c Hc. apply (Hh ip c Hc).
  - intros ip. apply count_of_within; [assumption | lia].
  - intros ip Hz. unfold GetConnectionCount in Hz.
    unfold DecrementConnection. cbn.
    change (decremented ip (ActiveConnections cl) = ActiveConnections cl).
    rewrite (decremented_lookup (Z.of_nat (length cs))) by (assumption || lia).
    rewrite decide_False by lia. apply delete_id.
    destruct (ActiveConnections cl !! ip) as [c|] eqn:E; [|reflexivity].
    pose proof (Ha ip c E). unfold count_of in Hz. rewrite E in Hz. cbn in Hz. lia.
Qed.

Lemma counters_stay_positive_witness :
  let cl := run Vars.initial (ConnectionTracker 0)
              (storm "203.0.113.9" 0 90000000 3) in
  (forall ip c, ActiveConnections cl !! ip = Some c -> 0 < c)
  /\ (forall ip c, HalfOpenConnections cl !! ip = Some c -> 0 < c)
  /\ (forall ip, 0 <= GetConnectionCount ip cl <= 6)
  /\ (forall ip, GetConnectionCount ip cl = 0 ->
                 ActiveConnections (DecrementConnection ip cl)
                 = ActiveConnections cl).
Proof.
  apply (counters_stay_positive Vars.initial 0
           (storm "203.0.113.9" 0 90000000 3)).
  vm_compute. discriminate.
Defined.

(** X10. Opening and then closing a connection restores the table of
    active connections exactly; in between the count is one higher; the
    timestamp of the connection stays in the slice that the rate limit
    reads. *)
Theorem closing_restores_the_active_table v start cs now ip :
  Z.of_nat (length cs) < max_int ->
  let cl := run v (ConnectionTracker start) cs in
  ActiveConnections (DecrementConnection ip (IncrementConnection now ip cl))
  = ActiveConnections cl
  /\ GetConnectionCount ip (IncrementConnection now ip cl)
     = GetConnectionCount ip cl + 1
  /\ stamps_of (ConnectionRate
                  (DecrementConnection ip (IncrementConnection now ip cl))) ip
     = stamps_of (ConnectionRate cl) ip ++ [now].
Proof.
  intros Hlen cl.
  destruct (tracker_counts_within v start cs ltac:(lia)) as [Ha _].
  fold cl in Ha. set (n := Z.of_nat (length cs)) in *.
  pose proof (count_of_within n _ ip Ha ltac:(lia)) as Hc.
  assert (Hinc : GoInt.add (count_of (ActiveConnections cl) ip) 1
                 = count_of (ActiveConnections cl) ip + 1).
  { unfold GoInt.add. apply wrap64_id.
    unfold in_range, min_int, max_int in *. lia. }
  split; [|split].
  - unfold DecrementConnection, IncrementConnection. cbn.
    match goal with
    | |- ?x = _ => change x with
          (decremented ip (<[ip := GoInt.add (count_of (ActiveConnections cl) ip) 1]>
                             (ActiveConnections cl)))
    end.
    rewrite (decremented_lookup (n + 1))
      by (try apply counts_within_incr; try assumption; lia).
    rewrite !count_of_insert_eq, Hinc.
    destruct (decide (1 < count_of (ActiveConnections cl) ip + 1)) as [H|H].
    + rewrite insert_insert_eq.
      apply insert_id. unfold count_of in *.
      destruct (ActiveConnections cl !! ip) as [c|] eqn:E; cbn in *; [|lia].
      f_equal. lia.
    + rewrite delete_insert_eq. apply delete_id.
      unfold count_of in *.
      destruct (ActiveConnections cl !! ip) as [c|] eqn:E; [|reflexivity].
      pose proof (Ha ip c E). cbn in H. lia.
  - unfold GetConnectionCount, IncrementConnection. cbn.
    rewrite count_of_insert_eq. exact Hinc.
  - unfold DecrementConnection, IncrementConnection. cbn.
    rewrite stamps_of_insert. rewrite decide_True by reflexivity. reflexivity.
Qed.

Lemma closing_restores_the_active_table_witness :
  let cl := run Vars.initial (ConnectionTracker 0)
              (storm "203.0.113.9" 0 90000000 3) in
  ActiveConnections
    (DecrementConnection "203.0.113.9"
       (IncrementConnection 300000000 "203.0.113.9" cl))
  = ActiveConnections cl
  /\ GetConnectionCount "203.0.113.9"
       (IncrementConnection 300000000 "203.0.113.9" cl)
     = GetConnectionCount "203.0.113.9" cl + 1
  /\ stamps_of (ConnectionRate
                  (DecrementConnection "203.0.113.9"
                     (IncrementConnection 300000000 "203.0.113.9" cl)))
       "203.0.113.9"
     = stamps_of (ConnectionRate cl) "203.0.113.9" ++ [300000000].
Proof.
  apply (closing_restores_the_active_table Vars.initial 0
           (storm "203.0.113.9" 0 90000000 3) 300000000 "203.0.113.9").
  vm_compute. reflexivity.
Defined.

(** X11. [CleanupOldEntries] leaves the counters alone. Every slice of
    timestamps it keeps is non-empty, is the pruned slice of that address
    and holds only timestamps inside the rate window; no timestamp inside
    the window is lost. *)
Theorem CleanupOldEntries_keeps_recent_timestamps now cl :
  ActiveConnections (CleanupOldEntries now cl) = ActiveConnections cl
  /\ HalfOpenConnections (CleanupOldEntries now cl) = HalfOpenConnections cl
  /\ (forall ip l,
        ConnectionRate (CleanupOldEntries now cl) !! ip = Some l ->
        l <> []
        /\ Forall (fun ts => Sub now ts < ConnectionRateWindow) l
        /\ exists l0, ConnectionRate cl !! ip = Some l0 /\ l = prune now l0)
  /\ (forall ip l0 ts,
        ConnectionRate cl !! ip = Some l0 -> In ts l0 ->
        Sub now ts < ConnectionRateWindow ->
        exists l, ConnectionRate (CleanupOldEntries now cl) !! ip = Some l
                  /\ In ts l).
Proof.
  split; [reflexivity|]. split; [reflexivity|]. split.
  - intros ip l Hl. unfold CleanupOldEntries in Hl. cbn in Hl.
    rewrite lookup_omap in Hl.
    destruct (ConnectionRate cl !! ip) as [l0|] eqn:E; [|discriminate].
    cbn in Hl. destruct (prune now l0) as [|x r] eqn:Hp; [discriminate|].
    injection Hl as <-. split; [discriminate|]. split.
    + rewrite <- Hp. unfold prune. apply List.Forall_forall. intros ts Hin.
      apply List.filter_In in Hin. destruct Hin as [_ Hw].
      unfold in_window in Hw. apply Z.ltb_lt. exact Hw.
    + exists l0. split; [reflexivity|]. symmetry. exact Hp.
  - intros ip l0 ts Hl0 Hin Hw.
    assert (Hin' : In ts (prune now l0)).
    { unfold prune. apply List.filter_In. split; [exact Hin|].
      unfold in_window. apply Z.ltb_lt. exact Hw. }
    unfold CleanupOldEntries. cbn. rewrite lookup_omap, Hl0. cbn.
    destruct (prune now l0) as [|x r] eqn:Hp; [destruct Hin'|].
    eexists. split; [reflexivity|]. exact Hin'.
Qed.

(** X12. A cleanup of the tracker does not change an admission decision
    made at the same or a later instant. *)
Theorem cleanup_does_not_change_admission v t now ip cl :
  t <= now ->
  fst (CheckConnectionLimit v now ip (CleanupOldEntries t cl))
  = fst (CheckConnectionLimit v now ip cl).
Proof.
  intros Hle. unfold CheckConnectionLimit.
  rewrite stamps_of_cleanup, prune_prune by exact Hle.
  change (ActiveConnections (CleanupOldEntries t cl)) with (ActiveConnections cl).
  repeat match goal with
         | |- context [if ?b then _ else _] => destruct b eqn:?
         end; try reflexivity; cbn in *; congruence.
Qed.

Lemma cleanup_does_not_change_admission_witness :
  fst (CheckConnectionLimit Vars.initial 990000000 "203.0.113.9"
         (CleanupOldEntries 500000000
            (run Vars.initial (ConnectionTracker 0)
               (storm "203.0.113.9" 0 90000000 3))))
  = fst (CheckConnectionLimit Vars.initial 990000000 "203.0.113.9"
           (run Vars.initial (ConnectionTracker 0)
              (storm "203.0.113.9" 0 90000000 3))).
Proof.
  apply (cleanup_does_not_change_admission Vars.initial 500000000 990000000
           "203.0.113.9"
           (run Vars.initial (ConnectionTracker 0)
              (storm "203.0.113.9" 0 90000000 3))).
  lia.
Defined.

End ConnLimitMore.

(** ** Multi-window counters: buckets and limits *)

Section MultiWindowMore.

Import MultiWindow.

(** X13. One [RecordRequest] raises the count of the address by one (a Go
    increment) in every recognised window, read at the instant of the
    request, and leaves the counts of the other addresses. *)
Theorem RecordRequest_counts_in_every_window v now ip ip' window w :
  Vars.MultiWindowEnabled v = true ->
  is_Some (window_size v window) ->
  GetRequestCount v now ip' window (RecordRequest v now ip w)
  = if decide (ip' = ip)
    then GoInt.add (GetRequestCount v now ip window w) 1
    else GetRequestCount v now ip' window w.
Proof.
  intros Hen [size Hw]. unfold GetRequestCount, RecordRequest.
  rewrite Hen; cbn [negb]. unfold window_size, select in Hw. unfold select.
  destruct (decide (ip' = ip)) as [->|Hne];
    repeat (case_match; simplify_eq/=);
    rewrite read_bump;
    first [ rewrite decide_True by (split; reflexivity); reflexivity
          | rewrite decide_False by (intros [_ ?]; congruence); reflexivity ].
Qed.

Lemma RecordRequest_counts_in_every_window_witness :
  GetRequestCount Vars.initial (1000 * Second) "198.51.100.7" "burst"
    (RecordRequest Vars.initial (1000 * Second) "198.51.100.7" empty)
  = GoInt.add
      (GetRequestCount Vars.initial (1000 * Second) "198.51.100.7" "burst" empty)
      1.
Proof.
  apply (RecordRequest_counts_in_every_window Vars.initial (1000 * Second)
           "198.51.100.7" "198.51.100.7" "burst" empty).
  - reflexivity.
  - vm_compute. eexists. reflexivity.
Defined.

(** The bucket keys of one map: multiples of the window size, none after
    the bucket of [now]. *)
Lemma step1_keys size now m c :
  0 < size -> 0 <= now <= max_int -> made_by now c ->
  (forall ts, is_Some (m !! ts) -> ts mod size = 0 /\ 0 <= ts <= Unix now) ->
  forall ts, is_Some (step1 size m c !! ts) ->
             ts mod size = 0 /\ 0 <= ts <= Unix now.
Proof.
  intros Hs Hnow [Hc0 Hc1] Hm ts Hts. destruct c as [t ip|t]; cbn [step1 call_time] in *.
  - unfold bump in Hts. apply lookup_insert_is_Some in Hts.
    destruct Hts as [<-|[_ Hts]]; [|exact (Hm ts Hts)].
    destruct (bucket_is_bucket_start t size) as (-> & Hb0 & Hb1);
      [lia | lia |].
    pose proof (Unix_mono t now Hc1). split; [|lia].
    unfold bucket_start. apply Z.mod_mul. lia.
  - apply Hm. destruct Hts as [x Hx]. unfold sweep in Hx.
    apply map_lookup_filter_Some in Hx. exists x. tauto.
Qed.

Lemma run1_keys size now cs : forall m,
  0 < size -> 0 <= now <= max_int -> Forall (made_by now) cs ->
  (forall ts, is_Some (m !! ts) -> ts mod size = 0 /\ 0 <= ts <= Unix now) ->
  forall ts, is_Some (fold_left (step1 size) cs m !! ts) ->
             ts mod size = 0 /\ 0 <= ts <= Unix now.
Proof.
  induction cs as [|c cs IH]; intros m Hs Hnow Hall Hm; [exact Hm|].
  inversion Hall as [|? ? Hc Hcs]; subst. cbn [fold_left].
  apply IH; try assumption. apply step1_keys; assumption.
Qed.

(** The map of a recognised window after a run. *)
Lemma select_run v window cs size m :
  Vars.MultiWindowEnabled v = true ->
  select v window (run v cs) = Some (size, m) ->
  window_size v window = Some size /\ m = fold_left (step1 size) cs ∅.
Proof.
  intros Hen Hsel. unfold run in Hsel.
  destruct (run_projects v cs empty Hen) as (Hb & Hsh & Hmd & Hl).
  unfold window_size, select in *.
  repeat (case_match; simplify_eq/=); split; try reflexivity; assumption.
Qed.

(** X14. After any run of calls made between the epoch and [now], every
    bucket key of a window is a multiple of the window size, is not
    negative and is not after [now] (in seconds). *)
Theorem bucket_keys_are_multiples_of_the_window v cs now window size m :
  Vars.MultiWindowEnabled v = true ->
  select v window (run v cs) = Some (size, m) ->
  0 < size ->
  0 <= now <= max_int ->
  Forall (made_by now) cs ->
  forall ts, is_Some (m !! ts) -> ts mod size = 0 /\ 0 <= ts <= Unix now.
Proof.
  intros Hen Hsel Hs Hnow Hall.
  destruct (select_run v window cs size m Hen Hsel) as [_ ->].
  apply run1_keys; try assumption.
  intros ts [x Hx]. rewrite lookup_empty in Hx. discriminate.
Qed.

(** The bucket that starts at 1010 s, after the sample calls. *)
Lemma bucket_keys_are_multiples_of_the_window_witness :
  1010 mod 10 = 0 /\ 0 <= 1010 <= Unix (1012 * Second).
Proof.
  apply (bucket_keys_are_multiples_of_the_window Vars.initial sample_calls
           (1012 * Second) "burst" 10
           (BurstWindowIps (run Vars.initial sample_calls))).
  - reflexivity.
  - reflexivity.
  - lia.
  - vm_compute. split; discriminate.
  - repeat constructor; vm_compute; discriminate.
  - vm_compute. eexists. reflexivity.
Defined.

(** X15. Right after a cleanup a window holds buckets for at most three
    starts: the current bucket and the two before it. *)
Theorem cleanup_leaves_three_buckets v cs now window size m :
  Vars.MultiWindowEnabled v = true ->
  select v window (run v (cs ++ [CleanupCall now])) = Some (size, m) ->
  0 < size < 2 ^ 62 ->
  0 <= now <= max_int ->
  Forall (made_by now) cs ->
  forall ts, is_Some (m !! ts) ->
    ts = bucket_start now size
    \/ ts = bucket_start now size - size
    \/ ts = bucket_start now size - 2 * size.
Proof.
  intros Hen Hsel Hs Hnow Hall ts Hts.
  destruct (select_run v window _ size m Hen Hsel) as [_ ->].
  rewrite fold_left_app in Hts. cbn [fold_left step1] in Hts.
  destruct Hts as [x Hx]. unfold sweep in Hx.
  apply map_lookup_filter_Some in Hx. destruct Hx as [Hx Hcut]. cbn in Hcut.
  destruct (run1_keys size now cs ∅ ltac:(lia) Hnow Hall) with (ts := ts)
    as [Hmod [H0 Hle]].
  { intros ts' [y Hy]. rewrite lookup_empty in Hy. discriminate. }
  { exists x. exact Hx. }
  destruct (bucket_is_bucket_start now size Hnow ltac:(lia)) as (Hbk & Hb0 & Hb1).
  rewrite Hbk in Hcut. unfold GoInt.sub, GoInt.mul in Hcut.
  assert (Hu : Unix now <= max_int).
  { unfold Unix, Second, max_int in *.
    pose proof (Z.div_le_upper_bound now 1000000000 (2 ^ 63 - 1)). nia. }
  rewrite (wrap64_id (size * 2)) in Hcut
    by (unfold in_range, min_int, max_int in *; lia).
  rewrite wrap64_id in Hcut by (unfold in_range, min_int, max_int in *; lia).
  apply Z.mod_divide in Hmod; [|lia]. destruct Hmod as [k ->].
  unfold bucket_start in *. set (q := Unix now / size) in *.
  assert (k <= q) by (apply Z.div_le_lower_bound; lia).
  assert (q - 2 <= k) by nia.
  assert (Hk : k = q \/ k = q - 1 \/ k = q - 2) by lia.
  destruct Hk as [E|[E|E]]; subst k; lia.
Qed.

(** The bucket that starts at 1000 s is the one before the current bucket
    at 1012 s. *)
Lemma cleanup_leaves_three_buckets_witness :
  1000 = bucket_start (1012 * Second) 10
  \/ 1000 = bucket_start (1012 * Second) 10 - 10
  \/ 1000 = bucket_start (1012 * Second) 10 - 2 * 10.
Proof.
  apply (cleanup_leaves_three_buckets Vars.initial sample_calls
           (1012 * Second) "burst" 10
           (BurstWindowIps
              (run Vars.initial (sample_calls ++ [CleanupCall (1012 * Second)])))).
  - reflexivity.
  - reflexivity.
  - lia.
  - vm_compute. split; discriminate.
  - repeat constructor; vm_compute; discriminate.
  - vm_compute. eexists. reflexivity.
Defined.

(** The count of an address after a run, for each window. *)
Lemma GetRequestCount_run v cs now ip window size :
  Vars.MultiWindowEnabled v = true ->
  window_size v window = Some size ->
  0 < size < 2 ^ 62 ->
  0 <= now <= max_int ->
  Forall (made_by now) cs ->
  Z.of_nat (length cs) <= max_int ->
  GetRequestCount v now ip window (run v cs)
  = Z.of_nat (records_in_bucket now size ip cs).
Proof.
  intros Hen Hw Hs Hnow Hall Hlen.
  unfold GetRequestCount, run. rewrite Hen; cbn [negb].
  destruct (run_projects v cs empty Hen) as (Hb & Hsh & Hmd & Hl).
  unfold window_size, select in Hw. unfold select.
  destruct (bucket_is_bucket_start now size Hnow ltac:(lia)) as (Hbk & _ & _).
  repeat (case_match; simplify_eq/=);
    rewrite ?Hb, ?Hsh, ?Hmd, ?Hl, Hbk; cbn;
    rewrite (read_run1 _ now ip Hs Hnow cs ∅ Hall);
    rewrite ?read_empty; lia.
Qed.

(** X16. The four limit checks after a run: each answers whether the
    limit is at most the number of [RecordRequest] calls of the address in
    the current bucket of its window (so a limit of zero or less is
    exceeded by an address that was never seen). *)
Theorem limit_checks_compare_with_the_records v cs now ip limit :
  Vars.MultiWindowEnabled v = true ->
  0 < Vars.BurstWindow v < 2 ^ 62 ->
  0 < Vars.ShortWindow v < 2 ^ 62 ->
  0 < Vars.MediumWindow v < 2 ^ 62 ->
  0 < Vars.LongWindow v < 2 ^ 62 ->
  0 <= now <= max_int ->
  Forall (made_by now) cs ->
  Z.of_nat (length cs) <= max_int ->
  CheckBurstLimit v now ip limit (run v cs)
  = (limit <=? Z.of_nat (records_in_bucket now (Vars.BurstWindow v) ip cs))
  /\ CheckShortTermLimit v now ip limit (run v cs)
     = (limit <=? Z.of_nat (records_in_bucket now (Vars.ShortWindow v) ip cs))
  /\ CheckMediumTermLimit v now ip limit (run v cs)
     = (limit <=? Z.of_nat (records_in_bucket now (Vars.MediumWindow v) ip cs))
  /\ CheckLongTermLimit v now ip limit (run v cs)
     = (limit <=? Z.of_nat (records_in_bucket now (Vars.LongWindow v) ip cs)).
Proof.
  intros Hen Hb Hsh Hmd Hl Hnow Hall Hlen.
  unfold CheckBurstLimit, CheckShortTermLimit, CheckMediumTermLimit,
    CheckLongTermLimit, CheckLimit.
  rewrite Hen; cbn [negb].
  rewrite (GetRequestCount_run v cs now ip "burst" (Vars.BurstWindow v))
    by (assumption || reflexivity).
  rewrite (GetRequestCount_run v cs now ip "short" (Vars.ShortWindow v))
    by (assumption || reflexivity).
  rewrite (GetRequestCount_run v cs now ip "medium" (Vars.MediumWindow v))
    by (assumption || reflexivity).
  rewrite (GetRequestCount_run v cs now ip "long" (Vars.LongWindow v))
    by (assumption || reflexivity).
  repeat split.
Qed.

Lemma limit_checks_compare_with_the_records_witness :
  CheckBurstLimit Vars.initial (1012 * Second) "198.51.100.7" 2
    (run Vars.initial sample_calls)
  = (2 <=? Z.of_nat (records_in_bucket (1012 * Second) 10 "198.51.100.7"
                       sample_calls))
  /\ CheckShortTermLimit Vars.initial (1012 * Second) "198.51.100.7" 2
       (run Vars.initial sample_calls)
     = (2 <=? Z.of_nat (records_in_bucket (1012 * Second) 60 "198.51.100.7"
                          sample_calls))
  /\ CheckMediumTermLimit Vars.initial (1012 * Second) "198.51.100.7" 2
       (run Vars.initial sample_calls)
     = (2 <=? Z.of_nat (records_in_bucket (1012 * Second) 300 "198.51.100.7"
                          sample_calls))
  /\ CheckLongTermLimit Vars.initial (1012 * Second) "198.51.100.7" 2
       (run Vars.initial sample_calls)
     = (2 <=? Z.of_nat (records_in_bucket (1012 * Second) 3600 "198.51.100.7"
                          sample_calls)).
Proof.
  apply (limit_checks_compare_with_the_records Vars.initial sample_calls
           (1012 * Second) "198.51.100.7" 2).
  - reflexivity.
  - cbn. lia.
  - cbn. lia.
  - cbn. lia.
  - cbn. lia.
  - vm_compute. split; discriminate.
  - repeat constructor; vm_compute; discriminate.
  - vm_compute. discriminate.
Defined.

End MultiWindowMore.

(** ** Whitelist learning and multipliers *)

Section WhitelistMore.

Import Adaptive.

(** X17. A cleanup of the whitelist never changes what [CheckWhitelist]
    answers at the same or a later instant: the entries it removes (not
    seen for over 7 days) are no longer trusted (not seen for over 24
    hours). *)
Theorem cleanup_does_not_change_trust v now later ip wl :
  now <= later ->
  CheckWhitelist v later ip (CleanupWhitelist now wl)
  = CheckWhitelist v later ip wl.
Proof.
  intros Hle. unfold CheckWhitelist. destruct (negb _); [reflexivity|].
  unfold CleanupWhitelist.
  destruct (wl !! ip) as [e|] eqn:He.
  - destruct (decide (7 * 24 * Hour < Sub now (LastSeen e))) as [Hold|Hkeep].
    + rewrite map_lookup_filter_None_2.
      2:{ right. intros x Hx. rewrite He in Hx. injection Hx as <-.
          cbn. tauto. }
      pose proof (Sub_mono now later (LastSeen e) Hle). unfold Since.
      destruct (Z.ltb_spec (24 * Hour) (Sub later (LastSeen e)));
        [reflexivity|]. unfold Hour, Second in *. lia.
    + erewrite (proj2 (map_lookup_filter_Some _ wl ip e)); [reflexivity|].
      split; [exact He | exact Hkeep].
  - rewrite map_lookup_filter_None_2; [reflexivity|]. left. exact He.
Qed.

(** An entry seen at instant 0, a cleanup after 8 days, a check after 9. *)
Lemma cleanup_does_not_change_trust_witness :
  CheckWhitelist Vars.initial (9 * 24 * Hour) "198.51.100.7"
    (CleanupWhitelist (8 * 24 * Hour)
       (UpdateWhitelistLearning Vars.initial 0 "198.51.100.7" true ∅))
  = CheckWhitelist Vars.initial (9 * 24 * Hour) "198.51.100.7"
      (UpdateWhitelistLearning Vars.initial 0 "198.51.100.7" true ∅).
Proof.
  apply (cleanup_does_not_change_trust Vars.initial (8 * 24 * Hour)
           (9 * 24 * Hour) "198.51.100.7"
           (UpdateWhitelistLearning Vars.initial 0 "198.51.100.7" true ∅)).
  vm_compute. discriminate.
Defined.

Lemma observe_failure t e k :
  0 <= k <= 9 ->
  RequestCount e = k -> SuccessRate e = S754_zero false ->
  RequestCount (observe t false e) = k + 1
  /\ SuccessRate (observe t false e) = S754_zero false.
Proof.
  intros Hk Hc Hr. unfold observe.
  cbn [RequestCount SuccessRate]. rewrite Hc, Hr. clear Hc Hr e t.
  assert (E : k = 0 \/ k = 1 \/ k = 2 \/ k = 3 \/ k = 4 \/ k = 5 \/ k = 6
              \/ k = 7 \/ k = 8 \/ k = 9) by lia.
  repeat (destruct E as [E|E]; [subst k; split; vm_compute; reflexivity|]).
  subst k; split; vm_compute; reflexivity.
Qed.

Lemma failure_step v t ip wl k :
  Vars.AdaptiveLearningEnabled v = true ->
  0 <= k <= 8 -> failing ip k wl ->
  failing ip (k + 1) (UpdateWhitelistLearning v t ip false wl)
  /\ (LastSeen <$> UpdateWhitelistLearning v t ip false wl !! ip) = Some t.
Proof.
  intros Hen Hk Hf.
  set (e0 := match wl !! ip with
             | Some e => e
             | None => {| IP := ip; AddedAt := t; RequestCount := 0;
                          SuccessRate := of_int 0; LastSeen := t |}
             end).
  assert (H0 : RequestCount e0 = k /\ SuccessRate e0 = S754_zero false).
  { unfold failing in Hf. unfold e0. destruct (wl !! ip).
    - tauto.
    - subst k. split; reflexivity. }
  destruct H0 as [Hc Hr].
  destruct (observe_failure t e0 k ltac:(lia) Hc Hr) as [Hc' Hr'].
  destruct (UpdateWhitelistLearning_lookup v t ip false wl Hen)
    as [[Hl _]|[_ [Hd _]]]; fold e0 in Hl || fold e0 in Hd.
  - unfold failing. rewrite Hl. cbn. repeat split; try assumption; lia.
  - lia.
Qed.

Lemma failure_tenth v t ip wl :
  Vars.AdaptiveLearningEnabled v = true ->
  failing ip 9 wl ->
  UpdateWhitelistLearning v t ip false wl !! ip = None.
Proof.
  intros Hen Hf.
  set (e0 := match wl !! ip with
             | Some e => e
             | None => {| IP := ip; AddedAt := t; RequestCount := 0;
                          SuccessRate := of_int 0; LastSeen := t |}
             end).
  assert (H0 : RequestCount e0 = 9 /\ SuccessRate e0 = S754_zero false).
  { unfold failing in Hf. unfold e0. destruct (wl !! ip); [tauto | lia]. }
  destruct H0 as [Hc Hr].
  destruct (UpdateWhitelistLearning_lookup v t ip false wl Hen)
    as [[_ Hnd]|[Hl _]]; fold e0 in Hnd || fold e0 in Hl; [|exact Hl].
  destruct (observe_failure t e0 9 ltac:(lia) Hc Hr) as [Hc' Hr'].
  exfalso. apply Hnd. unfold demotable. rewrite Hc', Hr'.
  split; [lia | reflexivity].
Qed.

Lemma failing_other v t ip ip' success wl k :
  ip' <> ip -> failing ip k wl ->
  failing ip k (UpdateWhitelistLearning v t ip' success wl).
Proof.
  intros Hne Hf. unfold failing.
  rewrite UpdateWhitelistLearning_other by exact Hne. exact Hf.
Qed.

Lemma failures_run v ip ts : forall k wl,
  Vars.AdaptiveLearningEnabled v = true ->
  0 <= k -> k + Z.of_nat (length ts) <= 9 ->
  failing ip k wl ->
  failing ip (k + Z.of_nat (length ts)) (fold_left (step v) (failures ip ts) wl).
Proof.
  induction ts as [|t ts IH]; intros k wl Hen Hk Hlen Hf.
  - cbn. rewrite Z.add_0_r. exact Hf.
  - cbn [failures map fold_left step length] in *.
    replace (k + Z.of_nat (S (length ts))) with (k + 1 + Z.of_nat (length ts))
      by lia.
    apply IH; [assumption | lia | lia |].
    apply failure_step; [assumption | lia | assumption].
Qed.

(** X18. An address whose first ten observed requests all fail is tracked
    for nine requests, is removed by the tenth and is not trusted then;
    its next request, whatever the outcome, starts a new entry, and
    [CheckWhitelist] answers true again for 24 hours. *)
Theorem ten_failures_remove_and_the_next_request_restores v ip ts t10 wl :
  Vars.AdaptiveLearningEnabled v = true ->
  wl !! ip = None ->
  length ts = 9%nat ->
  let wl9 := fold_left (step v) (failures ip ts) wl in
  let wl10 := fold_left (step v) (failures ip (ts ++ [t10])) wl in
  (exists e, wl9 !! ip = Some e /\ RequestCount e = 9)
  /\ wl10 !! ip = None
  /\ (forall later, CheckWhitelist v later ip wl10 = false)
  /\ (forall t11 later success,
        Sub later t11 <= 24 * Hour ->
        CheckWhitelist v later ip
          (UpdateWhitelistLearning v t11 ip success wl10) = true).
Proof.
  intros Hen Hnone Hlen wl9 wl10.
  assert (H9 : failing ip 9 wl9).
  { unfold wl9. change 9 with (0 + 9) at 1.
    replace 9 with (Z.of_nat (length ts)) at 1 by (rewrite Hlen; reflexivity).
    apply failures_run; [assumption | lia | rewrite Hlen; cbn; lia |].
    unfold failing. rewrite Hnone. reflexivity. }
  assert (H10 : wl10 !! ip = None).
  { unfold wl10, failures. rewrite map_app, fold_left_app.
    cbn [map fold_left step]. apply failure_tenth; assumption. }
  split; [|split; [exact H10|split]].
  - unfold failing in H9. destruct (wl9 !! ip) as [e|]; [|lia].
    exists e. split; [reflexivity | tauto].
  - intros later. unfold CheckWhitelist. rewrite H10.
    destruct (negb _); reflexivity.
  - intros t11 later success Hlate.
    destruct (UpdateWhitelistLearning_lookup v t11 ip success wl10 Hen)
      as [[Hl _]|[_ [Hd _]]].
    + unfold CheckWhitelist. rewrite Hen; cbn [negb]. rewrite Hl.
      rewrite H10. cbn. unfold Since.
      destruct (Z.ltb_spec (24 * Hour) (Sub later t11)); [lia | reflexivity].
    + rewrite H10 in Hd. cbn in Hd. unfold GoInt.add in Hd.
      rewrite wrap64_id in Hd by (vm_compute; split; discriminate). lia.
Qed.

Lemma ten_failures_remove_and_the_next_request_restores_witness :
  let ts := [0; 1; 2; 3; 4; 5; 6; 7; 8] in
  let wl9 := fold_left (step Vars.initial) (failures "203.0.113.9" ts) ∅ in
  let wl10 :=
    fold_left (step Vars.initial) (failures "203.0.113.9" (ts ++ [9])) ∅ in
  (exists e, wl9 !! "203.0.113.9" = Some e /\ RequestCount e = 9)
  /\ wl10 !! "203.0.113.9" = None
  /\ (forall later, CheckWhitelist Vars.initial later "203.0.113.9" wl10 = false)
  /\ (forall t11 later success,
        Sub later t11 <= 24 * Hour ->
        CheckWhitelist Vars.initial later "203.0.113.9"
          (UpdateWhitelistLearning Vars.initial t11 "203.0.113.9" success wl10)
        = true).
Proof.
  apply (ten_failures_remove_and_the_next_request_restores Vars.initial
           "203.0.113.9" [0; 1; 2; 3; 4; 5; 6; 7; 8] 9 ∅).
  - reflexivity.
  - apply lookup_empty.
  - reflexivity.
Defined.

End WhitelistMore.

(** ** Adaptive multiplier: the two directions of a tick *)

Section MultiplierMore.

Import Adaptive.

(** Multiplying a number by one that is at most 1 does not increase it. *)
Lemma mul_le_right x y :
  posnum x = true -> posnum y = true -> leb x one = true ->
  leb (mul x y) y = true.
Proof.
  intros Hx Hy H1.
  destruct (mul_posnum x y Hx Hy)
    as (mx & ex & my & ey & m' & e1 & -> & -> & Hcx & Hcy & Hex & Hey & HR & ->).
  apply (rounded_le _ m' e1 my ey HR Hcy Hey).
  apply (leb_one_sv mx ex Hcx) in H1.
  pose proof (sv_mul (Zpos mx) ex (Zpos my) ey
                ltac:(destruct Hcx; lia) ltac:(destruct Hcy; lia)) as Hm.
  pose proof (sv_pos (Zpos my) ey ltac:(lia) ltac:(destruct Hcy; lia)).
  pose proof (pow2_pos 2148 ltac:(lia)).
  generalize dependent (sv (Zpos mx * Zpos my) (ex + ey)).
  generalize dependent (sv (Zpos mx) ex). generalize dependent (sv (Zpos my) ey).
  generalize dependent (2 ^ 2148). intros. nia.
Qed.

(** Two positive numbers that compare equal are the same number. *)
Lemma compare_Eq_posnum x m e :
  SFcompare x (S754_finite false m e) = Some Eq -> x = S754_finite false m e.
Proof.
  destruct x as [[|]|[|]| |[|] mx ex]; cbn; try discriminate.
  destruct (Z.compare_spec ex e) as [->|?|?]; try discriminate.
  intros H. injection H as H. apply (Pos.compare_eq mx m) in H.
  subst mx. reflexivity.
Qed.

(** X19. With sane multipliers and a base multiplier of at most 1, one
    tick under a bypass attack sets a multiplier that is inside the band
    to exactly the attack multiplier. *)
Theorem bypass_attack_sets_the_attack_multiplier v name d ms :
  Vars.AdaptiveRateLimitEnabled v = true ->
  sane v ->
  leb (Vars.AdaptiveBaseMultiplier v) one = true ->
  in_band v (GetAdaptiveMultiplier v name ms) ->
  BypassAttack d = true ->
  GetAdaptiveMultiplier v name (tick_domain v name d ms)
  = Vars.AdaptiveAttackMultiplier v.
Proof.
  intros Hen Hs Hb1 (Hm & Ham & Hmb) Hby.
  pose proof (sane_not_nan v Hs) as [Hna Hnb].
  destruct (tick_domain_spec v name d ms Hen Hna Hnb) as [-> _].
  destruct Hs as (Ha & Hb & _).
  set (m := GetAdaptiveMultiplier v name ms) in *.
  set (a := Vars.AdaptiveAttackMultiplier v) in *.
  unfold next_multiplier. rewrite Hby. fold a.
  assert (Hle : leb (mul m a) a = true).
  { apply mul_le_right; try assumption. apply (leb_trans _ _ _ Hmb Hb1). }
  destruct (posnum_inv a Ha) as (ma & ea & Ea & _).
  unfold fmax. unfold leb, SFleb in Hle.
  destruct (SFcompare (mul m a) a) as [[| |]|] eqn:E; try discriminate.
  - assert (E' : SFcompare (mul m a) (S754_finite false ma ea) = Some Eq)
      by (rewrite <- Ea; exact E).
    apply compare_Eq_posnum in E'. rewrite E'. symmetry. exact Ea.
  - reflexivity.
Qed.

Lemma bypass_attack_sets_the_attack_multiplier_witness :
  GetAdaptiveMultiplier Vars.initial "example.com"
    (tick_domain Vars.initial "example.com" attacked_domain ∅)
  = Vars.AdaptiveAttackMultiplier Vars.initial.
Proof.
  apply (bypass_attack_sets_the_attack_multiplier Vars.initial "example.com"
           attacked_domain ∅).
  - reflexivity.
  - apply initial_sane.
  - vm_compute. reflexivity.
  - unfold in_band. repeat split; vm_compute; reflexivity.
  - reflexivity.
Defined.

(** X20. With sane multipliers, a tick without attack never lowers a
    multiplier that is inside the band and never raises it above the base
    multiplier. *)
Theorem calm_tick_never_lowers_the_multiplier v name d ms :
  Vars.AdaptiveRateLimitEnabled v = true ->
  sane v ->
  in_band v (GetAdaptiveMultiplier v name ms) ->
  RawAttack d = false -> BypassAttack d = false ->
  leb (GetAdaptiveMultiplier v name ms)
      (GetAdaptiveMultiplier v name (tick_domain v name d ms)) = true
  /\ leb (GetAdaptiveMultiplier v name (tick_domain v name d ms))
         (Vars.AdaptiveBaseMultiplier v) = true.
Proof.
  intros Hen Hs Hband Hraw Hby.
  pose proof (sane_not_nan v Hs) as [Hna Hnb].
  destruct (tick_domain_spec v name d ms Hen Hna Hnb) as [-> _].
  split; [|apply (next_in_band v d _ Hs Hband)].
  destruct Hband as (Hm & Ham & Hmb).
  destruct Hs as (Ha & Hb & Hr & _).
  set (m := GetAdaptiveMultiplier v name ms) in *.
  set (b := Vars.AdaptiveBaseMultiplier v) in *.
  set (r := Vars.AdaptiveDecayRate v) in *.
  pose proof (posnum_not_nan m Hm) as Hnm.
  unfold next_multiplier. rewrite Hraw, Hby. fold b r.
  destruct (ltb m b) eqn:Hlt; [|apply leb_refl; exact Hnm].
  assert (Hstay : leb m (fmin m b) = true).
  { unfold fmin. unfold ltb, SFltb in Hlt.
    destruct (SFcompare m b) as [[| |]|]; try discriminate.
    apply leb_refl; exact Hnm. }
  assert (Htop : leb m (fmin (S754_infinity false) b) = true).
  { replace (fmin (S754_infinity false) b) with b; [exact Hmb|].
    destruct (posnum_inv b Hb) as (mb & eb & Eb & _). rewrite Eb. reflexivity. }
  destruct (posnum_inv m Hm) as (mm & em & Em & _).
  destruct (posnum_inv r Hr) as (mr & er & Er & _).
  assert (Hgrow : forall t, posnum t = true -> leb m (fmin (add m t) b) = true).
  { intros t Ht. destruct (add_ge_left m t Hm Ht) as (Hge & X & m' & e1 & HR & E).
    rewrite E in *.
    destruct (fmin_is_min (rounded false m' e1) b
                (rounded_not_nan _ _ _ HR) Hnb) as (_ & _ & [Hx|Hx]);
      rewrite Hx; assumption. }
  assert (Hz : add m (S754_zero false) = m) by (rewrite Em; reflexivity).
  assert (Hi : add m (S754_infinity false) = S754_infinity false)
    by (rewrite Em; reflexivity).
  assert (Hzr : mul (S754_zero false) r = S754_zero false)
    by (rewrite Er; reflexivity).
  assert (Hir : mul (S754_infinity false) r = S754_infinity false)
    by (rewrite Er; reflexivity).
  destruct (sub_posnum b m Hb Hm Hlt) as (X1 & m1 & e1 & HR1 & E1).
  rewrite E1.
  destruct (rounded_shape X1 m1 e1 HR1) as [Es|[Es|Es]].
  - rewrite Es, Hzr, Hz. exact Hstay.
  - rewrite Es, Hir, Hi. exact Htop.
  - destruct (mul_posnum _ r Es Hr)
      as (? & ? & ? & ? & m2 & e2 & _ & _ & _ & _ & _ & _ & HR2 & E2).
    rewrite E2.
    destruct (rounded_shape _ m2 e2 HR2) as [Et|[Et|Et]].
    + rewrite Et, Hz. exact Hstay.
    + rewrite Et, Hi. exact Htop.
    + apply Hgrow. exact Et.
Qed.

(** From the attack multiplier 0.3, one calm tick. *)
Lemma calm_tick_never_lowers_the_multiplier_witness :
  let ms := tick_domain Vars.initial "example.com" attacked_domain ∅ in
  leb (GetAdaptiveMultiplier Vars.initial "example.com" ms)
      (GetAdaptiveMultiplier Vars.initial "example.com"
         (tick_domain Vars.initial "example.com" (calm_domain 5) ms)) = true
  /\ leb (GetAdaptiveMultiplier Vars.initial "example.com"
            (tick_domain Vars.initial "example.com" (calm_domain 5) ms))
         (Vars.AdaptiveBaseMultiplier Vars.initial) = true.
Proof.
  apply (calm_tick_never_lowers_the_multiplier Vars.initial "example.com"
           (calm_domain 5)
           (tick_domain Vars.initial "example.com" attacked_domain ∅)).
  - reflexivity.
  - apply initial_sane.
  - unfold in_band. repeat split; vm_compute; reflexivity.
  - reflexivity.
  - reflexivity.
Defined.

End MultiplierMore.

(** ** The adaptive limit never exceeds the base limit *)

Section AdaptiveLimitBound.

Import Adaptive.

(** [float64(n)] is exact for a positive integer below 2^53. *)
Lemma of_int_exact n :
  0 < n < 2 ^ 53 ->
  exists m e,
    of_int n = S754_finite false m e
    /\ canon (Zpos m) e /\ e <= 971
    /\ sv (Zpos m) e = n * 2 ^ 2148.
Proof.
  intros Hn. destruct n as [|p|p]; try lia.
  unfold of_int, binary_normalize, prec, emax.
  destruct (binary_round_rounding false p 0 ltac:(lia)) as (m' & e1 & HR & ->).
  assert (HX : sv (Zpos p) 0 = Zpos p * 2 ^ 2148) by reflexivity.
  pose proof (pow2_pos 2148 ltac:(lia)) as H2148.
  assert (He1 : -1074 <= e1 <= 0).
  { destruct HR as [He _ Hnorm _ _]. split; [exact He|].
    destruct (Z_le_gt_dec e1 0) as [|Hgt]; [assumption|exfalso].
    destruct (Hnorm ltac:(lia)) as [_ H52]. rewrite HX in H52. unfold sv in H52.
    replace (e1 + 2148) with (2148 + e1) in H52 by lia.
    rewrite pow2_split in H52 by lia.
    pose proof (Z.pow_le_mono_r 2 1 e1 ltac:(lia) ltac:(lia)) as Hp.
    change (2 ^ 1) with 2 in Hp. change (2 ^ 53) with (2 ^ 52 * 2) in Hn.
    nia. }
  assert (HM : sv (Zpos p * 2 ^ (- e1)) e1 = sv (Zpos p) 0).
  { symmetry. rewrite (sv_lower (Zpos p) 0 e1) by lia.
    replace (0 - e1) with (- e1) by lia. reflexivity. }
  assert (Hm' : m' = Zpos p * 2 ^ (- e1)).
  { destruct HR as [_ _ _ Hup Hdown].
    pose proof (Hup (Zpos p * 2 ^ (- e1)) ltac:(lia)).
    pose proof (Hdown (Zpos p * 2 ^ (- e1)) ltac:(lia)). lia. }
  assert (Hpos : 0 < m').
  { rewrite Hm'. pose proof (pow2_pos (- e1) ltac:(lia)). nia. }
  destruct (rounded_finite false _ m' e1 HR Hpos) as (mf & ef & Hc & Hsv & ->).
  assert (Hval : sv (Zpos mf) ef = Zpos p * 2 ^ 2148).
  { rewrite Hsv, Hm', HM. exact HX. }
  assert (Hef : ef <= 971).
  { destruct (Z_le_gt_dec ef 971) as [|Hgt]; [assumption|exfalso].
    destruct Hc as (_ & _ & Hnorm). pose proof (Hnorm ltac:(lia)) as H52.
    unfold sv in Hval. replace (ef + 2148) with (2148 + ef) in Hval by lia.
    rewrite pow2_split in Hval by lia.
    pose proof (Z.pow_le_mono_r 2 1 ef ltac:(lia) ltac:(lia)) as Hp.
    change (2 ^ 1) with 2 in Hp. change (2 ^ 53) with (2 ^ 52 * 2) in Hn.
    nia. }
  exists mf, ef. destruct (Z.leb_spec ef 971); [|lia].
  repeat split; try assumption; apply Hc.
Qed.

(** [int(x)] of a positive number is the integer part of its value. *)
Lemma to_int_posnum m e :
  canon (Zpos m) e ->
  sv (Zpos m) e / 2 ^ 2148 <= max_int ->
  to_int (S754_finite false m e) = sv (Zpos m) e / 2 ^ 2148.
Proof.
  intros (He & Hm & _) Hmax.
  pose proof (pow2_pos 2148 ltac:(lia)) as H2148.
  assert (Hmag : match e with
                 | Zneg p => Z.shiftr (Zpos m) (Zpos p)
                 | _ => Z.shiftl (Zpos m) e
                 end = sv (Zpos m) e / 2 ^ 2148).
  { unfold sv. destruct e as [|p|p].
    - rewrite Z.shiftl_0_r. cbn [Z.add]. rewrite Z.div_mul by lia. reflexivity.
    - rewrite Z.shiftl_mul_pow2 by lia. rewrite pow2_split by lia.
      rewrite Z.mul_assoc, Z.div_mul by lia. reflexivity.
    - rewrite Z.shiftr_div_pow2 by lia.
      replace (2 ^ 2148) with (2 ^ Zpos p * 2 ^ (Zneg p + 2148)).
      2:{ rewrite <- pow2_split by lia. f_equal. lia. }
      pose proof (pow2_pos (Zneg p + 2148) ltac:(lia)).
      pose proof (pow2_pos (Zpos p) ltac:(lia)).
      rewrite Z.div_mul_cancel_r by lia. reflexivity. }
  unfold to_int. rewrite Hmag.
  assert (0 <= sv (Zpos m) e / 2 ^ 2148).
  { apply Z.div_pos; [|lia]. unfold sv.
    pose proof (pow2_pos (e + 2148) ltac:(lia)). nia. }
  destruct (Z.leb_spec min_int (sv (Zpos m) e / 2 ^ 2148));
    [|unfold min_int in *; lia].
  destruct (Z.leb_spec (sv (Zpos m) e / 2 ^ 2148) max_int); [|lia].
  reflexivity.
Qed.

(** The integer part of a product that is at most [float64(n)]. *)
Lemma to_int_below n B x X m' e1 mB eB :
  0 < n < 2 ^ 53 ->
  B = S754_finite false mB eB -> canon (Zpos mB) eB ->
  sv (Zpos mB) eB = n * 2 ^ 2148 ->
  rounding X m' e1 -> x = rounded false m' e1 ->
  leb x B = true ->
  0 <= to_int x <= n.
Proof.
  intros Hn HB HcB HsvB HR Hx Hle.
  pose proof (pow2_pos 2148 ltac:(lia)) as H2148.
  destruct (rounded_shape X m' e1 HR) as [E|[E|E]]; rewrite <- Hx in E.
  - rewrite E. cbn. lia.
  - rewrite E, HB in Hle. discriminate.
  - destruct (posnum_inv x E) as (mx & ex & Ex & Hcx & Hex).
    rewrite Ex, HB in Hle. apply (leb_canon mx ex mB eB Hcx HcB) in Hle.
    rewrite HsvB in Hle.
    assert (Hq : 0 <= sv (Zpos mx) ex / 2 ^ 2148 <= n).
    { split.
      - apply Z.div_pos; [|lia].
        pose proof (sv_pos (Zpos mx) ex ltac:(lia) ltac:(destruct Hcx; lia)). lia.
      - apply Z.div_le_upper_bound; lia. }
    rewrite Ex, to_int_posnum; [exact Hq | exact Hcx |].
    unfold max_int. change (2 ^ 53) with 9007199254740992 in Hn. lia.
Qed.

(** X21. With sane multipliers, a base multiplier of at most 1, a
    multiplier inside the band and a base limit from 0 to 2^53 - 1 (where
    the conversion to float64 is exact), the adaptive limit lies between 0
    and the base limit, and it is the base limit while the multiplier of
    the domain is 1. *)
Theorem adaptive_limit_is_at_most_the_base_limit v baseLimit name ms :
  Vars.AdaptiveRateLimitEnabled v = true ->
  sane v ->
  leb (Vars.AdaptiveBaseMultiplier v) one = true ->
  in_band v (GetAdaptiveMultiplier v name ms) ->
  0 <= baseLimit < 2 ^ 53 ->
  0 <= GetAdaptiveRateLimit v baseLimit name ms <= baseLimit
  /\ (GetAdaptiveMultiplier v name ms = one ->
      GetAdaptiveRateLimit v baseLimit name ms = baseLimit).
Proof.
  intros Hen Hs Hb1 (Hm & Ham & Hmb) Hbase.
  destruct Hs as (Ha & Hb & _ & Ha1 & _).
  unfold GetAdaptiveRateLimit. rewrite Hen; cbn [negb].
  set (m := GetAdaptiveMultiplier v name ms) in *.
  set (a := Vars.AdaptiveAttackMultiplier v) in *.
  assert (Hm1 : leb m one = true) by (apply (leb_trans _ _ _ Hmb Hb1)).
  destruct (Z.eq_dec baseLimit 0) as [->|Hnz].
  { destruct (posnum_inv m Hm) as (mm & em & -> & _).
    destruct (posnum_inv a Ha) as (ma & ea & -> & _).
    cbn. split; [lia|reflexivity]. }
  assert (Hn : 0 < baseLimit < 2 ^ 53) by lia.
  destruct (of_int_exact baseLimit Hn) as (mB & eB & EB & HcB & HeB & HsvB).
  set (B := of_int baseLimit) in *.
  assert (HpB : posnum B = true) by (rewrite EB; apply posnum_intro; assumption).
  destruct (mul_posnum B m HpB Hm)
    as (? & ? & ? & ? & m1 & e1 & _ & _ & _ & _ & _ & _ & HR1 & E1).
  destruct (mul_posnum B a HpB Ha)
    as (? & ? & ? & ? & m2 & e2 & _ & _ & _ & _ & _ & _ & HR2 & E2).
  pose proof (mul_le_left B m HpB Hm Hm1) as Hle1.
  pose proof (mul_le_left B a HpB Ha Ha1) as Hle2.
  pose proof (to_int_below baseLimit B (mul B m) _ m1 e1 mB eB
                Hn EB HcB HsvB HR1 E1 Hle1) as Hr1.
  pose proof (to_int_below baseLimit B (mul B a) _ m2 e2 mB eB
                Hn EB HcB HsvB HR2 E2 Hle2) as Hr2.
  split.
  - destruct (ltb (mul B m) (mul B a)); assumption.
  - intros Hone. rewrite Hone in *.
    assert (Hge1 : leb B (mul B one) = true)
      by (apply mul_ge_left; [exact HpB | reflexivity | reflexivity]).
    assert (Heq : mul B one = B).
    { unfold leb, SFleb in Hle1, Hge1.
      rewrite (SFcompare_antisym (mul B one) B) in Hge1.
      destruct (SFcompare (mul B one) B) as [[| |]|] eqn:E; try discriminate.
      rewrite EB in E at 2. apply compare_Eq_posnum in E.
      rewrite E. symmetry. exact EB. }
    rewrite Heq in *.
    destruct (ltb B (mul B a)) eqn:Hlt.
    + apply ltb_leb_excl in Hlt. congruence.
    + rewrite EB, to_int_posnum; [| exact HcB |].
      * rewrite HsvB. apply Z.div_mul.
        pose proof (pow2_pos 2148 ltac:(lia)). lia.
      * rewrite HsvB, Z.div_mul by (pose proof (pow2_pos 2148 ltac:(lia)); lia).
        unfold max_int. change (2 ^ 53) with 9007199254740992 in Hn. lia.
Qed.

Lemma adaptive_limit_is_at_most_the_base_limit_witness :
  0 <= GetAdaptiveRateLimit Vars.initial 100 "example.com" ∅ <= 100
  /\ (GetAdaptiveMultiplier Vars.initial "example.com" ∅ = one ->
      GetAdaptiveRateLimit Vars.initial 100 "example.com" ∅ = 100).
Proof.
  apply (adaptive_limit_is_at_most_the_base_limit Vars.initial 100
           "example.com" ∅).
  - reflexivity.
  - apply initial_sane.
  - vm_compute. reflexivity.
  - unfold in_band. repeat split; vm_compute; reflexivity.
  - lia.
Defined.

End AdaptiveLimitBound.

(** ** Challenge difficulty: monotonicity *)

Section ChallengeMore.

Import Reputation Challenge.

Lemma reputation_adjustment_range score :
  -1 <= reputation_adjustment score <= 3.
Proof.
  unfold reputation_adjustment.
  repeat match goal with
         | |- context [if ?b then _ else _] => destruct b
         end; lia.
Qed.

Lemma reputation_adjustment_antitone s1 s2 :
  s2 <= s1 -> reputation_adjustment s1 <= reputation_adjustment s2.
Proof.
  intros H. unfold reputation_adjustment.
  repeat match goal with
         | |- context [?a <? ?b] => destruct (Z.ltb_spec a b)
         | |- context [?a <=? ?b] => destruct (Z.leb_spec a b)
         end; lia.
Qed.

Lemma attack_adjustment_range d : 0 <= attack_adjustment d <= 2.
Proof.
  unfold attack_adjustment. destruct (BypassAttack d), (RawAttack d); lia.
Qed.

Lemma stage_adjustment_range d : -1 <= stage_adjustment d <= 1.
Proof.
  unfold stage_adjustment.
  destruct (Stage d =? 3), (Stage d =? 2); lia.
Qed.

Lemma clamp_mono lo hi x y : x <= y -> clamp lo hi x <= clamp lo hi y.
Proof.
  intros H. unfold clamp.
  destruct (Z.ltb_spec x lo), (Z.ltb_spec y lo);
    repeat match goal with
           | |- context [?a <? ?b] => destruct (Z.ltb_spec a b)
           end; lia.
Qed.

(** The difficulty of a known domain when the sum does not wrap. *)
Lemma CalculateDynamicDifficulty_value v doms ip name base d s :
  Vars.DynamicDifficultyEnabled v = true ->
  ReputationMutex s <> WLocked ->
  doms !! name = Some d ->
  - 2 ^ 62 <= base <= 2 ^ 62 ->
  CalculateDynamicDifficulty v doms ip name base s
  = Returns (clamp (Vars.MinDifficulty v) (Vars.MaxDifficulty v)
               (base + reputation_adjustment (score_of v s ip)
                + attack_adjustment d + stage_adjustment d)) s.
Proof.
  intros Hen Hmu Hd Hb. unfold CalculateDynamicDifficulty.
  rewrite Hen; cbn [negb]. unfold bind.
  rewrite GetReputationScore_returns by assumption. rewrite Hd. unfold ret.
  f_equal.
  fold (reputation_adjustment (score_of v s ip)).
  fold (attack_adjustment d). fold (stage_adjustment d).
  pose proof (reputation_adjustment_range (score_of v s ip)).
  pose proof (attack_adjustment_range d).
  pose proof (stage_adjustment_range d).
  unfold GoInt.add.
  set (r := reputation_adjustment (score_of v s ip)) in *.
  set (a := attack_adjustment d) in *. set (st := stage_adjustment d) in *.
  rewrite (wrap64_id (base + r)) by (unfold in_range, min_int, max_int; lia).
  rewrite (wrap64_id (base + r + a))
    by (unfold in_range, min_int, max_int; lia).
  rewrite (wrap64_id (base + r + a + st))
    by (unfold in_range, min_int, max_int; lia).
  reflexivity.
Qed.

(** X22. The difficulty is monotone in its three signals: for the same
    base difficulty (no wrap-around), a score that is not higher, an attack
    adjustment that is not lower and a stage adjustment that is not lower
    give a difficulty that is not lower. *)
Theorem difficulty_is_monotone v doms1 doms2 ip1 ip2 name1 name2 base d1 d2 s1 s2 :
  Vars.DynamicDifficultyEnabled v = true ->
  ReputationMutex s1 <> WLocked ->
  ReputationMutex s2 <> WLocked ->
  doms1 !! name1 = Some d1 ->
  doms2 !! name2 = Some d2 ->
  - 2 ^ 62 <= base <= 2 ^ 62 ->
  score_of v s2 ip2 <= score_of v s1 ip1 ->
  attack_adjustment d1 <= attack_adjustment d2 ->
  stage_adjustment d1 <= stage_adjustment d2 ->
  exists r1 r2,
    CalculateDynamicDifficulty v doms1 ip1 name1 base s1 = Returns r1 s1
    /\ CalculateDynamicDifficulty v doms2 ip2 name2 base s2 = Returns r2 s2
    /\ r1 <= r2.
Proof.
  intros Hen Hm1 Hm2 Hd1 Hd2 Hb Hs Ha Hst.
  rewrite (CalculateDynamicDifficulty_value v doms1 ip1 name1 base d1 s1)
    by assumption.
  rewrite (CalculateDynamicDifficulty_value v doms2 ip2 name2 base d2 s2)
    by assumption.
  eexists. eexists. split; [reflexivity|]. split; [reflexivity|].
  apply clamp_mono.
  pose proof (reputation_adjustment_antitone _ _ Hs). lia.
Qed.

(** Score 80 on a calm stage-1 domain against score 20 on a stage-3 domain
    under a bypass attack. *)
Lemma difficulty_is_monotone_witness :
  exists r1 r2,
    CalculateDynamicDifficulty Vars.initial
      {["example.com" := calm_domain 5]} "198.51.100.7" "example.com" 5
      (sample_store "198.51.100.7" 80 0)
    = Returns r1 (sample_store "198.51.100.7" 80 0)
    /\ CalculateDynamicDifficulty Vars.initial
         {["example.com" := attacked_domain]} "203.0.113.9" "example.com" 5
         (sample_store "203.0.113.9" 20 0)
       = Returns r2 (sample_store "203.0.113.9" 20 0)
    /\ r1 <= r2.
Proof.
  apply (difficulty_is_monotone Vars.initial
           {["example.com" := calm_domain 5]}
           {["example.com" := attacked_domain]}
           "198.51.100.7" "203.0.113.9" "example.com" "example.com" 5
           (calm_domain 5) attacked_domain
           (sample_store "198.51.100.7" 80 0)
           (sample_store "203.0.113.9" 20 0)).
  - reflexivity.
  - discriminate.
  - discriminate.
  - reflexivity.
  - reflexivity.
  - lia.
  - vm_compute. discriminate.
  - vm_compute. discriminate.
  - vm_compute. discriminate.
Defined.

End ChallengeMore.

(** ** The loader *)

Section LoaderFacts.

Lemma pick_idem c x : Vars.pick c (Vars.pick c x) = Vars.pick c x.
Proof. unfold Vars.pick. destruct (0 <? c); reflexivity. Qed.

Lemma pickf_idem c x : Vars.pickf c (Vars.pickf c x) = Vars.pickf c x.
Proof. unfold Vars.pickf. destruct (gtb c (of_int 0)); reflexivity. Qed.

Lemma pick_positive c x : 0 < x -> 0 < Vars.pick c x.
Proof.
  intros H. unfold Vars.pick. destruct (Z.ltb_spec 0 c); assumption.
Qed.

Lemma pickf_positive c x :
  gtb x (of_int 0) = true -> gtb (Vars.pickf c x) (of_int 0) = true.
Proof.
  intros H. unfold Vars.pickf. destruct (gtb c (of_int 0)) eqn:E; assumption.
Qed.

(** X23. Loading the same configuration twice gives the same variables as
    loading it once, and a load keeps every numeric setting positive: a
    zero or negative value of the file is ignored. *)
Theorem Load_is_idempotent_and_keeps_settings_positive c v :
  Vars.Load c (Vars.Load c v) = Vars.Load c v
  /\ (positive_settings v -> positive_settings (Vars.Load c v)).
Proof.
  split.
  - unfold Vars.Load. cbn.
    destruct (rep_Enabled c), (arl_Enabled c), (ch_DynamicDifficulty c);
      rewrite ?pick_idem, ?pickf_idem; reflexivity.
  - unfold positive_settings. cbn.
    intros (H1 & H2 & H3 & H4 & H5 & H6 & H7 & H8 & H9 & H10 & H11 & H12 & H13 & H14).
    destruct (rep_Enabled c), (arl_Enabled c);
      repeat split;
      first [ assumption | apply pick_positive; assumption
            | apply pickf_positive; assumption ].
Qed.

End LoaderFacts.

(** ** Geo/ASN filter *)

Section GeoFacts.

Import Geo.

Variable EqualFold : string -> string -> bool.

(** A lookup that misses the cache is decided by the answer alone. *)
Lemma GetGeoData_miss g now fetched ip resp cache :
  GeoFilteringEnabled g = true ->
  cache_miss g now ip cache ->
  GetGeoData g now fetched ip resp cache =
    match resp with
    | GetFailed => ((None, Some FetchError), cache)
    | Answer statusCode b =>
        if negb (statusCode =? 200)
        then ((None, Some (StatusError statusCode)), cache)
        else match b with
             | ReadFailed => ((None, Some ReadError), cache)
             | Unparsable => ((None, Some ParseError), cache)
             | Document d =>
                 if negb (String.eqb (Status d) "ok")
                 then ((None, Some ApiError), cache)
                 else ((Some (set_cached_at fetched d), None),
                       <[ip := set_cached_at fetched d]> cache)
             end
    end.
Proof.
  intros Hen Hmiss. unfold GetGeoData. rewrite Hen; cbn [negb].
  destruct (cache !! ip) as [c|] eqn:Hc; [|reflexivity].
  specialize (Hmiss c Hc).
  destruct (Z.ltb_spec (Since now (CachedAt c)) (GeoCacheTTL g)); [lia|].
  reflexivity.
Qed.

Lemma GetGeoData_hit g now fetched ip resp cache c :
  GeoFilteringEnabled g = true ->
  cache !! ip = Some c ->
  Since now (CachedAt c) < GeoCacheTTL g ->
  GetGeoData g now fetched ip resp cache = ((Some c, None), cache).
Proof.
  intros Hen Hc Hfresh. unfold GetGeoData. rewrite Hen, Hc; cbn [negb].
  destruct (Z.ltb_spec (Since now (CachedAt c)) (GeoCacheTTL g)); [|lia].
  reflexivity.
Qed.

(** X24. A successful lookup is cached. On a cache miss, an answer with
    status code 200 and a record whose status is "ok" is returned with its
    caching time set and is stored under the address; until the TTL has
    passed, later calls return that record whatever the service would
    answer, and leave the cache as it is. *)
Theorem successful_lookup_is_cached g now fetched ip d cache :
  GeoFilteringEnabled g = true ->
  cache_miss g now ip cache ->
  Status d = "ok" ->
  let geoData := set_cached_at fetched d in
  GetGeoData g now fetched ip (Answer 200 (Document d)) cache
  = ((Some geoData, None), <[ip := geoData]> cache)
  /\ forall later fetched' resp',
       Since later fetched < GeoCacheTTL g ->
       GetGeoData g later fetched' ip resp' (<[ip := geoData]> cache)
       = ((Some geoData, None), <[ip := geoData]> cache).
Proof.
  intros Hen Hmiss Hok geoData. split.
  - rewrite GetGeoData_miss by assumption. cbn. rewrite Hok. reflexivity.
  - intros later fetched' resp' Hfresh.
    apply GetGeoData_hit; [assumption | apply lookup_insert_eq | exact Hfresh].
Qed.

Lemma successful_lookup_is_cached_witness :
  let g := geo_settings "blacklist" [] ["RU"] [] false in
  let d := sample_geo 64500 "Russia" "ru" "ok" in
  let geoData := set_cached_at 5 d in
  GetGeoData g 0 5 "203.0.113.9" (Answer 200 (Document d)) ∅
  = ((Some geoData, None), <["203.0.113.9" := geoData]> ∅)
  /\ forall later fetched' resp',
       Since later 5 < GeoCacheTTL g ->
       GetGeoData g later fetched' "203.0.113.9" resp'
         (<["203.0.113.9" := geoData]> ∅)
       = ((Some geoData, None), <["203.0.113.9" := geoData]> ∅).
Proof.
  apply (successful_lookup_is_cached
           (geo_settings "blacklist" [] ["RU"] [] false) 0 5 "203.0.113.9"
           (sample_geo 64500 "Russia" "ru" "ok") ∅).
  - reflexivity.
  - intros c Hc. rewrite lookup_empty in Hc. discriminate.
  - reflexivity.
Defined.

Lemma lookup_fails_error g now fetched ip resp cache :
  GeoFilteringEnabled g = true ->
  cache_miss g now ip cache ->
  lookup_fails resp ->
  exists e, GetGeoData g now fetched ip resp cache = ((None, Some e), cache).
Proof.
  intros Hen Hmiss Hfail. rewrite GetGeoData_miss by assumption.
  destruct resp as [|code b]; [eexists; reflexivity|].
  destruct (Z.eqb_spec code 200) as [->|Hne]; cbn [negb];
    [|eexists; reflexivity].
  destruct Hfail as [Hf|Hf]; [contradiction|].
  destruct b as [| |d]; try (eexists; reflexivity).
  destruct (String.eqb_spec (Status d) "ok"); [contradiction|].
  eexists; reflexivity.
Qed.

(** X25. A failed lookup (request error, status code other than 200,
    unreadable or undecodable body, record status other than "ok") yields
    an error and leaves the cache untouched, also when an expired record of
    the address is in the cache. [CheckGeoFilter] then answers blocked with
    reason "challenge" when ChallengeUnknown is set, and lets the address
    pass otherwise. *)
Theorem failed_lookup_is_not_cached g now fetched ip resp cache :
  GeoFilteringEnabled g = true ->
  cache_miss g now ip cache ->
  lookup_fails resp ->
  (exists e, GetGeoData g now fetched ip resp cache = ((None, Some e), cache))
  /\ CheckGeoFilter EqualFold g now fetched ip resp cache
     = (Some (ChallengeUnknown g, if ChallengeUnknown g then "challenge" else ""),
        cache).
Proof.
  intros Hen Hmiss Hfail.
  destruct (lookup_fails_error g now fetched ip resp cache Hen Hmiss Hfail)
    as [e He].
  split; [exists e; exact He|].
  unfold CheckGeoFilter. rewrite Hen; cbn [negb]. rewrite He.
  destruct (ChallengeUnknown g); reflexivity.
Qed.

Lemma asn_loop_found d l :
  asn_loop (Some d) l
  = Some (if existsb (Z.eqb (ASN d)) l then Some (ASN d) else None).
Proof.
  induction l as [|b l IH]; [reflexivity|]. cbn.
  destruct (Z.eqb_spec (ASN d) b) as [->|]; [reflexivity | exact IH].
Qed.

Lemma country_loop_found d l :
  country_loop EqualFold (Some d) l
  = Some (existsb (EqualFold (CountryCode d)) l).
Proof.
  induction l as [|c l IH]; [reflexivity|]. cbn.
  destruct (EqualFold (CountryCode d) c); [reflexivity | exact IH].
Qed.

(** With the filter on, [GetGeoData] returns a record or an error. *)
Lemma GetGeoData_result g now fetched ip resp cache :
  GeoFilteringEnabled g = true ->
  (exists d, fst (GetGeoData g now fetched ip resp cache) = (Some d, None))
  \/ (exists e, fst (GetGeoData g now fetched ip resp cache) = (None, Some e)).
Proof.
  intros Hen. unfold GetGeoData. rewrite Hen; cbn [negb].
  repeat match goal with
         | |- context [match ?x with _ => _ end] => destruct x
         end; cbn; eauto.
Qed.

(** X26. [CheckGeoFilter] never reads a field of a nil record. For a
    record that the lookup returns it blocks exactly when the ASN is
    listed, or the country code is not on the whitelist (mode
    "whitelist"), or is on the blacklist (any other mode), the codes being
    compared by [strings.EqualFold]; a listed ASN gives the ASN reason
    whatever the country, and a pass has the empty reason. *)
Theorem CheckGeoFilter_decides g now fetched ip resp cache :
  fst (CheckGeoFilter EqualFold g now fetched ip resp cache) <> None
  /\ forall d cache',
       GeoFilteringEnabled g = true ->
       GetGeoData g now fetched ip resp cache = ((Some d, None), cache') ->
       exists reason,
         CheckGeoFilter EqualFold g now fetched ip resp cache
         = (Some (geo_blocked EqualFold g d, reason), cache')
         /\ (existsb (Z.eqb (ASN d)) (BlockedASN g) = true ->
             reason = "ASN " +:+ pretty (ASN d) +:+ " is blocked")
         /\ (geo_blocked EqualFold g d = false -> reason = "").
Proof.
  assert (Hfound : forall d cache',
            GeoFilteringEnabled g = true ->
            GetGeoData g now fetched ip resp cache = ((Some d, None), cache') ->
            exists reason,
              CheckGeoFilter EqualFold g now fetched ip resp cache
              = (Some (geo_blocked EqualFold g d, reason), cache')
              /\ (existsb (Z.eqb (ASN d)) (BlockedASN g) = true ->
                  reason = "ASN " +:+ pretty (ASN d) +:+ " is blocked")
              /\ (geo_blocked EqualFold g d = false -> reason = "")).
  { intros d cache' Hen Hget. unfold CheckGeoFilter, geo_blocked.
    rewrite Hen; cbn [negb]. rewrite Hget.
    rewrite asn_loop_found.
    destruct (existsb (Z.eqb (ASN d)) (BlockedASN g)); cbn [orb].
    - eexists. split; [reflexivity|]. split; [reflexivity | discriminate].
    - destruct (String.eqb (GeoFilterMode g) "whitelist");
        rewrite country_loop_found;
        destruct (existsb (EqualFold (CountryCode d)) _); cbn;
        eexists; (split; [reflexivity|]); split; try discriminate; reflexivity. }
  split; [|exact Hfound].
  destruct (GeoFilteringEnabled g) eqn:Hen.
  - destruct (GetGeoData_result g now fetched ip resp cache Hen) as [[d Hd]|[e He]].
    + destruct (GetGeoData g now fetched ip resp cache) as [r cache'] eqn:Hget.
      cbn in Hd. subst r.
      destruct (Hfound d cache' eq_refl eq_refl) as (reason & -> & _).
      discriminate.
    + unfold CheckGeoFilter. rewrite Hen; cbn [negb].
      destruct (GetGeoData g now fetched ip resp cache) as [r cache'].
      cbn in He. subst r. destruct (ChallengeUnknown g); discriminate.
  - unfold CheckGeoFilter. rewrite Hen. discriminate.
Qed.

End GeoFacts.

(** The scenarios of the specification: a blacklisted country whose code
    arrives in lower case, and a listed ASN in whitelist mode. *)
Example geo_blacklist_ignores_case :
  fst (Geo.CheckGeoFilter ascii_EqualFold
         (geo_settings "blacklist" [] ["RU"] [] false) 0 5 "203.0.113.9"
         (Geo.Answer 200 (Geo.Document (sample_geo 64500 "Russia" "ru" "ok"))) ∅)
  = Some (true, "Country Russia (ru) is blocked")
  /\ fst (Geo.CheckGeoFilter ascii_EqualFold
            (geo_settings "whitelist" ["RU"] [] [64500] false) 0 5 "203.0.113.9"
            (Geo.Answer 200 (Geo.Document (sample_geo 64500 "Russia" "ru" "ok"))) ∅)
     = Some (true, "ASN 64500 is blocked").
Proof. split; vm_compute; reflexivity. Qed.

Section GeoCacheFacts.

Import Geo.

(** The lookup service answers 503: the address passes. *)
Lemma failed_lookup_is_not_cached_witness :
  let g := geo_settings "blacklist" [] ["RU"] [] false in
  (exists e, GetGeoData g 0 5 "203.0.113.9" (Answer 503 ReadFailed) ∅
             = ((None, Some e), ∅))
  /\ CheckGeoFilter ascii_EqualFold g 0 5 "203.0.113.9" (Answer 503 ReadFailed) ∅
     = (Some (false, ""), ∅).
Proof.
  apply (failed_lookup_is_not_cached ascii_EqualFold
           (geo_settings "blacklist" [] ["RU"] [] false) 0 5 "203.0.113.9"
           (Answer 503 ReadFailed) ∅).
  - reflexivity.
  - intros c Hc. rewrite lookup_empty in Hc. discriminate.
  - left. discriminate.
Defined.

(** X27. [CleanupGeoCache] keeps exactly the records that are at most two
    TTLs old, and it does not change what [GetGeoData] returns at the same
    or a later instant. *)
Theorem cache_cleanup_does_not_change_lookups g now later fetched ip resp cache :
  0 <= GeoCacheTTL g < 2 ^ 62 ->
  now <= later ->
  fst (GetGeoData g later fetched ip resp (CleanupGeoCache g now cache))
  = fst (GetGeoData g later fetched ip resp cache)
  /\ (forall c, CleanupGeoCache g now cache !! ip = Some c ->
                cache !! ip = Some c
                /\ Sub now (CachedAt c) <= 2 * GeoCacheTTL g)
  /\ (forall c, cache !! ip = Some c ->
                Sub now (CachedAt c) <= 2 * GeoCacheTTL g ->
                CleanupGeoCache g now cache !! ip = Some c).
Proof.
  intros Httl Hle.
  assert (Hm : GoInt.mul (GeoCacheTTL g) 2 = 2 * GeoCacheTTL g).
  { unfold GoInt.mul. rewrite wrap64_id
      by (unfold in_range, min_int, max_int; lia). lia. }
  assert (Hl : forall c, cache !! ip = Some c ->
             CleanupGeoCache g now cache !! ip
             = if decide (2 * GeoCacheTTL g < Sub now (CachedAt c))
               then None else Some c).
  { intros c Hc. unfold CleanupGeoCache. rewrite Hm.
    destruct (decide (2 * GeoCacheTTL g < Sub now (CachedAt c))) as [Hold|Hkeep].
    - apply map_lookup_filter_None_2. right. intros x Hx.
      rewrite Hc in Hx. injection Hx as <-. cbn. tauto.
    - apply map_lookup_filter_Some_2; [exact Hc | exact Hkeep]. }
  split; [|split].
  - unfold GetGeoData. destruct (negb _); [reflexivity|].
    destruct (cache !! ip) as [c|] eqn:Hc.
    + rewrite (Hl c eq_refl).
      destruct (decide (2 * GeoCacheTTL g < Sub now (CachedAt c))) as [Hold|Hkeep].
      2:{ repeat match goal with
                 | |- context [match ?x with _ => _ end] => destruct x
                 end; reflexivity. }
      pose proof (Sub_mono now later (CachedAt c) Hle). unfold Since.
      destruct (Z.ltb_spec (Sub later (CachedAt c)) (GeoCacheTTL g)); [lia|].
      repeat match goal with
             | |- context [match ?x with _ => _ end] => destruct x
             end; reflexivity.
    + unfold CleanupGeoCache.
      rewrite map_lookup_filter_None_2 by (left; exact Hc).
      repeat match goal with
             | |- context [match ?x with _ => _ end] => destruct x
             end; reflexivity.
  - intros c Hc. unfold CleanupGeoCache in Hc.
    apply map_lookup_filter_Some in Hc. destruct Hc as [Hc Hk]. cbn in Hk.
    split; [exact Hc | lia].
  - intros c Hc Hk. rewrite (Hl c Hc). rewrite decide_False by lia. reflexivity.
Qed.

(** A record cached at instant 0, a cleanup after 50 hours, a lookup after
    51 hours. *)
Lemma cache_cleanup_does_not_change_lookups_witness :
  let g := geo_settings "blacklist" [] ["RU"] [] false in
  let cache := {["203.0.113.9" := sample_geo 64500 "Russia" "ru" "ok"]} in
  fst (GetGeoData g (51 * Hour) (51 * Hour) "203.0.113.9" GetFailed
         (CleanupGeoCache g (50 * Hour) cache))
  = fst (GetGeoData g (51 * Hour) (51 * Hour) "203.0.113.9" GetFailed cache)
  /\ CleanupGeoCache g (50 * Hour) cache !! "203.0.113.9" = None.
Proof.
  destruct (cache_cleanup_does_not_change_lookups
              (geo_settings "blacklist" [] ["RU"] [] false)
              (50 * Hour) (51 * Hour) (51 * Hour) "203.0.113.9" GetFailed
              {["203.0.113.9" := sample_geo 64500 "Russia" "ru" "ok"]})
    as (H1 & _ & _).
  - vm_compute. split; [discriminate | reflexivity].
  - vm_compute. discriminate.
  - split; [exact H1 | reflexivity].
Defined.

End GeoCacheFacts.

(** ** Per-address metrics *)

Section MetricsFacts.

Import Metrics.

Lemma sound_new now ip n : 0 <= n -> sound_metrics n ip (new_metrics now ip).
Proof. intros Hn. unfold sound_metrics. cbn. repeat split; lia. Qed.

Lemma sound_metrics_of n now ip m :
  0 <= n ->
  (forall ip' x, m !! ip' = Some x -> sound_metrics n ip' x) ->
  sound_metrics n ip (metrics_of now ip m).
Proof.
  intros Hn Hm. unfold metrics_of. destruct (m !! ip) as [x|] eqn:E.
  - apply Hm. exact E.
  - apply sound_new. exact Hn.
Qed.

Lemma add_one n x : 0 <= x <= n -> n < max_int -> GoInt.add x 1 = x + 1.
Proof.
  intros Hx Hn. unfold GoInt.add. apply wrap64_id.
  unfold in_range, min_int, max_int in *. lia.
Qed.

Lemma step_sound enabled n m c :
  0 <= n < max_int ->
  (forall ip x, m !! ip = Some x -> sound_metrics n ip x) ->
  forall ip x, step enabled m c !! ip = Some x -> sound_metrics (n + 1) ip x.
Proof.
  intros Hn Hm.
  assert (Hweak : forall ip x, m !! ip = Some x -> sound_metrics (n + 1) ip x).
  { intros ip x Hx. specialize (Hm ip x Hx). unfold sound_metrics in *.
    destruct Hm as (? & ? & ? & ? & ? & ?). repeat split; try assumption; lia. }
  intros ip x Hx.
  destruct c as [now ip0 bypassed blocked|now ip0|now ip0|now ip0 score|now];
    cbn [step] in Hx.
  - unfold RecordIPRequest in Hx. destruct enabled; cbn [negb] in Hx; [|auto].
    apply lookup_insert_Some in Hx. destruct Hx as [[<- <-]|[_ Hx]]; [|auto].
    pose proof (sound_metrics_of n now ip0 m ltac:(lia) Hm) as Hs.
    unfold sound_metrics in *. cbn.
    destruct Hs as (H1 & H2 & H3 & H4 & H5 & H6).
    rewrite (add_one n (TotalRequests _)) by lia.
    destruct bypassed, blocked;
      rewrite ?(add_one n (BypassedRequests _)) by lia;
      rewrite ?(add_one n (BlockedRequests _)) by lia;
      repeat split; try assumption; lia.
  - unfold RecordIPChallengeFailure in Hx.
    destruct enabled; cbn [negb] in Hx; [|auto].
    apply lookup_insert_Some in Hx. destruct Hx as [[<- <-]|[_ Hx]]; [|auto].
    pose proof (sound_metrics_of n now ip0 m ltac:(lia) Hm) as Hs.
    unfold sound_metrics in *. cbn.
    destruct Hs as (H1 & H2 & H3 & H4 & H5 & H6).
    rewrite (add_one n (ChallengeFailures _)) by lia.
    repeat split; try assumption; lia.
  - unfold RecordIPRateLimitHit in Hx.
    destruct enabled; cbn [negb] in Hx; [|auto].
    apply lookup_insert_Some in Hx. destruct Hx as [[<- <-]|[_ Hx]]; [|auto].
    pose proof (sound_metrics_of n now ip0 m ltac:(lia) Hm) as Hs.
    unfold sound_metrics in *. cbn.
    destruct Hs as (H1 & H2 & H3 & H4 & H5 & H6).
    rewrite (add_one n (RateLimitHits _)) by lia.
    repeat split; try assumption; lia.
  - unfold UpdateIPReputationScore in Hx.
    destruct enabled; cbn [negb] in Hx; [|auto].
    apply lookup_insert_Some in Hx. destruct Hx as [[<- <-]|[_ Hx]]; [|auto].
    pose proof (sound_metrics_of n now ip0 m ltac:(lia) Hm) as Hs.
    unfold sound_metrics in *. cbn.
    destruct Hs as (H1 & H2 & H3 & H4 & H5 & H6).
    repeat split; try assumption; lia.
  - unfold CleanupOldIPMetrics in Hx.
    destruct enabled; cbn [negb] in Hx; [|auto].
    apply map_lookup_filter_Some in Hx. apply Hweak. tauto.
Qed.

Lemma run_sound enabled cs : forall n m,
  0 <= n -> n + Z.of_nat (length cs) <= max_int ->
  (forall ip x, m !! ip = Some x -> sound_metrics n ip x) ->
  forall ip x, fold_left (step enabled) cs m !! ip = Some x ->
               sound_metrics (n + Z.of_nat (length cs)) ip x.
Proof.
  induction cs as [|c cs IH]; intros n m Hn Hlen Hm ip x Hx.
  - cbn in *. rewrite Z.add_0_r. apply Hm. exact Hx.
  - cbn [fold_left length] in *.
    replace (n + Z.of_nat (S (length cs))) with (n + 1 + Z.of_nat (length cs))
      by lia.
    apply (IH (n + 1) (step enabled m c)); try lia; [|exact Hx].
    apply step_sound; [lia | exact Hm].
Qed.

(** X28. After any run of the recording functions and the cleanup from
    the empty table (fewer than 2^63 calls), every record is stored under
    its own address, its bypassed and its blocked requests are each
    between 0 and its total requests, and no counter exceeds the number of
    calls. *)
Theorem counters_are_consistent enabled cs ip x :
  Z.of_nat (length cs) <= max_int ->
  fold_left (step enabled) cs ∅ !! ip = Some x ->
  sound_metrics (Z.of_nat (length cs)) ip x.
Proof.
  intros Hlen Hx.
  apply (run_sound enabled cs 0 ∅ ltac:(lia) ltac:(lia)); [|exact Hx].
  intros ip' y Hy. rewrite lookup_empty in Hy. discriminate.
Qed.

Lemma counters_are_consistent_witness :
  sound_metrics 2 "203.0.113.9" (sample_metrics "203.0.113.9").
Proof.
  apply (counters_are_consistent true
           [Request 0 "203.0.113.9" false true;
            Request 1 "203.0.113.9" true false]
           "203.0.113.9" (sample_metrics "203.0.113.9")).
  - vm_compute. discriminate.
  - reflexivity.
Defined.

(** X29. [GetTopAttackingIPs], whatever the order in which the map is
    visited: for a negative [n] the slice expression panics; for [n >= 0]
    it returns min(n, number of addresses with a blocked request) distinct
    addresses, each with at least one blocked request; with metrics off it
    returns the empty list. *)
Theorem GetTopAttackingIPs_returns_attackers m visit n :
  visit ≡ₚ map_to_list m ->
  (n < 0 -> GetTopAttackingIPs true visit n = None)
  /\ (0 <= n ->
      exists ips,
        GetTopAttackingIPs true visit n = Some ips
        /\ Z.of_nat (length ips) = Z.min n (Z.of_nat (length (attackers m)))
        /\ NoDup ips
        /\ forall ip, ip ∈ ips ->
             exists x, m !! ip = Some x /\ 0 < BlockedRequests x)
  /\ GetTopAttackingIPs false visit n = Some [].
Proof.
  intros Hperm.
  set (P := fun kv : string * IPMetrics => 0 < BlockedRequests (snd kv)).
  assert (Hf : filter P visit ≡ₚ attackers m).
  { unfold attackers. fold P. rewrite Hperm. reflexivity. }
  assert (Hlen : length (fst <$> filter P visit) = length (attackers m)).
  { rewrite length_fmap. apply Permutation_length. exact Hf. }
  assert (Hnd : NoDup (fst <$> filter P visit)).
  { assert (Hsub : (fst <$> filter P visit) `sublist_of` (fst <$> visit))
      by (apply fmap_sublist, sublist_filter).
    apply (sublist_NoDup _ (fst <$> visit)); [|exact Hsub].
    rewrite Hperm. apply NoDup_fst_map_to_list. }
  assert (Hin : forall ip, ip ∈ (fst <$> filter P visit) ->
            exists x, m !! ip = Some x /\ 0 < BlockedRequests x).
  { intros ip Hip. apply list_elem_of_fmap in Hip.
    destruct Hip as ([ip' x] & -> & Hkv).
    apply list_elem_of_filter in Hkv. destruct Hkv as [HP Hkv].
    rewrite Hperm in Hkv. apply elem_of_map_to_list in Hkv.
    exists x. split; [exact Hkv | exact HP]. }
  unfold GetTopAttackingIPs. cbn [negb]. fold P.
  split; [|split; [|reflexivity]].
  - intros Hn.
    destruct (Z.ltb_spec n (Z.of_nat (length (fst <$> filter P visit)))); [|lia].
    destruct (Z.ltb_spec n 0); [reflexivity | lia].
  - intros Hn. rewrite <- Hlen.
    destruct (Z.ltb_spec n (Z.of_nat (length (fst <$> filter P visit)))).
    + destruct (Z.ltb_spec n 0); [lia|].
      eexists. split; [reflexivity|]. split; [|split].
      * rewrite length_take. lia.
      * eapply sublist_NoDup; [exact Hnd | apply sublist_take].
      * intros ip Hip. apply Hin. eapply subseteq_take. exact Hip.
    + eexists. split; [reflexivity|]. split; [lia|]. split; assumption.
Qed.

Lemma GetTopAttackingIPs_returns_attackers_witness :
  let m : gmap string IPMetrics :=
    {["203.0.113.9" := sample_metrics "203.0.113.9"]} in
  (1 < 0 -> GetTopAttackingIPs true (map_to_list m) 1 = None)
  /\ (0 <= 1 ->
      exists ips,
        GetTopAttackingIPs true (map_to_list m) 1 = Some ips
        /\ Z.of_nat (length ips) = Z.min 1 (Z.of_nat (length (attackers m)))
        /\ NoDup ips
        /\ forall ip, ip ∈ ips ->
             exists x, m !! ip = Some x /\ 0 < BlockedRequests x)
  /\ GetTopAttackingIPs false (map_to_list m) 1 = Some [].
Proof.
  apply (GetTopAttackingIPs_returns_attackers
           {["203.0.113.9" := sample_metrics "203.0.113.9"]}
           (map_to_list {["203.0.113.9" := sample_metrics "203.0.113.9"]})
           1).
  reflexivity.
Defined.

(** The slice expression with a negative bound, and one address of one. *)
Example top_attackers_of_one :
  let m : gmap string IPMetrics :=
    {["203.0.113.9" := sample_metrics "203.0.113.9"]} in
  GetTopAttackingIPs true (map_to_list m) (-1) = None
  /\ GetTopAttackingIPs true (map_to_list m) 0 = Some []
  /\ GetTopAttackingIPs true (map_to_list m) 5 = Some ["203.0.113.9"].
Proof. repeat split; vm_compute; reflexivity. Qed.

Lemma insert_keeps_last_seen ip ip0 now m t0 (f : IPMetrics -> IPMetrics) :
  (forall x, LastSeen (f x) = LastSeen x) ->
  (LastSeen <$> m !! ip) = Some t0 ->
  (LastSeen <$> <[ip0 := f (metrics_of now ip0 m)]> m !! ip) = Some t0.
Proof.
  intros Hf Hl. destruct (decide (ip0 = ip)) as [E|Hne].
  - subst ip0. rewrite lookup_insert_eq. cbn. rewrite Hf. unfold metrics_of.
    destruct (m !! ip); [exact Hl | discriminate].
  - rewrite lookup_insert_ne by exact Hne. exact Hl.
Qed.

Lemma quiet_step_keeps_last_seen ip c m t0 :
  no_request_of ip c ->
  (LastSeen <$> m !! ip) = Some t0 ->
  (LastSeen <$> step true m c !! ip) = Some t0.
Proof.
  intros Hq Hl.
  destruct c as [now ip0 bypassed blocked|now ip0|now ip0|now ip0 score|now];
    cbn [step no_request_of] in *.
  - unfold RecordIPRequest. cbn [negb].
    rewrite lookup_insert_ne by exact Hq. exact Hl.
  - unfold RecordIPChallengeFailure. cbn [negb].
    apply (insert_keeps_last_seen ip ip0 now m t0
             (fun x => {| IP := IP x; TotalRequests := TotalRequests x;
                          BypassedRequests := BypassedRequests x;
                          BlockedRequests := BlockedRequests x;
                          ChallengeFailures := GoInt.add (ChallengeFailures x) 1;
                          RateLimitHits := RateLimitHits x;
                          ReputationScore := ReputationScore x;
                          LastSeen := LastSeen x;
                          RequestsPerSecond := RequestsPerSecond x;
                          AverageResponseTime := AverageResponseTime x |}));
      [reflexivity | exact Hl].
  - unfold RecordIPRateLimitHit. cbn [negb].
    apply (insert_keeps_last_seen ip ip0 now m t0
             (fun x => {| IP := IP x; TotalRequests := TotalRequests x;
                          BypassedRequests := BypassedRequests x;
                          BlockedRequests := BlockedRequests x;
                          ChallengeFailures := ChallengeFailures x;
                          RateLimitHits := GoInt.add (RateLimitHits x) 1;
                          ReputationScore := ReputationScore x;
                          LastSeen := LastSeen x;
                          RequestsPerSecond := RequestsPerSecond x;
                          AverageResponseTime := AverageResponseTime x |}));
      [reflexivity | exact Hl].
  - unfold UpdateIPReputationScore. cbn [negb].
    apply (insert_keeps_last_seen ip ip0 now m t0
             (fun x => {| IP := IP x; TotalRequests := TotalRequests x;
                          BypassedRequests := BypassedRequests x;
                          BlockedRequests := BlockedRequests x;
                          ChallengeFailures := ChallengeFailures x;
                          RateLimitHits := RateLimitHits x;
                          ReputationScore := score;
                          LastSeen := LastSeen x;
                          RequestsPerSecond := RequestsPerSecond x;
                          AverageResponseTime := AverageResponseTime x |}));
      [reflexivity | exact Hl].
  - contradiction.
Qed.

(** X30. Only [RecordIPRequest] refreshes the time an address was last
    seen: an entry created by a challenge failure keeps its creation time
    through later challenge failures, rate-limit hits and score updates,
    and a cleanup more than 24 hours after its creation removes it. *)
Theorem challenge_failures_do_not_refresh_an_entry t0 ip cs now m :
  m !! ip = None ->
  Forall (no_request_of ip) cs ->
  t0 < now - 24 * Hour ->
  let m1 := fold_left (step true) cs (RecordIPChallengeFailure true t0 ip m) in
  (LastSeen <$> m1 !! ip) = Some t0
  /\ CleanupOldIPMetrics true now m1 !! ip = None.
Proof.
  intros Hnone Hall Hold m1.
  assert (H1 : (LastSeen <$> m1 !! ip) = Some t0).
  { unfold m1.
    assert (H0 : (LastSeen <$> RecordIPChallengeFailure true t0 ip m !! ip)
                 = Some t0).
    { unfold RecordIPChallengeFailure. cbn [negb]. rewrite lookup_insert_eq.
      unfold metrics_of. rewrite Hnone. reflexivity. }
    revert H0. generalize (RecordIPChallengeFailure true t0 ip m).
    induction Hall as [|c cs Hc Hcs IH]; intros m0 H0; [exact H0|].
    cbn [fold_left]. apply IH. apply quiet_step_keeps_last_seen; assumption. }
  split; [exact H1|].
  unfold CleanupOldIPMetrics. cbn [negb].
  apply map_lookup_filter_None_2.
  destruct (m1 !! ip) as [x|] eqn:E; [right | left; reflexivity].
  intros y Hy. injection Hy as <-. cbn in H1. injection H1 as H1.
  cbn. rewrite H1. unfold GoInt.mul.
  rewrite wrap64_id by (vm_compute; split; discriminate).
  unfold Hour, Second in *. lia.
Qed.

(** A challenge failure at instant 0, another one 24 hours later, a cleanup
    after 25 hours. *)
Lemma challenge_failures_do_not_refresh_an_entry_witness :
  let m1 := fold_left (step true) [ChallengeFailure (24 * Hour) "203.0.113.9"]
              (RecordIPChallengeFailure true 0 "203.0.113.9" ∅) in
  (LastSeen <$> m1 !! "203.0.113.9") = Some 0
  /\ CleanupOldIPMetrics true (25 * Hour) m1 !! "203.0.113.9" = None.
Proof.
  apply (challenge_failures_do_not_refresh_an_entry 0 "203.0.113.9"
           [ChallengeFailure (24 * Hour) "203.0.113.9"] (25 * Hour) ∅).
  - apply lookup_empty.
  - repeat constructor.
  - vm_compute. reflexivity.
Defined.

End MetricsFacts.
